(** * tdsr: a terminal screen reader

    A shallow embedding of [tdsr/__init__.py] and the properties of its
    speech gating, scheduler, key dispatcher, review cursor, alternate
    screen, repeated-symbol summary and synth driver.

    Conventions of the embedding:
    - a Python [str] is the list of its code points ([list N]); a [bytes]
      value is the list of its bytes, also as [list N];
    - readings of [time.monotonic()] are passed to the function that reads
      the clock.  The scheduler adds a timeout to a reading and compares
      readings, which keeps their order: there a reading is an exact
      integer, in microseconds ([now]).  [KeyHandler.process] subtracts two
      readings and compares the difference with 0.5, where the rounding of
      the subtraction decides at the boundary: there a reading is the
      binary64 float that Python has ([key_time]);
    - the value of [repeated_symbols_values] stands inside a bracket
      expression that [re.compile] reads; the embedding covers the values
      that are free of the syntax of bracket expressions ([plain_class]),
      the default among them, for which the class is the set of the
      characters of the value and [re.compile] returns;
    - the module globals [state], [speech_buffer], [lastkey], [screen] and
      the texts handed to [synth.send] form one record, [World], threaded
      through every function;
    - a [while] loop is [while_] applied to a number of rounds computed from
      the loop's own variant, and shown to stop by its condition;
    - the methods of [pyte.Screen], which [MyScreen] inherits and calls
      through [super()], are the fields of a record [Pyte], a parameter. *)

From Stdlib Require Import Floats.PrimFloat.
From Stdlib Require Import ZArith NArith Ascii String Decimal.
From stdpp Require Import gmap strings list.

Local Open Scope Z_scope.

(** ** Text *)

Abbreviation char := N (only parsing).
Abbreviation str := (list N) (only parsing).

(** An ASCII literal as a Python string. *)
Definition u (s : string) : str := N_of_ascii <$> list_ascii_of_string s.

Definition SPACE : N := 32%N.

(** [str.isspace] for one code point, as [str.strip] uses it. *)
Definition isspace (c : N) : bool :=
  ((9 <=? c) && (c <=? 13) || (28 <=? c) && (c <=? 32) || (c =? 133)
   || (c =? 160) || (c =? 5760) || (8192 <=? c) && (c <=? 8202)
   || (c =? 8232) || (c =? 8233) || (c =? 8239) || (c =? 8287)
   || (c =? 12288))%N.

Fixpoint lstrip (s : str) : str :=
  match s with
  | c :: s' => if isspace c then lstrip s' else s
  | [] => []
  end.

Definition rstrip (s : str) : str := reverse (lstrip (reverse s)).
Definition strip (s : str) : str := rstrip (lstrip s).

(** The decimal digits of a number, most significant first: [str(n)],
    ["%d" % n] and [f"{n}"]. *)
Fixpoint uint_str (d : Decimal.uint) : str :=
  match d with
  | Decimal.Nil => []
  | Decimal.D0 d => 48%N :: uint_str d
  | Decimal.D1 d => 49%N :: uint_str d
  | Decimal.D2 d => 50%N :: uint_str d
  | Decimal.D3 d => 51%N :: uint_str d
  | Decimal.D4 d => 52%N :: uint_str d
  | Decimal.D5 d => 53%N :: uint_str d
  | Decimal.D6 d => 54%N :: uint_str d
  | Decimal.D7 d => 55%N :: uint_str d
  | Decimal.D8 d => 56%N :: uint_str d
  | Decimal.D9 d => 57%N :: uint_str d
  end.

Definition str_of_nat (n : nat) : str := uint_str (Nat.to_uint n).

Definition is_digit (c : N) : Prop := (48 ≤ c ≤ 57)%N.

(** [s.startswith(p)] *)
Fixpoint startswith (p s : str) : bool :=
  match p, s with
  | [], _ => true
  | a :: p', b :: s' => bool_decide (a = b) && startswith p' s'
  | _ :: _, [] => false
  end.

(** [s.replace(old, new, 1)]: the first occurrence of [old], from the left,
    becomes [new]. *)
Fixpoint replace_first (old new s : str) : str :=
  if startswith old s then new ++ drop (length old) s
  else match s with
       | [] => []
       | c :: s' => c :: replace_first old new s'
       end.

(** ** while loops *)

Fixpoint while_ {S : Type} (rounds : nat) (cond : S → bool) (body : S → S)
    (s : S) : S :=
  match rounds with
  | O => s
  | Datatypes.S n => if cond s then while_ n cond body (body s) else s
  end.

(** ** io.StringIO, as far as the speech buffer uses it *)

Module StringIO.
Record t := mk { getvalue : str; tell : nat }.

Definition empty : t := mk [] 0.

(** [write] overwrites from the current position and pads with NUL when
    the position is past the end. *)
Definition write (s : str) (b : t) : t :=
  mk (take (tell b) (getvalue b)
      ++ replicate (tell b - length (getvalue b)) 0%N
      ++ s ++ drop (tell b + length s) (getvalue b))
     (tell b + length s).

Definition seek (p : nat) (b : t) : t := mk (getvalue b) p.
Definition seek_end (b : t) : t := mk (getvalue b) (length (getvalue b)).
(** [truncate(0)] empties the text and leaves the position. *)
Definition truncate0 (b : t) : t := mk [] (tell b).
End StringIO.

(** ** Configuration

    The [speech] section with its options as typed values (every one of them
    has a default in [State.__init__]), and the [symbols] section keyed by
    code point. *)

Record Config := {
  process_symbols : bool;
  key_echo : bool;
  cursor_tracking : bool;
  line_pause : bool;
  repeated_symbols : bool;
  repeated_symbols_values : str;
  symbols : gmap N (list N)
}.

(** [State.build_symbols_re]: the alternation of every symbol but the space;
    [None] when there is none.  [main] stores it once, from the table that
    [say] later reads, so it is computed from the table here. *)
Definition build_symbols_re (c : Config) : option (list N) :=
  let candidates := filter (λ s, s ≠ SPACE) (fst <$> map_to_list (symbols c)) in
  match candidates with
  | [] => None
  | _ => Some candidates
  end.

(** ** The screen of pyte, as tdsr reads it *)

Record Char := {
  data : str;
  fg : str; bg : str;
  bold : bool; italics : bool; underscore : bool;
  strikethrough : bool; reverse_video : bool; blink : bool
}.

Definition default_char : Char :=
  {| data := [SPACE]; fg := u "default"; bg := u "default";
     bold := false; italics := false; underscore := false;
     strikethrough := false; reverse_video := false; blink := false |}.

Record Cursor := { cursor_x : Z; cursor_y : Z; cursor_attrs : Char; hidden : bool }.

(** [Screen.buffer]: a [defaultdict] of rows, each a dictionary from column
    to [Char] that answers [default_char] for a missing column and stores
    nothing on a read.  pyte keeps its keys inside the screen, so they are
    natural numbers here; an index below zero is a missing key. *)
Abbreviation Buffer := (gmap nat (gmap nat Char)) (only parsing).

Definition cell (b : Buffer) (y x : Z) : Char :=
  if bool_decide (0 ≤ y ∧ 0 ≤ x)
  then default default_char (b !! Z.to_nat y ≫= (.!! Z.to_nat x))
  else default_char.

Record Screen := {
  columns : Z;
  lines : Z;
  cursor : Cursor;
  buffer : gmap nat (gmap nat Char);
  mode : gset Z;
  dirty : gset Z;
  margins : option (Z * Z)
}.

(** [MyScreen(pyte.Screen)] adds the saved alternate. *)
Record MyScreen := {
  base : Screen;
  saved_cursor : option Cursor;
  saved_buffer : option (gmap nat (gmap nat Char))
}.

(** ** The session state *)

(** The callables that [schedule] receives. *)
Inductive callback :=
  | read_buffer_scheduled_cb          (* read_buffer_scheduled *)
  | sayline_at_cursor                 (* lambda: sayline(screen.cursor.y) *)
  | saychar_at_cursor.                (* lambda: saychar(screen.cursor.y, screen.cursor.x) *)

Global Instance callback_eq_dec : EqDecision callback.
Proof. solve_decision. Defined.

Module State.
Record t := mk {
  revy : Z;
  revx : Z;
  delayed_functions : list (Z * callback);
  silence : bool;
  tempsilence : bool;
  config : Config;
  copy_x : option Z;
  copy_y : option Z;
  last_drawn_x : Z;
  last_drawn_y : Z;
  delaying_output : bool
}.

Definition set_revy (v : Z) (s : t) : t :=
  mk v (revx s) (delayed_functions s) (silence s) (tempsilence s) (config s)
     (copy_x s) (copy_y s) (last_drawn_x s) (last_drawn_y s) (delaying_output s).
Definition set_revx (v : Z) (s : t) : t :=
  mk (revy s) v (delayed_functions s) (silence s) (tempsilence s) (config s)
     (copy_x s) (copy_y s) (last_drawn_x s) (last_drawn_y s) (delaying_output s).
Definition set_delayed_functions (v : list (Z * callback)) (s : t) : t :=
  mk (revy s) (revx s) v (silence s) (tempsilence s) (config s)
     (copy_x s) (copy_y s) (last_drawn_x s) (last_drawn_y s) (delaying_output s).
Definition set_tempsilence (v : bool) (s : t) : t :=
  mk (revy s) (revx s) (delayed_functions s) (silence s) v (config s)
     (copy_x s) (copy_y s) (last_drawn_x s) (last_drawn_y s) (delaying_output s).
Definition set_last_drawn (x y : Z) (s : t) : t :=
  mk (revy s) (revx s) (delayed_functions s) (silence s) (tempsilence s) (config s)
     (copy_x s) (copy_y s) x y (delaying_output s).
Definition set_delaying_output (v : bool) (s : t) : t :=
  mk (revy s) (revx s) (delayed_functions s) (silence s) (tempsilence s) (config s)
     (copy_x s) (copy_y s) (last_drawn_x s) (last_drawn_y s) v.

(** [State.__init__], with the configuration that [main] has read. *)
Definition init (c : Config) : t :=
  mk 0 0 [] false false c None None 0 0 false.
End State.

(** The module globals.  [sent] lists the texts handed to [synth.send],
    oldest first; what the driver does with one text is [Synth.send]
    below. *)
Record World := {
  state : State.t;
  speech_buffer : StringIO.t;
  lastkey : str;
  screen : MyScreen;
  sent : list (list N);
  CURSOR_TIMEOUT : Z
}.

Definition with_state (f : State.t → State.t) (w : World) : World :=
  {| state := f (state w); speech_buffer := speech_buffer w; lastkey := lastkey w;
     screen := screen w; sent := sent w; CURSOR_TIMEOUT := CURSOR_TIMEOUT w |}.
Definition with_speech_buffer (f : StringIO.t → StringIO.t) (w : World) : World :=
  {| state := state w; speech_buffer := f (speech_buffer w); lastkey := lastkey w;
     screen := screen w; sent := sent w; CURSOR_TIMEOUT := CURSOR_TIMEOUT w |}.
Definition set_lastkey (k : str) (w : World) : World :=
  {| state := state w; speech_buffer := speech_buffer w; lastkey := k;
     screen := screen w; sent := sent w; CURSOR_TIMEOUT := CURSOR_TIMEOUT w |}.
Definition with_screen (f : MyScreen → MyScreen) (w : World) : World :=
  {| state := state w; speech_buffer := speech_buffer w; lastkey := lastkey w;
     screen := f (screen w); sent := sent w; CURSOR_TIMEOUT := CURSOR_TIMEOUT w |}.
(** [synth.send(text)], seen from the callers. *)
Definition synth_send (text : str) (w : World) : World :=
  {| state := state w; speech_buffer := speech_buffer w; lastkey := lastkey w;
     screen := screen w; sent := sent w ++ [text]; CURSOR_TIMEOUT := CURSOR_TIMEOUT w |}.

Definition revx (w : World) : Z := State.revx (state w).
Definition revy (w : World) : Z := State.revy (state w).
Definition speech (w : World) : Config := State.config (state w).

(** A call either returns or raises, in both cases with the globals as the
    call left them. *)
Inductive exn := TypeError.
Inductive outcome := Returns (w : World) | Raises (e : exn) (w : World).

Definition final (o : outcome) : World :=
  match o with Returns w | Raises _ w => w end.

Definition andthen (c1 c2 : World → outcome) : World → outcome :=
  λ w, match c1 w with
       | Returns w' => c2 w'
       | Raises e w' => Raises e w'
       end.
Definition total (f : World → World) : World → outcome := λ w, Returns (f w).

Declare Scope cmd_scope.
Delimit Scope cmd_scope with cmd.
Notation "c1 ;; c2" := (andthen c1 c2)
  (at level 100, c2 at level 200, right associativity) : cmd_scope.

(** ** Speech *)

(** A value free of the syntax of bracket expressions: not empty, without
    a backslash or a square bracket, without [^] in front, and with [-] in
    front or at the end only.  For such a value
    [re.compile(fr'([{symbols}])\1*')] returns, and the class is the set of
    the characters of the value.  Other values are outside the embedding:
    [a-c] is a range, [^a] a complement, and for [z-a] or the empty value
    [re.compile] raises [re.error], in [sb] and [sayline] too, since the
    pattern is compiled before [repeated_symbols] is read. *)
Definition plain_class (symbols : str) : bool :=
  match symbols with
  | [] => false
  | c :: rest =>
      negb (c =? 94)%N
      && forallb (λ c, negb ((c =? 92) || (c =? 91) || (c =? 93))%N) symbols
      && forallb (λ c, negb (c =? 45)%N) (removelast rest)
  end.

(** The matches of [([symbols])\1*] over [line], left to right, as
    [re.finditer] yields them, for a plain class: each match is one
    character [c] of the class and every repetition of it that follows,
    kept as [(c, n)] for the text [c] repeated [n] times ([group()] is that
    text, [groups()[0]] is [c]). *)
Fixpoint finditer_from (symbols : str) (cur : option (N * nat)) (line : str)
    : list (N * nat) :=
  match line with
  | [] => match cur with Some m => [m] | None => [] end
  | c :: rest =>
      let start := if bool_decide (c ∈ symbols) then Some (c, 1%nat) else None in
      match cur with
      | Some (d, n) =>
          if bool_decide (c = d) then finditer_from symbols (Some (d, S n)) rest
          else (d, n) :: finditer_from symbols start rest
      | None => finditer_from symbols start rest
      end
  end.

Definition finditer (symbols line : str) : list (N * nat) :=
  finditer_from symbols None line.

(** The body of the loop over the matches: a match longer than one
    character is replaced, once, where [str.replace] finds its text first. *)
Definition replace_match (new_line : str) (r : N * nat) : str :=
  let '(ch, n) := r in
  let match_ := replicate n ch in
  if bool_decide (1 < length match_)%nat
  then replace_first match_ (str_of_nat (length match_) ++ [SPACE; ch]) new_line
  else new_line.

(** With a plain class as [repeated_symbols_values]. *)
Definition replace_duplicate_characters_with_count (c : Config) (line : str) : str :=
  let symbols := repeated_symbols_values c in
  let new_line := line in
  if repeated_symbols c then foldl replace_match new_line (finditer symbols line)
  else new_line.

(** [state.symbols_re.sub(replace_symbols, data)] *)
Definition symbols_re_sub (re : list N) (c : Config) (data : str) : str :=
  mjoin ((λ ch, if bool_decide (ch ∈ re)
                then match symbols c !! ch with
                     | Some word => [SPACE] ++ word ++ [SPACE]
                     | None => [ch]
                     end
                else [ch]) <$> data).

Definition say (data : str) (force_process_symbols : bool) (w : World) : World :=
  let data := strip data in
  let data :=
    match build_symbols_re (speech w) with
    | Some re =>
        if force_process_symbols || process_symbols (speech w)
        then symbols_re_sub re (speech w) data else data
    | None => data
    end in
  synth_send (u "s" ++ data ++ [10%N]) w.

Definition silence (w : World) : World := synth_send (u "x" ++ [10%N]) w.

(** [ord(ch)] raises [TypeError] unless [ch] is one code point. *)
Definition say_character (ch : str) (w : World) : outcome :=
  let ch := if bool_decide (ch = []) then [SPACE] else ch in
  match ch with
  | [c] =>
      match symbols (speech w) !! c with
      | Some word => Returns (synth_send (u "s" ++ word ++ [10%N]) w)
      | None => Returns (synth_send (u "l" ++ ch ++ [10%N]) w)
      end
  | _ => Raises TypeError w
  end.

Definition sb (w : World) : World :=
  let data := StringIO.getvalue (speech_buffer w) in
  let w := with_speech_buffer StringIO.truncate0 w in
  let w := with_speech_buffer (StringIO.seek 0) w in
  if bool_decide (data = []) then w
  else if negb (State.tempsilence (state w))
       then say (replace_duplicate_characters_with_count (speech w) data) false w
       else w.

Definition read_buffer_scheduled (w : World) : World :=
  sb (with_state (State.set_delaying_output false) w).

(** ** Reading the screen *)

Definition get_data (w : World) (y x : Z) : str :=
  data (cell (buffer (base (screen w))) y x).

Definition get_char (w : World) : str := get_data w (revy w) (revx w).

Definition sayline (y : Z) (w : World) : World :=
  let line := strip (mjoin ((λ x, get_data w y x) <$> seqZ 0 (columns (base (screen w))))) in
  let line := if bool_decide (line = []) then u "blank" else line in
  say (replace_duplicate_characters_with_count (speech w) line) false w.

Definition PHONETICS : list (N * list N) :=
  (λ x, (default 0%N (head (u x)), u x)) <$>
    ["alpha"; "bravo"; "charlie"; "delta"; "echo"; "foxtrot";
     "golf"; "hotel"; "india"; "juliet"; "kilo"; "lima"; "mike";
     "november"; "oscar"; "papa"; "quebec"; "romeo"; "sierra";
     "tango"; "uniform"; "victor"; "wiskey"; "x ray"; "yankee";
     "zulu"]%string.

(** The key of [PHONETICS] that [char.lower()] is, if any: the lower-case
    ASCII letters are the lower case of themselves, of the upper-case ASCII
    letters and of the Kelvin sign. *)
Definition lower_letter (char : str) : option N :=
  match char with
  | [c] =>
      if ((97 <=? c) && (c <=? 122))%N then Some c
      else if ((65 <=? c) && (c <=? 90))%N then Some (c + 32)%N
      else if (c =? 8490)%N then Some 107%N
      else None
  | _ => None
  end.

Definition saychar (y x : Z) (phonetically : bool) (w : World) : outcome :=
  let char := get_data w y x in
  let phonetic :=
    (if phonetically then lower_letter char else None)
      ≫= (λ k, list_to_map (M := gmap N (list N)) PHONETICS !! k) in
  match phonetic with
  | Some word => Returns (synth_send (u "s" ++ word ++ [10%N]) w)
  | None => say_character char w
  end.

(** ** The scheduler *)

Definition schedule (now timeout : Z) (func : callback) (set_tempsilence : bool)
    (w : World) : World :=
  let w := with_state (λ s, State.set_delayed_functions
                              (State.delayed_functions s ++ [(now + timeout, func)]) s) w in
  if set_tempsilence then with_state (State.set_tempsilence true) w else w.

Definition call (f : callback) (w : World) : outcome :=
  match f with
  | read_buffer_scheduled_cb => Returns (read_buffer_scheduled w)
  | sayline_at_cursor => Returns (sayline (cursor_y (cursor (base (screen w)))) w)
  | saychar_at_cursor =>
      saychar (cursor_y (cursor (base (screen w)))) (cursor_x (cursor (base (screen w)))) false w
  end.

(** [list.remove(x)]: the first element equal to [x] goes. *)
Fixpoint list_remove {A} `{EqDecision A} (x : A) (l : list A) : list A :=
  match l with
  | [] => []
  | y :: l' => if decide (x = y) then l' else y :: list_remove x l'
  end.

(** The first loop of [run_scheduled]: the due callbacks run in list order
    and are collected in [to_remove]. *)
Fixpoint run_due (curtime : Z) (pending to_remove : list (Z * callback))
    (w : World) : outcome * list (Z * callback) :=
  match pending with
  | [] => (Returns w, to_remove)
  | (t, f) :: rest =>
      if bool_decide (t ≤ curtime) then
        match call f w with
        | Returns w' => run_due curtime rest (to_remove ++ [(t, f)]) w'
        | Raises e w' => (Raises e w', to_remove)
        end
      else run_due curtime rest to_remove w
  end.

Definition run_scheduled (now : Z) (w : World) : outcome :=
  if bool_decide (State.delayed_functions (state w) = []) then Returns w
  else
    match run_due now (State.delayed_functions (state w)) [] w with
    | (Returns w', to_remove) =>
        Returns (with_state (λ s, State.set_delayed_functions
                   (foldl (λ l i, list_remove i l) (State.delayed_functions s) to_remove) s) w')
    | (Raises e w', _) => Raises e w'
    end.

Definition time_until_next_delayed (now : Z) (w : World) : option Z :=
  match State.delayed_functions (state w) with
  | [] => None
  | (t, _) :: _ => Some (Z.max 0 (t - now))
  end.

(** ** The review cursor *)

Definition set_revx (v : Z) (w : World) : World := with_state (State.set_revx v) w.
Definition set_revy (v : Z) (w : World) : World := with_state (State.set_revy v) w.

Definition prevline (w : World) : World :=
  let w := set_revy (revy w - 1) w in
  let w := if bool_decide (revy w < 0) then set_revy 0 (say (u "top") false w) else w in
  sayline (revy w) w.

Definition nextline (w : World) : World :=
  let w := set_revy (revy w + 1) w in
  let w := if bool_decide (revy w > lines (base (screen w)) - 1)
           then set_revy (lines (base (screen w)) - 1) (say (u "bottom") false w)
           else w in
  sayline (revy w) w.

(** [while screen.buffer[state.revy][state.revx].data == '': state.revx -= 1].
    Every round moves one column to the left and a column below zero holds
    [default_char], so [revx + 1] rounds reach the end of the loop. *)
Definition skip_to_previous_char (w : World) : World :=
  while_ (Z.to_nat (revx w + 1))
         (λ w, bool_decide (get_char w = []))
         (λ w, set_revx (revx w - 1) w)
         w.

Definition prevchar : World → outcome :=
  (total (λ w,
     let w := set_revx (revx w - 1) w in
     let w := if bool_decide (revx w < 0) then set_revx 0 (say (u "left") false w) else w in
     skip_to_previous_char w)
   ;; (λ w, saychar (revy w) (revx w) false w))%cmd.

Definition topOfScreen (w : World) : World :=
  let w := set_revy 0 w in
  sayline (revy w) w.

Definition bottomOfScreen (w : World) : World :=
  let w := set_revy (lines (base (screen w)) - 1) w in
  sayline (revy w) w.

Definition startOfLine : World → outcome :=
  (total (set_revx 0) ;; (λ w, saychar (revy w) (revx w) false w))%cmd.

Definition endOfLine : World → outcome :=
  (total (λ w, set_revx (columns (base (screen w)) - 1) w)
   ;; (λ w, saychar (revy w) (revx w) false w))%cmd.

(** The value that [move_prevchar] and [move_nextchar] return at the corner
    of the screen is used by no caller. *)
Definition move_prevchar (w : World) : World :=
  if bool_decide (revx w = 0) then
    if bool_decide (revy w = 0) then w
    else set_revx (columns (base (screen w)) - 1) (set_revy (revy w - 1) w)
  else set_revx (revx w - 1) w.

Definition move_nextchar (w : World) : World :=
  if bool_decide (revx w = columns (base (screen w)) - 1) then
    if bool_decide (revy w = lines (base (screen w)) - 1) then w
    else set_revx 0 (set_revy (revy w + 1) w)
  else set_revx (revx w + 1) w.

(** [' '.join(word)] *)
Fixpoint join_chars (sep : str) (word : str) : str :=
  match word with
  | [] => []
  | [c] => [c]
  | c :: rest => c :: sep ++ join_chars sep rest
  end.

Definition sayword (spell : bool) (w : World) : World :=
  let word := [] in
  let '(revx0, revy0) := (revx w, revy w) in
  let w := while_ (Z.to_nat (revx w))
             (λ w, bool_decide (revx w > 0) && bool_decide (get_char w ≠ [SPACE])
                   && bool_decide (get_data w (revy w) (revx w - 1) ≠ [SPACE]))
             move_prevchar w in
  if bool_decide (revx w = 0) && bool_decide (get_char w = [SPACE]) then
    say (u "space") false w
  else
    let word := word ++ get_char w in
    (* the third component records that the loop was left by [break] *)
    let '(w, word, _) :=
      while_ (Z.to_nat (columns (base (screen w)) - 1 - revx w))
        (λ '(w, _, broke), negb broke && bool_decide (revx w < columns (base (screen w)) - 1))
        (λ '(w, word, _),
           let w := move_nextchar w in
           if bool_decide (get_char w = [SPACE]) then (w, word, true)
           else (w, word ++ get_char w, false))
        (w, word, false) in
    let w := if spell then say (join_chars [SPACE] word) true w
             else say word false w in
    set_revy revy0 (set_revx revx0 w).

Definition prevword (w : World) : World :=
  if bool_decide (revx w = 0) then sayword false (say (u "left") false w)
  else
    (* Move over any existing word we might be in the middle of *)
    let w := while_ (Z.to_nat (revx w))
               (λ w, bool_decide (revx w > 0) && bool_decide (get_char w ≠ [SPACE]))
               move_prevchar w in
    (* Skip whitespace *)
    let w := while_ (Z.to_nat (revx w))
               (λ w, bool_decide (revx w > 0) && bool_decide (get_char w = [SPACE]))
               move_prevchar w in
    (* Move to the beginning of the word we're now on *)
    let w := while_ (Z.to_nat (revx w))
               (λ w, bool_decide (revx w > 0) && bool_decide (get_char w ≠ [SPACE])
                     && bool_decide (get_data w (revy w) (revx w - 1) ≠ [SPACE]))
               move_prevchar w in
    sayword false w.

Definition nextword (w : World) : World :=
  let '(revx0, revy0) := (revx w, revy w) in
  let m := columns (base (screen w)) - 1 in
  (* Move over any existing word we might be in the middle of *)
  let w := while_ (Z.to_nat (m - revx w))
             (λ w, bool_decide (revx w < m) && bool_decide (get_char w ≠ [SPACE]))
             move_nextchar w in
  (* Skip whitespace *)
  let w := while_ (Z.to_nat (m - revx w))
             (λ w, bool_decide (revx w < m) && bool_decide (get_char w = [SPACE]))
             move_nextchar w in
  if bool_decide (revx w = m) && bool_decide (get_char w = [SPACE]) then
    sayword false (set_revx revx0 (say (u "right") false w))
  else sayword false w.

Section Wcwidth.
(** [wcwidth.wcwidth] applied to the text of a cell: the number of columns,
    or [None] where it raises [TypeError] (a text that [ord] refuses). *)
Variable wcwidth : list N → option Z.

Definition nextchar (w : World) : outcome :=
  match wcwidth (get_char w) with
  | None => Raises TypeError w
  | Some k =>
      let w := set_revx (revx w + k) w in
      let w := if bool_decide (revx w > columns (base (screen w)) - 1)
               then skip_to_previous_char
                      (set_revx (columns (base (screen w)) - 1) (say (u "right") false w))
               else w in
      saychar (revy w) (revx w) false w
  end.
End Wcwidth.

(** ** MyScreen *)

(** pyte's mode constants ([pyte.modes]); private modes are shifted by 5. *)
Definition DECCOLM : Z := Z.shiftl 3 5.
Definition DECSCNM : Z := Z.shiftl 5 5.
Definition DECOM : Z := Z.shiftl 6 5.
Definition DECAWM : Z := Z.shiftl 7 5.
Definition DECTCEM : Z := Z.shiftl 25 5.

(** The methods of [pyte.Screen] that tdsr reaches through [super()] or
    [self].  [pyte.Screen.draw] is split where it calls [self.linefeed()],
    which is [MyScreen.linefeed]: [super_draw_wrap] is what it does before
    that call when the cursor stands past the last column in auto-wrap mode,
    [super_draw_put] is the rest.  [super_deccolm] and [super_decscnm] are
    what [pyte.Screen.set_mode] and [reset_mode] do for those two modes. *)
Record Pyte := {
  super_draw_wrap : Screen → Screen;
  super_draw_put : list N → Screen → Screen;
  super_tab : Screen → Screen;
  super_linefeed : Screen → Screen;
  super_backspace : Screen → Screen;
  super_cursor_position : Screen → Screen;
  super_index : Screen → Screen;
  super_reverse_index : Screen → Screen;
  super_erase_in_display : Z → bool → Screen → Screen;
  super_select_graphic_rendition : list Z → Screen → Screen;
  super_set_margins : option Z → option Z → Screen → Screen;
  super_deccolm : bool → Screen → Screen;
  super_decscnm : bool → Screen → Screen
}.

Definition with_base (f : Screen → Screen) (s : MyScreen) : MyScreen :=
  {| base := f (base s); saved_cursor := saved_cursor s; saved_buffer := saved_buffer s |}.

Definition set_cursor (c : Cursor) (s : Screen) : Screen :=
  {| columns := columns s; lines := lines s; cursor := c; buffer := buffer s;
     mode := mode s; dirty := dirty s; margins := margins s |}.
Definition set_buffer (b : gmap nat (gmap nat Char)) (s : Screen) : Screen :=
  {| columns := columns s; lines := lines s; cursor := cursor s; buffer := b;
     mode := mode s; dirty := dirty s; margins := margins s |}.
Definition set_mode_set (m : gset Z) (s : Screen) : Screen :=
  {| columns := columns s; lines := lines s; cursor := cursor s; buffer := buffer s;
     mode := m; dirty := dirty s; margins := margins s |}.
Definition set_dirty (d : gset Z) (s : Screen) : Screen :=
  {| columns := columns s; lines := lines s; cursor := cursor s; buffer := buffer s;
     mode := mode s; dirty := d; margins := margins s |}.
Definition set_cursor_y (y : Z) (s : Screen) : Screen :=
  set_cursor {| cursor_x := cursor_x (cursor s); cursor_y := y;
                cursor_attrs := cursor_attrs (cursor s); hidden := hidden (cursor s) |} s.
Definition set_hidden (h : bool) (s : Screen) : Screen :=
  set_cursor {| cursor_x := cursor_x (cursor s); cursor_y := cursor_y (cursor s);
                cursor_attrs := cursor_attrs (cursor s); hidden := h |} s.

(** [self.dirty.update(range(self.lines))] *)
Definition dirty_all (s : Screen) : Screen :=
  set_dirty (dirty s ∪ list_to_set (seqZ 0 (lines s))) s.

Section MyScreen.
Variable super : Pyte.

(** [pyte.Screen.set_mode] and [pyte.Screen.reset_mode] *)
Definition pyte_set_mode (modes : list Z) (private : bool) (s : Screen) : Screen :=
  let modes := if private then (λ m, Z.shiftl m 5) <$> modes else modes in
  let s := if private && bool_decide (DECSCNM ∈ modes) then dirty_all s else s in
  let s := set_mode_set (mode s ∪ list_to_set modes) s in
  let s := if bool_decide (DECCOLM ∈ modes) then super_deccolm super true s else s in
  let s := if bool_decide (DECOM ∈ modes) then super_cursor_position super s else s in
  let s := if bool_decide (DECSCNM ∈ modes) then super_decscnm super true s else s in
  if bool_decide (DECTCEM ∈ modes) then set_hidden false s else s.

Definition pyte_reset_mode (modes : list Z) (private : bool) (s : Screen) : Screen :=
  let modes := if private then (λ m, Z.shiftl m 5) <$> modes else modes in
  let s := if private && bool_decide (DECSCNM ∈ modes) then dirty_all s else s in
  let s := set_mode_set (mode s ∖ list_to_set modes) s in
  let s := if bool_decide (DECCOLM ∈ modes) then super_deccolm super false s else s in
  let s := if bool_decide (DECOM ∈ modes) then super_cursor_position super s else s in
  let s := if bool_decide (DECSCNM ∈ modes) then super_decscnm super false s else s in
  if bool_decide (DECTCEM ∈ modes) then set_hidden true s else s.

Definition set_margins (top bottom : option Z) (s : MyScreen) : MyScreen :=
  let top := if bool_decide (top = Some 0) && bool_decide (bottom = None)
             then None else top in
  with_base (super_set_margins super top bottom) s.

(** [copy.copy] of the cursor and [copy.deepcopy] of the buffer are the
    values themselves: what is drawn afterwards changes [base] only. *)
Definition set_mode (modes : list Z) (private : bool) (s : MyScreen) : MyScreen :=
  let modes := if bool_decide (3 ∈ modes) then list_remove 3 modes else modes in
  let s :=
    if bool_decide (1049 ∈ modes) then
      let s := {| base := base s;
                  saved_cursor := Some (cursor (base s));
                  saved_buffer := Some (buffer (base s)) |} in
      let s := with_base dirty_all s in
      let s := with_base (super_cursor_position super) s in
      with_base (set_buffer ∅) s
    else s in
  with_base (pyte_set_mode modes private) s.

Definition reset_mode (modes : list Z) (private : bool) (s : MyScreen) : MyScreen :=
  let modes := if bool_decide (3 ∈ modes) then list_remove 3 modes else modes in
  let s :=
    match saved_cursor s with
    | Some c =>
        if bool_decide (1049 ∈ modes) then
          let s := with_base (set_cursor c) s in
          (* [saved_buffer] is set together with [saved_cursor] *)
          let s := with_base (set_buffer (default ∅ (saved_buffer s))) s in
          let s := {| base := base s; saved_cursor := None; saved_buffer := None |} in
          with_base dirty_all s
        else s
    | None => s
    end in
  with_base (pyte_reset_mode modes private) s.

Definition erase_in_display (how : Z) (private : bool) (s : MyScreen) : MyScreen :=
  if bool_decide (how = 3) then s
  else with_base (super_erase_in_display super how private) s.

(** [private] stands for the presence of the keyword argument. *)
Definition select_graphic_rendition (attrs : list Z) (private : bool)
    (s : MyScreen) : MyScreen :=
  if private then s
  else with_base (super_select_graphic_rendition super attrs) s.

Definition scroll_down (count : Z) (s : MyScreen) : MyScreen :=
  let count := if bool_decide (count = 0) then 1 else count in
  let '(top, bottom) := default (0, lines (base s) - 1) (margins (base s)) in
  let y := cursor_y (cursor (base s)) in
  let s := with_base (set_cursor_y top) s in
  let s := Nat.iter (Z.to_nat count) (with_base (super_reverse_index super)) s in
  with_base (set_cursor_y y) s.

Definition scroll_up (count : Z) (s : MyScreen) : MyScreen :=
  let count := if bool_decide (count = 0) then 1 else count in
  let '(top, bottom) := default (0, lines (base s) - 1) (margins (base s)) in
  let y := cursor_y (cursor (base s)) in
  let s := with_base (set_cursor_y bottom) s in
  let s := Nat.iter (Z.to_nat count) (with_base (super_index super)) s in
  with_base (set_cursor_y y) s.

(** The overrides that write to the speech buffer. *)

Definition tab (w : World) : World :=
  let w := if negb (State.silence (state w))
           then with_speech_buffer (StringIO.write [SPACE]) w else w in
  with_screen (with_base (super_tab super)) w.

Definition linefeed (w : World) : World :=
  let w := if line_pause (speech w) then sb w
           else with_speech_buffer (λ b, StringIO.write [SPACE] (StringIO.seek_end b)) w in
  with_screen (with_base (super_linefeed super)) w.

Definition backspace (w : World) : World :=
  let w := if bool_decide (cursor_x (cursor (base (screen w))) > 0)
              && bool_decide (0 < StringIO.tell (speech_buffer w))%nat
           then with_speech_buffer
                  (λ b, StringIO.seek (StringIO.tell b - 1) b) w
           else w in
  with_screen (with_base (super_backspace super)) w.

(** [pyte.Screen.draw] on one character, with its call of
    [self.linefeed()]. *)
Definition pyte_draw (text : list N) (w : World) : World :=
  let w := if bool_decide (cursor_x (cursor (base (screen w))) = columns (base (screen w)))
              && bool_decide (DECAWM ∈ mode (base (screen w)))
           then linefeed (with_screen (with_base (super_draw_wrap super)) w)
           else w in
  with_screen (with_base (super_draw_put super text)) w.

Definition draw2 (text : list N) : World → outcome :=
  λ w,
  let add_to_buffer := negb (bool_decide (text = lastkey w)) in
  ((λ w, if bool_decide (text = lastkey w) && bool_decide (length text = 1%nat)
              && key_echo (speech w)
         then say_character text w else Returns w)
   ;; total (λ w,
        let w := set_lastkey [] w in
        let w := if bool_decide (cursor_y (cursor (base (screen w)))
                                 = State.last_drawn_y (state w))
                    && bool_decide (cursor_x (cursor (base (screen w)))
                                    - State.last_drawn_x (state w) > 1)
                 then with_speech_buffer (StringIO.write [SPACE]) w else w in
        let w := pyte_draw text w in
        if add_to_buffer && negb (State.silence (state w))
           && negb (State.tempsilence (state w))
        then
          let w := with_speech_buffer (StringIO.write text) w in
          with_state (State.set_last_drawn (cursor_x (cursor (base (screen w))))
                                           (cursor_y (cursor (base (screen w))))) w
        else w))%cmd w.

(** [for c in text: self.draw2(c)] *)
Fixpoint draw (text : list N) : World → outcome :=
  match text with
  | [] => total id
  | c :: text' => (draw2 [c] ;; draw text')%cmd
  end.
End MyScreen.

(** ** Child output *)

(** What [pyte.Stream.feed] calls on the screen. *)
Inductive event :=
  | Draw (text : list N)
  | Tab
  | Linefeed
  | Backspace
  | SetMode (modes : list Z) (private : bool)
  | ResetMode (modes : list Z) (private : bool)
  | EraseInDisplay (how : Z) (private : bool)
  | SelectGraphicRendition (attrs : list Z) (private : bool)
  | SetMargins (top bottom : option Z)
  | ScrollUp (count : Z)
  | ScrollDown (count : Z)
  (** a method that [MyScreen] inherits as it is: cursor motion, erasing
      and inserting in a line, resizing and the like *)
  | Inherited (method : Screen → Screen).

Section Feed.
Variable super : Pyte.

Definition dispatch (e : event) : World → outcome :=
  match e with
  | Draw text => draw super text
  | Tab => total (tab super)
  | Linefeed => total (linefeed super)
  | Backspace => total (backspace super)
  | SetMode modes private => total (with_screen (set_mode super modes private))
  | ResetMode modes private => total (with_screen (reset_mode super modes private))
  | EraseInDisplay how private => total (with_screen (erase_in_display super how private))
  | SelectGraphicRendition attrs private =>
      total (with_screen (select_graphic_rendition super attrs private))
  | SetMargins top bottom => total (with_screen (set_margins super top bottom))
  | ScrollUp count => total (with_screen (scroll_up super count))
  | ScrollDown count => total (with_screen (scroll_down super count))
  | Inherited method => total (with_screen (with_base method))
  end.

Fixpoint feed (events : list event) : World → outcome :=
  match events with
  | [] => total id
  | e :: events' => (dispatch e ;; feed events')%cmd
  end.

(** [main], the lines that follow [stream.feed]: the cursor that the child
    moved takes the review cursor along, and the flush is scheduled.
    [x], [y] is the cursor before the feed. *)
Definition after_feed (now x y : Z) (w : World) : World :=
  let c := cursor (base (screen w)) in
  let w := if cursor_tracking (speech w)
              && (bool_decide (cursor_x c ≠ x) || bool_decide (cursor_y c ≠ y))
           then set_revy (cursor_y c) (set_revx (cursor_x c) w) else w in
  if negb (State.silence (state w)) && negb (State.tempsilence (state w)) then
    if bool_decide (0 < StringIO.tell (speech_buffer w))%nat
       && negb (State.delaying_output (state w))
    then schedule now 5000 read_buffer_scheduled_cb false w
    else w
  else w.

(** [main], one chunk of child output, up to [run_scheduled]. *)
Definition child_output (now : Z) (events : list event) (w : World) : outcome :=
  let c := cursor (base (screen w)) in
  (feed events ;; total (after_feed now (cursor_x c) (cursor_y c)))%cmd w.
End Feed.

(** ** The key dispatcher *)

Definition REPEAT_KEY_TIMEOUT : float := 0.5%float.

Module KeyHandler.
Definition PASSTHROUGH : Z := 1.
Definition REMOVE : Z := 2.

Section Handler.
(** The callables of a keymap, and what they and [os.write] act on. *)
Context {bound Env : Type}.
Variable invoke : bound → Env → option Z * Env.
Variable os_write : option Z → list N → Env → Env.

Record t := mk {
  keymap : gmap (list N) bound;
  fd : option Z;
  last_key : option (list N);
  last_key_time : float
}.

Definition init (keymap : gmap (list N) bound) (fd : option Z) : t :=
  mk keymap fd None 0%float.

Definition add (key : list N) (handler : bound) (h : t) : t :=
  if bool_decide (key ∉ dom (keymap h))
  then mk (<[key := handler]> (keymap h)) (fd h) (last_key h) (last_key_time h)
  else h.

Definition set_last_key (k : list N) (h : t) : t :=
  mk (keymap h) (fd h) (Some k) (last_key_time h).
Definition set_last_key_time (v : float) (h : t) : t :=
  mk (keymap h) (fd h) (last_key h) v.

(** [KeyHandler.handle_unknown_key]; the menus override it. *)
Definition handle_unknown_key (h : t) (data : list N) (env : Env) : option Z * Env :=
  (None, os_write (fd h) data env).

Section Process.
(** The method [handle_unknown_key] of the handler's class. *)
Variable self_handle_unknown_key : t → list N → Env → option Z * Env.

(** [now] is the reading of [time.monotonic()], a float; [key_delta] is
    their difference as Python computes it, rounded to the nearest float,
    and [<=] is the comparison of floats. *)
Definition process (now : float) (data : list N) (h : t) (env : Env)
    : t * option Z * Env :=
  let key_time := now in
  let key_delta := PrimFloat.sub key_time (last_key_time h) in
  let h := set_last_key_time key_time h in
  let repeat := data ++ data in
  if bool_decide (data ∉ dom (keymap h)) then
    let h := set_last_key data h in
    let '(result, env) := self_handle_unknown_key h data env in
    (h, result, env)
  else if bool_decide (last_key h = Some data) && bool_decide (repeat ∈ dom (keymap h))
          && PrimFloat.leb key_delta REPEAT_KEY_TIMEOUT then
    match keymap h !! repeat with
    | Some double =>
        let '(result, env) := invoke double env in
        (set_last_key data h, result, env)
    | None => (h, None, env)          (* not reached: [repeat] is a key *)
    end
  else
    match keymap h !! data with
    | Some single =>
        let '(result, env) := invoke single env in
        let env := if bool_decide (result = Some PASSTHROUGH)
                   then os_write (fd h) data env else env in
        (set_last_key data h, result, env)
    | None => (h, None, env)          (* not reached: [data] is a key *)
    end.
End Process.
End Handler.
Arguments t : clear implicits.
End KeyHandler.

(** ** The synth driver *)

(** ["%d" % n] *)
Definition str_of_Z (n : Z) : list N :=
  if bool_decide (n < 0) then u "-" ++ str_of_nat (Z.to_nat (- n))
  else str_of_nat (Z.to_nat n).

Module Synth.
(** [pipe] is the subprocess, named by its rank among the subprocesses
    that [start] has spawned. *)
Record t := mk {
  pipe : option nat;
  rate : option Z;
  volume : option Z;
  voice_idx : option Z
}.

(** [Synth.__init__] *)
Definition init : t := mk None None None None.

(** What the driver acts on: the subprocesses spawned so far, the writes
    attempted so far, and the texts that reached a subprocess. *)
Record Os := mkOs {
  spawned : nat;
  attempts : nat;
  received : list (nat * list N)
}.

Inductive error := BrokenPipeError | AttributeError | RecursionError.
Inductive result :=
  | Ok (s : t) (os : Os)
  | Raise (e : error) (s : t) (os : Os).

Section Driver.
(** Whether the write numbered [n], counting every [write]-and-[flush] of
    the session, meets a pipe whose reader is gone. *)
Variable broken : nat → bool.

(** [self.pipe.stdin.write(text); self.pipe.stdin.flush()] *)
Definition write (text : list N) (s : t) (os : Os) : result :=
  match pipe s with
  | None => Raise AttributeError s os
  | Some p =>
      if broken (attempts os)
      then Raise BrokenPipeError s (mkOs (spawned os) (S (attempts os)) (received os))
      else Ok s (mkOs (spawned os) (S (attempts os)) (received os ++ [(p, text)]))
  end.

Definition bind (r : result) (k : t → Os → result) : result :=
  match r with
  | Ok s os => k s os
  | Raise e s os => Raise e s os
  end.

(** [start], [set_rate], [set_volume] and [set_voice_idx], over the
    [send] they call. *)
Section Over.
Variable send : list N → t → Os → result.

Definition set_rate (rate : Z) (s : t) (os : Os) : result :=
  send (u "r" ++ str_of_Z rate ++ [10%N])
       (mk (pipe s) (Some rate) (volume s) (voice_idx s)) os.
Definition set_volume (volume : Z) (s : t) (os : Os) : result :=
  send (u "v" ++ str_of_Z volume ++ [10%N])
       (mk (pipe s) (rate s) (Some volume) (voice_idx s)) os.
Definition set_voice_idx (voice_idx : Z) (s : t) (os : Os) : result :=
  send (u "V" ++ str_of_Z voice_idx ++ [10%N])
       (mk (pipe s) (rate s) (volume s) (Some voice_idx)) os.

Definition start (s : t) (os : Os) : result :=
  let r := Ok (mk (Some (spawned os)) (rate s) (volume s) (voice_idx s))
              (mkOs (S (spawned os)) (attempts os) (received os)) in
  let r := bind r (λ s os, match rate s with
                           | Some v => set_rate v s os | None => Ok s os end) in
  let r := bind r (λ s os, match volume s with
                           | Some v => set_volume v s os | None => Ok s os end) in
  bind r (λ s os, match voice_idx s with
                  | Some v => set_voice_idx v s os | None => Ok s os end).
End Over.

(** [send], with the number of nested calls of [send] that the
    interpreter still allows. *)
Fixpoint send (depth : nat) (text : list N) (s : t) (os : Os) : result :=
  match depth with
  | O => Raise RecursionError s os
  | S depth' =>
      match write text s os with
      | Raise BrokenPipeError s os =>
          match bind (start (send depth') s os) (write text) with
          | Raise BrokenPipeError s os => Ok s os
          | r => r
          end
      | r => r
      end
  end.
End Driver.
End Synth.

(** ** Concrete sessions, for the examples *)

(** The defaults of [State.__init__]. *)
Definition default_config : Config :=
  {| process_symbols := false; key_echo := true; cursor_tracking := true;
     line_pause := true; repeated_symbols := false;
     repeated_symbols_values := u "-=!#"; symbols := ∅ |}.

(** [MyScreen(cols, rows)], empty. *)
Definition new_screen (cols rows : Z) : MyScreen :=
  {| base := {| columns := cols; lines := rows;
                cursor := {| cursor_x := 0; cursor_y := 0;
                             cursor_attrs := default_char; hidden := false |};
                buffer := ∅;
                mode := {[DECAWM; DECTCEM]};
                dirty := list_to_set (seqZ 0 rows);
                margins := None |};
     saved_cursor := None; saved_buffer := None |}.

Definition startup (c : Config) (cols rows : Z) : World :=
  {| state := State.init c; speech_buffer := StringIO.empty; lastkey := [];
     screen := new_screen cols rows; sent := []; CURSOR_TIMEOUT := 20000 |}.

(** One narrow character per cell. *)
Definition put (y x : nat) (text : list N) (b : gmap nat (gmap nat Char))
    : gmap nat (gmap nat Char) :=
  <[y := <[x := {| data := text; fg := fg default_char; bg := bg default_char;
                   bold := false; italics := false; underscore := false;
                   strikethrough := false; reverse_video := false; blink := false |}]>
           (default ∅ (b !! y))]> b.

Definition with_buffer (b : gmap nat (gmap nat Char)) (w : World) : World :=
  with_screen (with_base (set_buffer b)) w.

(** A terminal of narrow characters that neither scrolls nor tabs, standing
    for pyte where an example has to run the emulator. *)
Definition plain_terminal : Pyte :=
  let move (f : Cursor → Z * Z) (s : Screen) : Screen :=
    set_cursor {| cursor_x := fst (f (cursor s)); cursor_y := snd (f (cursor s));
                  cursor_attrs := cursor_attrs (cursor s);
                  hidden := hidden (cursor s) |} s in
  {| super_draw_wrap := move (λ c, (0, cursor_y c));
     super_draw_put := λ text s,
       move (λ c, (Z.min (cursor_x c + 1) (columns s), cursor_y c))
            (set_buffer (put (Z.to_nat (cursor_y (cursor s)))
                             (Z.to_nat (cursor_x (cursor s))) text (buffer s)) s);
     super_tab := id;
     super_linefeed := λ s, move (λ c, (cursor_x c, Z.min (cursor_y c + 1) (lines s - 1))) s;
     super_backspace := move (λ c, (Z.max (cursor_x c - 1) 0, cursor_y c));
     super_cursor_position := move (λ _, (0, 0));
     super_index := λ s, move (λ c, (cursor_x c, Z.min (cursor_y c + 1) (lines s - 1))) s;
     super_reverse_index := move (λ c, (cursor_x c, Z.max (cursor_y c - 1) 0));
     super_erase_in_display := λ how _ s, if bool_decide (how = 2) then set_buffer ∅ s else s;
     super_select_graphic_rendition := λ _, id;
     super_set_margins := λ _ _, id;
     super_deccolm := λ _, id;
     super_decscnm := λ _, id |}.

(** * Properties *)

(** ** The embedding at work *)

(** [hello world  x] on the first row of a 20 by 3 screen. *)
Definition hello_world : World :=
  with_buffer
    (foldr (λ '(x, c), put 0 x [c]) ∅ (zip (seq 0 14) (u "hello world  x")))
    (startup default_config 20 3).

Example strip_example : strip (u "  ab c ") = u "ab c".
Proof. reflexivity. Qed.

Example str_of_nat_example : str_of_nat 120 = u "120" ∧ str_of_Z (-7) = u "-7".
Proof. split; reflexivity. Qed.

Example replace_first_example :
  replace_first (u "--") (u "2 -") (u "a--b--") = u "a2 -b--".
Proof. reflexivity. Qed.

Example finditer_example :
  finditer (u "-=!#") (u "a---b--c-d====")
  = [(45, 3%nat); (45, 2%nat); (45, 1%nat); (61, 4%nat)]%N.
Proof. reflexivity. Qed.

Example sayline_example :
  sent (sayline 0 hello_world) = [u "shello world  x" ++ [10%N]]
  ∧ sent (sayline 1 hello_world) = [u "sblank" ++ [10%N]].
Proof. split; vm_compute; reflexivity. Qed.

Example sayword_example :
  sent (sayword false (set_revx 8 hello_world)) = [u "sworld" ++ [10%N]]
  ∧ sent (sayword true (set_revx 8 hello_world)) = [u "sw o r l d" ++ [10%N]]
  ∧ sent (sayword false (with_buffer ∅ hello_world)) = [u "sspace" ++ [10%N]].
Proof. repeat split; vm_compute; reflexivity. Qed.

Example prevword_nextword_example :
  revx (prevword (set_revx 13 hello_world)) = 6
  ∧ revx (prevword (set_revx 8 hello_world)) = 0
  ∧ revx (nextword (set_revx 1 hello_world)) = 6
  ∧ sent (nextword (set_revx 13 hello_world)) = [u "sright" ++ [10%N]; u "sx" ++ [10%N]].
Proof. repeat split; vm_compute; reflexivity. Qed.

Example saychar_example :
  sent (final (saychar 0 0 true hello_world)) = [u "shotel" ++ [10%N]]
  ∧ sent (final (saychar 0 0 false hello_world)) = [u "lh" ++ [10%N]]
  ∧ sent (final (prevchar hello_world)) = [u "sleft" ++ [10%N]; u "lh" ++ [10%N]].
Proof. repeat split; vm_compute; reflexivity. Qed.

(** [line_pause] on: [hello], a line feed and [world] are spoken as two
    texts once the pending flush has run. *)
Example line_pause_example :
  let w := final (child_output plain_terminal 0
                    [Draw (u "hello"); Linefeed; Draw (u "world"); Linefeed]
                    (startup default_config 80 24)) in
  sent w = [u "shello" ++ [10%N]; u "sworld" ++ [10%N]].
Proof. vm_compute. reflexivity. Qed.

(** The echo of the key just typed is spoken as a character and kept out of
    the speech buffer. *)
Example key_echo_example :
  let w := final (draw plain_terminal (u "ab")
                    (set_lastkey (u "a") (startup default_config 80 24))) in
  sent w = [u "la" ++ [10%N]] ∧ StringIO.getvalue (speech_buffer w) = u "b".
Proof. split; vm_compute; reflexivity. Qed.

Example run_scheduled_example :
  let w := schedule 0 5000 read_buffer_scheduled_cb false
             (with_speech_buffer (StringIO.write (u "ok")) (startup default_config 80 24)) in
  State.delayed_functions (state (final (run_scheduled 4999 w)))
  = [(5000, read_buffer_scheduled_cb)]
  ∧ State.delayed_functions (state (final (run_scheduled 5000 w))) = []
  ∧ sent (final (run_scheduled 5000 w)) = [u "sok" ++ [10%N]].
Proof. repeat split; vm_compute; reflexivity. Qed.

(** ** The scheduler *)

(** The earliest deadline among pending calls. *)
Definition earliest_deadline (pending : list (Z * callback)) : option Z :=
  match pending with
  | [] => None
  | (t, _) :: rest => Some (foldr Z.min t (fst <$> rest))
  end.

(** The deadlines never decrease along the list. *)
Fixpoint in_deadline_order (pending : list (Z * callback)) : Prop :=
  match pending with
  | [] => True
  | (t, _) :: rest => Forall (λ p, t ≤ fst p) rest ∧ in_deadline_order rest
  end.

Lemma earliest_deadline_head t f rest :
  Forall (λ p, t ≤ fst p) rest → earliest_deadline ((t, f) :: rest) = Some t.
Proof.
  intros H. unfold earliest_deadline. f_equal.
  induction H as [|p rest Hp _ IH]; [done|].
  rewrite fmap_cons. cbn [foldr]. rewrite IH. lia.
Qed.

Lemma earliest_deadline_least pending d :
  earliest_deadline pending = Some d → Forall (λ p, d ≤ fst p) pending.
Proof.
  destruct pending as [|[t f] rest]; simpl; [done|].
  intros [= <-]. constructor; cbn [fst].
  - induction rest as [|p rest IH]; [done|].
    rewrite fmap_cons. cbn [foldr]. lia.
  - induction rest as [|p rest IH]; [constructor|].
    rewrite fmap_cons. cbn [foldr]. constructor; [lia|].
    eapply Forall_impl; [exact IH|]. cbn beta. intros. lia.
Qed.

(** What the code reads: the answer is taken from the first pending call,
    the one scheduled longest ago, and there is no bound when nothing is
    pending.  The first call carries the earliest deadline when the
    deadlines stand in the order of the list. *)
Theorem time_until_next_delayed_first (now : Z) (w : World) :
  match State.delayed_functions (state w) with
  | [] => time_until_next_delayed now w = None
  | (d, f) :: rest =>
      time_until_next_delayed now w = Some (Z.max 0 (d - now))
      ∧ (in_deadline_order ((d, f) :: rest)
         → earliest_deadline ((d, f) :: rest) = Some d)
  end.
Proof.
  unfold time_until_next_delayed.
  destruct (State.delayed_functions (state w)) as [|[d f] rest]; [done|].
  split; [done|]. intros [H _]. by apply earliest_deadline_head.
Qed.

(** A list out of order, built by hand: after [schedule(0.02, ..., True)]
    and [schedule(0.005, ...)] at the same instant, the earliest deadline
    is 5 ms away and [time_until_next_delayed] answers 20 ms.  [main] never
    makes these two calls in a row: the first raises [tempsilence], under
    which it does not make the second. *)
Lemma time_until_next_delayed_not_earliest :
  let w := schedule 0 5000 read_buffer_scheduled_cb false
             (schedule 0 20000 sayline_at_cursor true (startup default_config 80 24)) in
  time_until_next_delayed 0 w = Some 20000
  ∧ (λ d, Z.max 0 (d - 0)) <$> earliest_deadline (State.delayed_functions (state w))
    = Some 5000.
Proof. split; reflexivity. Qed.

(** [schedule] keeps the order when the new deadline is not before the
    pending ones. *)
Lemma schedule_in_deadline_order now timeout f ts w :
  in_deadline_order (State.delayed_functions (state w)) →
  Forall (λ p, fst p ≤ now + timeout) (State.delayed_functions (state w)) →
  in_deadline_order (State.delayed_functions (state (schedule now timeout f ts w))).
Proof.
  unfold schedule. intros Hord Hle.
  assert (in_deadline_order (State.delayed_functions (state w) ++ [(now + timeout, f)])) as H.
  { induction (State.delayed_functions (state w)) as [|[t g] rest IH]; simpl.
    - split; [constructor | done].
    - destruct Hord as [Hh Hr]. inversion Hle as [|?? Ht Hle']; subst. split.
      + apply Forall_app. split; [done|]. constructor; [exact Ht | constructor].
      + by apply IH. }
  by destruct ts.
Qed.

(** ** Speech gating *)

(** C10: a flush under [tempsilence] sends nothing and empties the buffer,
    so that no later flush finds the text. *)
Theorem sb_tempsilence_discards (w : World) :
  State.tempsilence (state w) = true →
  StringIO.getvalue (speech_buffer w) ≠ [] →
  sent (sb w) = sent w
  ∧ speech_buffer (sb w) = StringIO.empty
  ∧ ∀ w', speech_buffer w' = speech_buffer (sb w) → sent (sb w') = sent w'.
Proof.
  intros Hts Hne.
  assert (sb w = with_speech_buffer (StringIO.seek 0)
                   (with_speech_buffer StringIO.truncate0 w)) as ->.
  { unfold sb. rewrite bool_decide_eq_false_2 by done. simpl. by rewrite Hts. }
  split; [done|]. split; [done|].
  intros w' Hw'. unfold sb. by rewrite Hw'.
Qed.

Lemma sb_tempsilence_discards_witness :
  let w := with_speech_buffer (StringIO.write (u "abc"))
             (schedule 0 20000 sayline_at_cursor true (startup default_config 80 24)) in
  sent (sb w) = sent w
  ∧ speech_buffer (sb w) = StringIO.empty
  ∧ ∀ w', speech_buffer w' = speech_buffer (sb w) → sent (sb w') = sent w'.
Proof.
  apply (sb_tempsilence_discards
           (with_speech_buffer (StringIO.write (u "abc"))
              (schedule 0 20000 sayline_at_cursor true (startup default_config 80 24)))).
  - reflexivity.
  - vm_compute. discriminate.
Defined.

(** A flush always leaves the buffer empty. *)
Lemma sb_empties (w : World) : speech_buffer (sb w) = StringIO.empty.
Proof.
  unfold sb. case_bool_decide; [done|].
  by destruct (negb _).
Qed.

(** [after_feed] never sets [delaying_output]. *)
Lemma after_feed_delaying_output now x y w :
  State.delaying_output (state (after_feed now x y w)) = State.delaying_output (state w).
Proof.
  unfold after_feed, schedule.
  repeat (match goal with |- context [if ?b then _ else _] => destruct b end; simpl); done.
Qed.

(** With speech allowed, text in the buffer and the flag down, [after_feed]
    appends a flush 5 ms ahead. *)
Lemma after_feed_schedules now x y w :
  State.silence (state w) = false →
  State.tempsilence (state w) = false →
  (0 < StringIO.tell (speech_buffer w))%nat →
  State.delaying_output (state w) = false →
  State.delayed_functions (state (after_feed now x y w))
  = State.delayed_functions (state w) ++ [(now + 5000, read_buffer_scheduled_cb)].
Proof.
  intros Hs Ht Hb Hd. unfold after_feed.
  destruct (cursor_tracking (speech w) && _); simpl;
    rewrite Hs, Ht, Hd; simpl; by rewrite bool_decide_eq_true_2.
Qed.

(** C1, on the code: the child writes [a] and, one millisecond later, [b].
    The first chunk schedules the flush for 5 ms; it is still pending when
    the second chunk arrives, and a second flush is scheduled for 6 ms:
    nothing raises [delaying_output]. *)
Theorem second_flush_scheduled_while_pending :
  let w0 := startup default_config 80 24 in
  let w1 := final (child_output plain_terminal 0 [Draw (u "a")] w0) in
  let w1' := final (run_scheduled 0 w1) in
  let w2 := final (child_output plain_terminal 1000 [Draw (u "b")] w1') in
  State.delayed_functions (state w1') = [(5000, read_buffer_scheduled_cb)]
  ∧ State.delaying_output (state w1') = false
  ∧ StringIO.getvalue (speech_buffer w2) = u "ab"
  ∧ State.delayed_functions (state w2)
    = [(5000, read_buffer_scheduled_cb); (6000, read_buffer_scheduled_cb)].
Proof. vm_compute. done. Qed.

(** ** What speaking leaves alone *)

Lemma say_frame data force w :
  state (say data force w) = state w ∧ screen (say data force w) = screen w
  ∧ lastkey (say data force w) = lastkey w
  ∧ speech_buffer (say data force w) = speech_buffer w.
Proof. done. Qed.

Lemma sb_frame w :
  state (sb w) = state w ∧ screen (sb w) = screen w ∧ lastkey (sb w) = lastkey w.
Proof.
  unfold sb. case_bool_decide; [done|]. by destruct (negb _).
Qed.

Lemma sayline_frame y w :
  state (sayline y w) = state w ∧ screen (sayline y w) = screen w.
Proof. done. Qed.

Lemma say_character_frame ch w :
  state (final (say_character ch w)) = state w
  ∧ screen (final (say_character ch w)) = screen w
  ∧ lastkey (final (say_character ch w)) = lastkey w
  ∧ speech_buffer (final (say_character ch w)) = speech_buffer w.
Proof.
  unfold say_character. case_bool_decide; simpl.
  - by destruct (symbols (speech w) !! SPACE).
  - destruct ch as [|c [|c' ch]]; [done| |done].
    by destruct (symbols (speech w) !! c).
Qed.

Lemma say_character_returns c w : ∃ w', say_character [c] w = Returns w'.
Proof.
  unfold say_character. rewrite bool_decide_eq_false_2 by done.
  destruct (symbols (speech w) !! c); eauto.
Qed.

Lemma saychar_frame y x ph w :
  state (final (saychar y x ph w)) = state w
  ∧ screen (final (saychar y x ph w)) = screen w.
Proof.
  unfold saychar.
  destruct (_ ≫= _); [done|].
  by destruct (say_character_frame (get_data w y x) w) as (? & ? & _).
Qed.

(** ** The emulator hooks *)

Section Hooks.
Variable super : Pyte.

Lemma linefeed_frame w :
  lastkey (linefeed super w) = lastkey w
  ∧ saved_cursor (screen (linefeed super w)) = saved_cursor (screen w)
  ∧ saved_buffer (screen (linefeed super w)) = saved_buffer (screen w).
Proof.
  unfold linefeed. destruct (line_pause (speech w)); [|done].
  cbn [lastkey with_screen screen saved_cursor saved_buffer with_base].
  by destruct (sb_frame w) as (_ & -> & ->).
Qed.

Lemma pyte_draw_frame text w :
  lastkey (pyte_draw super text w) = lastkey w
  ∧ saved_cursor (screen (pyte_draw super text w)) = saved_cursor (screen w)
  ∧ saved_buffer (screen (pyte_draw super text w)) = saved_buffer (screen w).
Proof.
  unfold pyte_draw. destruct (_ && _); [|done].
  cbn [lastkey with_screen screen saved_cursor saved_buffer with_base].
  by destruct (linefeed_frame (with_screen (with_base (super_draw_wrap super)) w))
    as (-> & -> & ->).
Qed.

(** [draw2] returns, with [lastkey] empty and the saved alternate as it
    was. *)
Lemma draw2_returns text w :
  ∃ w', draw2 super text w = Returns w' ∧ lastkey w' = []
        ∧ saved_cursor (screen w') = saved_cursor (screen w)
        ∧ saved_buffer (screen w') = saved_buffer (screen w).
Proof.
  unfold draw2, andthen, total.
  set (echo := bool_decide (text = lastkey w) && bool_decide (length text = 1%nat)
               && key_echo (speech w)).
  assert (∃ w1, (if echo then say_character text w else Returns w) = Returns w1
                ∧ screen w1 = screen w) as (w1 & -> & Hscr).
  { destruct echo eqn:He; [|eauto]. subst echo.
    apply andb_true_iff in He as [He _]. apply andb_true_iff in He as [_ He].
    apply bool_decide_eq_true in He.
    destruct text as [|c [|c' text]]; try discriminate.
    destruct (say_character_returns c w) as [w1 Hw1]. exists w1. split; [done|].
    destruct (say_character_frame [c] w) as (_ & H & _). by rewrite Hw1 in H. }
  clear echo. eexists. split; [reflexivity|]. rewrite <- Hscr.
  set (w2 := if bool_decide (cursor_y _ = _) && _ then _ else set_lastkey [] w1).
  assert (lastkey w2 = [] ∧ screen w2 = screen w1) as [Hk Hs].
  { subst w2. by destruct (_ && _). }
  destruct (pyte_draw_frame text w2) as (Hk' & Hc & Hb).
  rewrite <- Hs, <- Hc, <- Hb, <- Hk, <- Hk'.
  by destruct (_ && _ && _).
Qed.

Lemma draw_returns text w :
  ∃ w', draw super text w = Returns w'
        ∧ lastkey w' = (if bool_decide (text = []) then lastkey w else [])
        ∧ saved_cursor (screen w') = saved_cursor (screen w)
        ∧ saved_buffer (screen w') = saved_buffer (screen w).
Proof.
  revert w. induction text as [|c text IH]; intros w; [by eexists|].
  simpl. unfold andthen.
  destruct (draw2_returns [c] w) as (w1 & -> & Hk & Hc & Hb).
  destruct (IH w1) as (w2 & -> & Hk2 & Hc2 & Hb2).
  exists w2. split; [done|]. rewrite Hc2, Hb2, Hk2, Hk. split; [|done].
  by case_bool_decide.
Qed.

(** An event of the stream other than setting or resetting mode 1049. *)
Definition not_1049 (e : event) : Prop :=
  match e with
  | SetMode modes _ | ResetMode modes _ => 1049 ∉ modes
  | _ => True
  end.

(** An event that draws at least one character. *)
Definition draws (e : event) : Prop :=
  match e with
  | Draw (_ :: _) => True
  | _ => False
  end.

Lemma elem_of_list_remove_ne {A} `{EqDecision A} (x y : A) l :
  x ≠ y → y ∈ list_remove x l ↔ y ∈ l.
Proof.
  intros Hne. induction l as [|a l IH]; simpl; [done|].
  destruct (decide (x = a)) as [<-|].
  - rewrite elem_of_cons. intuition congruence.
  - by rewrite !elem_of_cons, IH.
Qed.

Lemma set_mode_saved modes private s :
  1049 ∉ modes →
  saved_cursor (set_mode super modes private s) = saved_cursor s
  ∧ saved_buffer (set_mode super modes private s) = saved_buffer s.
Proof.
  intros H. unfold set_mode. rewrite (bool_decide_eq_false_2 (1049 ∈ _)); [done|].
  case_bool_decide; [|done]. by rewrite elem_of_list_remove_ne.
Qed.

Lemma reset_mode_saved modes private s :
  1049 ∉ modes →
  saved_cursor (reset_mode super modes private s) = saved_cursor s
  ∧ saved_buffer (reset_mode super modes private s) = saved_buffer s.
Proof.
  intros H. unfold reset_mode.
  destruct (saved_cursor s) as [c|] eqn:Hc; [|done].
  rewrite (bool_decide_eq_false_2 (1049 ∈ _)); [done|].
  case_bool_decide; [|done]. by rewrite elem_of_list_remove_ne.
Qed.

Lemma iter_with_base_saved n f s :
  saved_cursor (Nat.iter n (with_base f) s) = saved_cursor s
  ∧ saved_buffer (Nat.iter n (with_base f) s) = saved_buffer s.
Proof. induction n as [|n IH]; [done|]. simpl. exact IH. Qed.

Lemma tab_frame w :
  lastkey (tab super w) = lastkey w
  ∧ saved_cursor (screen (tab super w)) = saved_cursor (screen w)
  ∧ saved_buffer (screen (tab super w)) = saved_buffer (screen w).
Proof. unfold tab. by destruct (negb _). Qed.

Lemma backspace_frame w :
  lastkey (backspace super w) = lastkey w
  ∧ saved_cursor (screen (backspace super w)) = saved_cursor (screen w)
  ∧ saved_buffer (screen (backspace super w)) = saved_buffer (screen w).
Proof. unfold backspace. by destruct (_ && _). Qed.

Lemma dispatch_returns e w :
  ∃ w', dispatch super e w = Returns w'
        ∧ (draws e → lastkey w' = [])
        ∧ (lastkey w = [] → lastkey w' = [])
        ∧ (not_1049 e →
           saved_cursor (screen w') = saved_cursor (screen w)
           ∧ saved_buffer (screen w') = saved_buffer (screen w)).
Proof.
  destruct e as [text| | | |modes p|modes p|how p|attrs p|top bottom|n|n|f];
    cbn [dispatch draws not_1049];
    try (unfold total; eexists; split; [reflexivity|]; split; [done|]).
  - destruct (draw_returns text w) as (w' & -> & Hk & Hc & Hb).
    exists w'. split; [done|]. rewrite Hk. split; [|split; [|done]].
    + by destruct text.
    + intros ->. by case_bool_decide.
  - destruct (tab_frame w) as (-> & ? & ?). done.
  - destruct (linefeed_frame w) as (-> & ? & ?). done.
  - destruct (backspace_frame w) as (-> & ? & ?). done.
  - split; [done|]. by apply set_mode_saved.
  - split; [done|]. by apply reset_mode_saved.
  - split; [done|]. intros _. unfold erase_in_display. cbn [screen with_screen].
    by case_bool_decide.
  - split; [done|]. intros _. unfold select_graphic_rendition. by destruct p.
  - done.
  - split; [done|]. intros _. unfold scroll_up. cbn [screen with_screen].
    destruct (default _ _) as [t b]. cbn [saved_cursor saved_buffer with_base].
    by rewrite !(proj1 (iter_with_base_saved _ _ _)), !(proj2 (iter_with_base_saved _ _ _)).
  - split; [done|]. intros _. unfold scroll_down. cbn [screen with_screen].
    destruct (default _ _) as [t b]. cbn [saved_cursor saved_buffer with_base].
    by rewrite !(proj1 (iter_with_base_saved _ _ _)), !(proj2 (iter_with_base_saved _ _ _)).
  - done.
Qed.

Lemma feed_returns events w :
  ∃ w', feed super events w = Returns w'
        ∧ (Exists draws events → lastkey w' = [])
        ∧ (lastkey w = [] → lastkey w' = [])
        ∧ (Forall not_1049 events →
           saved_cursor (screen w') = saved_cursor (screen w)
           ∧ saved_buffer (screen w') = saved_buffer (screen w)).
Proof.
  revert w. induction events as [|e events IH]; intros w.
  - exists w. split; [done|]. split; [|done]. by intros ?%Exists_nil.
  - simpl. unfold andthen.
    destruct (dispatch_returns e w) as (w1 & -> & Hd & Hk & Hs).
    destruct (IH w1) as (w2 & -> & Hd2 & Hk2 & Hs2).
    exists w2. split; [done|]. split; [|split].
    + intros [?|?]%Exists_cons; auto.
    + auto.
    + intros [? ?]%Forall_cons. destruct Hs as [<- <-]; [done|]. auto.
Qed.

Lemma feed_app events1 events2 w :
  feed super (events1 ++ events2) w
  = (feed super events1 ;; feed super events2)%cmd w.
Proof.
  revert w. induction events1 as [|e events1 IH]; intros w; [done|].
  simpl. unfold andthen. destruct (dispatch super e w); [apply IH|done].
Qed.
End Hooks.

Lemma pyte_draw_state super text w :
  state (pyte_draw super text w) = state w
  ∧ ∃ f, speech_buffer (pyte_draw super text w) = f (speech_buffer w).
Proof.
  unfold pyte_draw. destruct (_ && _).
  - unfold linefeed. destruct (line_pause _).
    + cbn [state with_screen speech_buffer].
      destruct (sb_frame (with_screen (with_base (super_draw_wrap super)) w)) as (-> & _).
      split; [done|]. exists (λ _, StringIO.empty). apply sb_empties.
    + split; [done|]. by eexists (λ b, StringIO.write [SPACE] (StringIO.seek_end b)).
  - split; [done|]. by exists id.
Qed.

(** C9: every [draw2] returns with [lastkey] empty, whatever the text and
    whether or not it matched.  Hence, once a burst of child output has
    drawn a character, in an earlier event or earlier in the same [draw],
    [lastkey] is empty and the character drawn next does not equal it: with
    speech allowed, the hook writes that character to the speech buffer. *)
Theorem draw_clears_lastkey (super : Pyte) :
  (∀ text w, ∃ w', draw2 super text w = Returns w' ∧ lastkey w' = [])
  ∧ (∀ events text c w, Exists draws events ∨ text ≠ [] →
       ∃ w', (feed super events ;; draw super text)%cmd w = Returns w'
             ∧ lastkey w' = [] ∧ [c] ≠ lastkey w')
  ∧ (∀ text w, text ≠ lastkey w →
       State.silence (state w) = false → State.tempsilence (state w) = false →
       ∃ w' b, draw2 super text w = Returns w'
               ∧ speech_buffer w' = StringIO.write text b).
Proof.
  split; [|split].
  - intros text w. destruct (draw2_returns super text w) as (w' & ? & ? & _). eauto.
  - intros events text c w Hd. unfold andthen.
    destruct (feed_returns super events w) as (w1 & -> & Hk & _).
    destruct (draw_returns super text w1) as (w2 & -> & Hk2 & _).
    exists w2. split; [done|].
    assert (lastkey w2 = []) as ->; [|done].
    rewrite Hk2. case_bool_decide as Ht; [|done].
    destruct Hd as [Hd|Hd]; [by apply Hk|done].
  - intros text w Hne Hs Ht. unfold draw2, andthen, total.
    rewrite (bool_decide_eq_false_2 (text = lastkey w)) by done. cbn [andb negb].
    set (w2 := if bool_decide (cursor_y _ = _) && _ then _ else set_lastkey [] w).
    assert (state w2 = state w) as Hst by (subst w2; by destruct (_ && _)).
    destruct (pyte_draw_state super text w2) as (Hst' & _).
    rewrite Hst', Hst, Hs, Ht. cbn [andb negb].
    by eexists _, _.
Qed.

(** ** The alternate screen *)

Lemma pyte_reset_mode_1049 super private s :
  cursor (pyte_reset_mode super [1049] private s) = cursor s
  ∧ buffer (pyte_reset_mode super [1049] private s) = buffer s.
Proof. by destruct private. Qed.

Lemma set_mode_1049_saves super private s :
  saved_cursor (set_mode super [1049] private s) = Some (cursor (base s))
  ∧ saved_buffer (set_mode super [1049] private s) = Some (buffer (base s)).
Proof. done. Qed.

Lemma reset_mode_1049_restores super private s c b :
  saved_cursor s = Some c → saved_buffer s = Some b →
  cursor (base (reset_mode super [1049] private s)) = c
  ∧ buffer (base (reset_mode super [1049] private s)) = b.
Proof.
  intros Hc Hb. unfold reset_mode. rewrite Hc.
  rewrite (bool_decide_eq_false_2 (3 ∈ _)) by by intros [=]%list_elem_of_singleton.
  rewrite (bool_decide_eq_true_2 (1049 ∈ _)) by by apply list_elem_of_singleton.
  cbn [base with_base saved_buffer]. rewrite Hb. change (default ∅ (Some b)) with b.
  by destruct (pyte_reset_mode_1049 super private
                 (dirty_all (set_buffer b (set_cursor c (base s))))) as [-> ->].
Qed.

(** C6: between [set_mode(1049)] and the next [reset_mode(1049)], whatever
    the stream draws, erases, scrolls or switches, as long as it neither sets
    nor resets mode 1049, the reset gives back the cursor and the buffer that
    the set found; and a [reset_mode(1049)] without a saved screen changes
    neither. *)
Theorem alternate_screen_restores (super : Pyte) (w : World) :
  (∀ events p1 p2, Forall not_1049 events →
     ∃ w', feed super (SetMode [1049] p1 :: events ++ [ResetMode [1049] p2]) w = Returns w'
           ∧ cursor (base (screen w')) = cursor (base (screen w))
           ∧ buffer (base (screen w')) = buffer (base (screen w)))
  ∧ (∀ p, saved_cursor (screen w) = None →
       cursor (base (reset_mode super [1049] p (screen w))) = cursor (base (screen w))
       ∧ buffer (base (reset_mode super [1049] p (screen w))) = buffer (base (screen w))).
Proof.
  split.
  - intros events p1 p2 Hev.
    cbn [feed dispatch]. unfold andthen at 1. unfold total at 1.
    rewrite feed_app. unfold andthen.
    set (w1 := with_screen (set_mode super [1049] p1) w).
    destruct (feed_returns super events w1) as (w2 & -> & _ & _ & Hs).
    destruct (Hs Hev) as [Hc Hb].
    cbn [feed dispatch]. unfold andthen, total. eexists. split; [reflexivity|].
    cbn [id screen with_screen].
    apply reset_mode_1049_restores.
    + rewrite Hc. subst w1. apply set_mode_1049_saves.
    + rewrite Hb. subst w1. apply set_mode_1049_saves.
  - intros p Hnone. unfold reset_mode. rewrite Hnone.
    rewrite (bool_decide_eq_false_2 (3 ∈ _)) by by intros [=]%list_elem_of_singleton.
    apply pyte_reset_mode_1049.
Qed.

Lemma alternate_screen_restores_witness :
  let w := with_buffer (put 0 0 (u "$") ∅) (startup default_config 80 24) in
  let events := [Draw (u "vi"); Linefeed; EraseInDisplay 2 false; ScrollUp 0;
                 SetMode [25] true; Inherited (set_cursor_y 5)] in
  Forall not_1049 events
  ∧ ∃ w', feed plain_terminal (SetMode [1049] true :: events ++ [ResetMode [1049] true]) w
          = Returns w'
          ∧ cursor (base (screen w')) = cursor (base (screen w))
          ∧ buffer (base (screen w')) = buffer (base (screen w)).
Proof.
  assert (Forall not_1049 [Draw (u "vi"); Linefeed; EraseInDisplay 2 false; ScrollUp 0;
                           SetMode [25] true; Inherited (set_cursor_y 5)]) as H.
  { repeat constructor. simpl. by intros [=]%list_elem_of_singleton. }
  split; [exact H|].
  exact (proj1 (alternate_screen_restores plain_terminal
                  (with_buffer (put 0 0 (u "$") ∅) (startup default_config 80 24)))
               _ true true H).
Defined.

(** ** The key dispatcher *)

Section Dispatch.
Context {bound Env : Type}.
Variable invoke : bound → Env → option Z * Env.
Variable os_write : option Z → list N → Env → Env.
Variable self_handle_unknown_key :
  KeyHandler.t bound → list N → Env → option Z * Env.

Abbreviation process := (KeyHandler.process invoke os_write self_handle_unknown_key).

(** What [process] answers when it invokes [f] as the double binding and
    as the single binding of [data]. *)
Definition invoked_double (f : bound) (now : float) (data : list N)
    (h : KeyHandler.t bound) (env : Env) : KeyHandler.t bound * option Z * Env :=
  (KeyHandler.set_last_key data (KeyHandler.set_last_key_time now h),
   (invoke f env).1, (invoke f env).2).

Definition invoked_single (f : bound) (now : float) (data : list N)
    (h : KeyHandler.t bound) (env : Env) : KeyHandler.t bound * option Z * Env :=
  (KeyHandler.set_last_key data (KeyHandler.set_last_key_time now h),
   (invoke f env).1,
   if bool_decide ((invoke f env).1 = Some KeyHandler.PASSTHROUGH)
   then os_write (KeyHandler.fd h) data (invoke f env).2
   else (invoke f env).2).

Lemma process_double now data h env single double :
  KeyHandler.keymap h !! data = Some single →
  KeyHandler.keymap h !! (data ++ data) = Some double →
  KeyHandler.last_key h = Some data →
  PrimFloat.leb (PrimFloat.sub now (KeyHandler.last_key_time h)) REPEAT_KEY_TIMEOUT = true →
  process now data h env = invoked_double double now data h env.
Proof.
  intros Hs Hd Hl Ht. unfold KeyHandler.process, invoked_double.
  cbn [KeyHandler.keymap KeyHandler.set_last_key_time KeyHandler.last_key].
  rewrite bool_decide_eq_false_2 by (rewrite not_elem_of_dom; congruence).
  rewrite (bool_decide_eq_true_2 _ Hl), Ht.
  rewrite bool_decide_eq_true_2 by (apply elem_of_dom; eauto).
  cbn [andb]. rewrite Hd. by destruct (invoke double env).
Qed.

Lemma process_single now data h env single :
  KeyHandler.keymap h !! data = Some single →
  KeyHandler.last_key h ≠ Some data
  ∨ KeyHandler.keymap h !! (data ++ data) = None
  ∨ PrimFloat.leb (PrimFloat.sub now (KeyHandler.last_key_time h)) REPEAT_KEY_TIMEOUT
    = false →
  process now data h env = invoked_single single now data h env.
Proof.
  intros Hs Hno. unfold KeyHandler.process, invoked_single.
  cbn [KeyHandler.keymap KeyHandler.set_last_key_time KeyHandler.last_key KeyHandler.fd].
  rewrite bool_decide_eq_false_2 by (rewrite not_elem_of_dom; congruence).
  assert (bool_decide (KeyHandler.last_key h = Some data)
          && bool_decide (data ++ data ∈ dom (KeyHandler.keymap h))
          && PrimFloat.leb (PrimFloat.sub now (KeyHandler.last_key_time h))
               REPEAT_KEY_TIMEOUT
          = false) as ->.
  { destruct Hno as [H|[H|H]].
    - by rewrite (bool_decide_eq_false_2 _ H).
    - rewrite (bool_decide_eq_false_2 (_ ∈ _)); [apply andb_false_intro1, andb_false_r|].
      by apply not_elem_of_dom.
    - rewrite H. apply andb_false_r. }
  rewrite Hs. by destruct (invoke single env).
Qed.

(** C5: on a chunk that the keymap binds, the double binding is invoked
    when the chunk repeats the last one, the doubled chunk is bound and the
    time since the previous key is at most 500 ms; the single binding is
    invoked when it is more than 500 ms or the doubled chunk is not bound.
    The time since the previous key is [key_delta] as the code computes it:
    the difference of the two readings of the clock, in floats, compared
    with 0.5 as floats are.  So a press that invokes the single binding,
    followed by the same chunk more than 500 ms later, or with no double
    binding, invokes the single binding again. *)
Theorem process_double_press (now : float) (data : list N) (h : KeyHandler.t bound)
    (env : Env) (single : bound) :
  KeyHandler.keymap h !! data = Some single →
  (∀ double,
     KeyHandler.last_key h = Some data →
     KeyHandler.keymap h !! (data ++ data) = Some double →
     PrimFloat.leb (PrimFloat.sub now (KeyHandler.last_key_time h)) REPEAT_KEY_TIMEOUT
     = true →
     process now data h env = invoked_double double now data h env)
  ∧ (PrimFloat.leb (PrimFloat.sub now (KeyHandler.last_key_time h)) REPEAT_KEY_TIMEOUT
     = false
     ∨ KeyHandler.keymap h !! (data ++ data) = None →
     process now data h env = invoked_single single now data h env)
  ∧ (∀ later,
       process now data h env = invoked_single single now data h env →
       PrimFloat.leb (PrimFloat.sub later now) REPEAT_KEY_TIMEOUT = false
       ∨ KeyHandler.keymap h !! (data ++ data) = None →
       let '(h1, _, env1) := process now data h env in
       process later data h1 env1 = invoked_single single later data h1 env1).
Proof.
  intros Hs. split; [|split].
  - intros double Hl Hd Ht. by eapply process_double.
  - intros H. apply process_single; [done|]. tauto.
  - intros later -> H. unfold invoked_single at 1.
    apply process_single; [done|].
    cbn [KeyHandler.keymap KeyHandler.set_last_key KeyHandler.set_last_key_time
         KeyHandler.last_key_time]. tauto.
Qed.
End Dispatch.

(** A keymap that binds [ESC k] and its double: the names of the bindings
    stand for the callables, and an invocation appends the name to a log. *)
Definition ESC_k : list N := [27; 107]%N.

Definition logged_keymap : gmap (list N) string :=
  {[ ESC_k := "sayword"%string; ESC_k ++ ESC_k := "sayword(spell=True)"%string ]}.

Definition logged_process
    : float → list N → KeyHandler.t string → list string
      → KeyHandler.t string * option Z * list string :=
  let invoke (f : string) (log : list string) := (None, log ++ [f]) in
  let os_write (fd : option Z) (data : list N) (log : list string) := log in
  KeyHandler.process invoke os_write (KeyHandler.handle_unknown_key os_write).

(** A press of [ESC k] at 1.25 s that follows one at 1 s. *)
Lemma process_double_press_witness :
  let h := KeyHandler.mk logged_keymap (Some 3) (Some ESC_k) 1%float in
  logged_process 1.25%float ESC_k h []
  = (KeyHandler.mk logged_keymap (Some 3) (Some ESC_k) 1.25%float, None,
     ["sayword(spell=True)"%string]).
Proof.
  intros h.
  refine (eq_trans
    (proj1 (process_double_press (λ (f : string) (log : list string), (None, log ++ [f]))
              (λ _ _ (log : list string), log)
              (KeyHandler.handle_unknown_key (λ _ _ (log : list string), log))
              1.25%float ESC_k h [] "sayword"%string _)
           "sayword(spell=True)"%string _ _ _) _).
  - vm_compute. reflexivity.
  - reflexivity.
  - vm_compute. reflexivity.
  - vm_compute. reflexivity.
  - reflexivity.
Defined.

(** At the boundary the rounding of the readings decides, as it does in
    Python.  The floats nearest to 0.506817 and to 1.006817 differ by
    0.5000000000000001, more than 0.5: the second press invokes the single
    binding.  The readings 0.5 and 1.0 differ by 0.5: the second press
    invokes the double binding. *)
Example process_at_the_boundary :
  let h t := KeyHandler.mk logged_keymap (Some 3) (Some ESC_k) t in
  PrimFloat.sub 0x1.01bec2480e8c9p+0%float 0x1.037d84901d191p-1%float
  = 0x1.0000000000001p-1%float
  ∧ (logged_process 0x1.01bec2480e8c9p+0%float ESC_k (h 0x1.037d84901d191p-1%float) []).2
    = ["sayword"%string]
  ∧ (logged_process 1%float ESC_k (h 0.5%float) []).2 = ["sayword(spell=True)"%string].
Proof. vm_compute. repeat split. Qed.

(** ** Loops *)

Lemma while_ind {S : Type} (P : S → Prop) (cond : S → bool) (body : S → S) :
  (∀ s, P s → cond s = true → P (body s)) →
  ∀ n s, P s → P (while_ n cond body s).
Proof.
  intros Hstep. induction n as [|n IH]; intros s Hs; [done|].
  simpl. destruct (cond s) eqn:Hc; [|done]. apply IH. by apply Hstep.
Qed.

(** A loop whose variant fits in the rounds it is given stops by its
    condition. *)
Lemma while_stops {S : Type} (P : S → Prop) (variant : S → nat)
    (cond : S → bool) (body : S → S) :
  (∀ s, P s → cond s = true → P (body s) ∧ (variant (body s) < variant s)%nat) →
  ∀ n s, P s → (variant s ≤ n)%nat → cond (while_ n cond body s) = false.
Proof.
  intros Hdec. induction n as [|n IH]; intros s Hs Hn; simpl.
  - destruct (cond s) eqn:Hc; [|done]. apply Hdec in Hc as [_ ?]; [lia|done].
  - destruct (cond s) eqn:Hc; [|done]. apply Hdec in Hc as [? ?]; [|done].
    apply IH; [done|lia].
Qed.

(** ** The review cursor *)

Lemma get_char_ext w1 w2 :
  state w1 = state w2 → screen w1 = screen w2 → get_char w1 = get_char w2.
Proof. unfold get_char, get_data, revx, revy. by intros -> ->. Qed.

Lemma cell_outside b y x : x < 0 → data (cell b y x) = [SPACE].
Proof.
  intros H. unfold cell. rewrite bool_decide_eq_false_2; [done|]. lia.
Qed.

(** [skip_to_previous_char] stops by its condition, on a cell that is not
    empty, in the same row. *)
Lemma skip_to_previous_char_stops w :
  get_char (skip_to_previous_char w) ≠ []
  ∧ revy (skip_to_previous_char w) = revy w
  ∧ screen (skip_to_previous_char w) = screen w.
Proof.
  unfold skip_to_previous_char. split.
  - assert (bool_decide (get_char (while_ (Z.to_nat (revx w + 1))
              (λ w, bool_decide (get_char w = []))
              (λ w, set_revx (revx w - 1) w) w) = []) = false) as H.
    { apply (while_stops (λ _, True) (λ w, Z.to_nat (revx w + 1))
                         (λ w, bool_decide (get_char w = []))); [|done|done].
      intros s _ Hs%bool_decide_eq_true. split; [done|].
      cbn [revx set_revx with_state state State.revx State.set_revx].
      destruct (decide (revx s < 0)) as [Hneg|Hpos].
      - unfold get_char, get_data in Hs. by rewrite cell_outside in Hs.
      - unfold revx in *. lia. }
    by apply bool_decide_eq_false in H.
  - apply (while_ind (λ s, revy s = revy w ∧ screen s = screen w)); [|done].
    by intros s [<- <-] _.
Qed.

Lemma final_andthen_total f c w :
  final ((total f ;; c)%cmd w) = final (c (f w)).
Proof. unfold andthen, total. by destruct (c (f w)). Qed.

Lemma prevchar_lands_on_char w : get_char (final (prevchar w)) ≠ [].
Proof.
  unfold prevchar. rewrite final_andthen_total.
  set (w1 := skip_to_previous_char _).
  destruct (saychar_frame (revy w1) (revx w1) false w1) as [Hst Hsc].
  rewrite (get_char_ext _ w1 Hst Hsc). apply skip_to_previous_char_stops.
Qed.

Lemma nextchar_clamped_lands_on_char wcwidth w k :
  wcwidth (get_char w) = Some k →
  revx w + k > columns (base (screen w)) - 1 →
  get_char (final (nextchar wcwidth w)) ≠ [].
Proof.
  intros Hk Hgt. unfold nextchar. rewrite Hk.
  rewrite bool_decide_eq_true_2 by done.
  set (w1 := skip_to_previous_char _).
  destruct (saychar_frame (revy w1) (revx w1) false w1) as [Hst Hsc].
  rewrite (get_char_ext _ w1 Hst Hsc). apply skip_to_previous_char_stops.
Qed.

Lemma move_prevchar_left w :
  revx w > 0 → move_prevchar w = set_revx (revx w - 1) w.
Proof.
  intros H. unfold move_prevchar. rewrite bool_decide_eq_false_2; [done|lia].
Qed.

Lemma move_nextchar_right w :
  revx w < columns (base (screen w)) - 1 → move_nextchar w = set_revx (revx w + 1) w.
Proof.
  intros H. unfold move_nextchar. rewrite bool_decide_eq_false_2; [done|lia].
Qed.

(** The loops of [sayword], [prevword] and [nextword] stop by their
    conditions: every one tests [revx] against an edge of the row and moves
    one column towards it. *)
Lemma leftward_loop_stops (cond : World → bool) w :
  (∀ s, cond s = true → revx s > 0) →
  cond (while_ (Z.to_nat (revx w)) cond move_prevchar w) = false.
Proof.
  intros Hcond.
  apply (while_stops (λ _, True) (λ w, Z.to_nat (revx w))); [|done|done].
  intros s _ Hx%Hcond. split; [done|]. rewrite move_prevchar_left by done.
  unfold revx, set_revx in *. simpl. lia.
Qed.

Lemma rightward_loop_stops (cond : World → bool) w :
  let m := columns (base (screen w)) - 1 in
  (∀ s, cond s = true → revx s < m) →
  cond (while_ (Z.to_nat (m - revx w)) cond move_nextchar w) = false.
Proof.
  intros m Hcond.
  apply (while_stops (λ s, screen s = screen w) (λ w, Z.to_nat (m - revx w)));
    [|done|done].
  intros s Hs Hx%Hcond.
  rewrite move_nextchar_right by (rewrite Hs; done).
  split; [done|]. unfold revx, set_revx in *. simpl. lia.
Qed.

Lemma sayword_collect_loop_stops (word : list N) w :
  let cond := λ '(w, _, broke),
    negb broke && bool_decide (revx w < columns (base (screen w)) - 1) in
  let body := λ '(w, word, _),
    let w := move_nextchar w in
    if bool_decide (get_char w = [SPACE]) then (w, word, true)
    else (w, word ++ get_char w, false) in
  cond (while_ (Z.to_nat (columns (base (screen w)) - 1 - revx w)) cond body
          (w, word, false)) = false.
Proof.
  intros cond body.
  apply (while_stops (λ '(s, _, _), screen s = screen w)
           (λ '(s, _, broke), if broke : bool then 0%nat
                              else Z.to_nat (columns (base (screen w)) - 1 - revx s)));
    [|done|done].
  intros [[s wd] broke] Hs Hc. unfold cond in Hc.
  apply andb_true_iff in Hc as [Hb Hx]. apply bool_decide_eq_true in Hx.
  destruct broke; [done|]. unfold body.
  rewrite move_nextchar_right by done. rewrite Hs in Hx.
  case_bool_decide; (split; [done|]); unfold revx, set_revx in *; simpl; lia.
Qed.

Lemma get_char_set_revx v w : get_char (set_revx v w) = get_data w (revy w) v.
Proof. done. Qed.

Lemma move_prevchar_screen w : screen (move_prevchar w) = screen w.
Proof. unfold move_prevchar. by repeat case_bool_decide. Qed.

Lemma move_nextchar_screen w : screen (move_nextchar w) = screen w.
Proof. unfold move_nextchar. by repeat case_bool_decide. Qed.

(** A leftward loop stays in its row and on its screen. *)
Lemma leftward_loop_frame (cond : World → bool) n w :
  (∀ s, cond s = true → revx s > 0) →
  revy (while_ n cond move_prevchar w) = revy w
  ∧ screen (while_ n cond move_prevchar w) = screen w.
Proof.
  intros Hcond.
  apply (while_ind (λ s, revy s = revy w ∧ screen s = screen w)); [|done].
  intros s [Hy Hs] Hx%Hcond. by rewrite move_prevchar_left.
Qed.

(** [sayword] leaves the review cursor and the screen as it found them.
    The walk to the start of the word arrives on a space only when it has
    not moved at all, so the early return for a space in the first column
    returns from the starting position. *)
Lemma sayword_frame spell w :
  revx (sayword spell w) = revx w ∧ revy (sayword spell w) = revy w
  ∧ screen (sayword spell w) = screen w.
Proof.
  unfold sayword.
  set (w1 := while_ (Z.to_nat (revx w)) _ move_prevchar w).
  assert (revy w1 = revy w ∧ screen w1 = screen w
          ∧ (revx w1 = revx w ∨ get_char w1 ≠ [SPACE])) as (Hy & Hs & Hx).
  { subst w1.
    apply (while_ind (λ s, revy s = revy w ∧ screen s = screen w
                           ∧ (revx s = revx w ∨ get_char s ≠ [SPACE])));
      [|auto].
    intros s (Hy & Hs & _) Hc.
    apply andb_true_iff in Hc as [Hc Hleft]. apply andb_true_iff in Hc as [Hpos _].
    apply bool_decide_eq_true in Hpos, Hleft.
    rewrite move_prevchar_left by done. split; [done|]. split; [done|]. right.
    by rewrite get_char_set_revx. }
  clearbody w1.
  destruct (bool_decide (revx w1 = 0) && bool_decide (get_char w1 = [SPACE])) eqn:Hearly.
  - apply andb_true_iff in Hearly as [_ Hsp]. apply bool_decide_eq_true in Hsp.
    destruct Hx as [Hx|Hx]; [|done].
    change (revx (say (u "space") false w1)) with (revx w1).
    change (revy (say (u "space") false w1)) with (revy w1).
    change (screen (say (u "space") false w1)) with (screen w1). done.
  - set (loop := while_ _ _ _ _).
    assert (screen loop.1.1 = screen w1) as Hloop.
    { subst loop.
      apply (while_ind (λ t : World * list N * bool, screen t.1.1 = screen w1)); [|done].
      intros [[s wd] br] Ht _. cbn [fst] in *.
      rewrite <- Ht, <- (move_nextchar_screen s).
      by destruct (bool_decide (get_char (move_nextchar s) = [SPACE])). }
    destruct loop as [[w2 word] broke]. cbn [fst] in Hloop.
    split; [by destruct spell|]. split; [by destruct spell|].
    rewrite <- Hs, <- Hloop. by destruct spell.
Qed.

(** C4: [sayword], plain or spelling, leaves the review cursor where it
    found it, whatever the screen and the starting position. *)
Theorem sayword_keeps_review_cursor (spell : bool) (w : World) :
  revx (sayword spell w) = revx w ∧ revy (sayword spell w) = revy w.
Proof. by destruct (sayword_frame spell w) as (? & ? & _). Qed.

Section ReviewMotion.
Variable wcwidth : list N → option Z.

(** The review cursor stands on the empty right half of a wide character:
    its cell is empty and the cell to the left is two columns wide. *)
Definition on_right_half (w : World) : Prop :=
  get_char w = [] ∧ wcwidth (get_data w (revy w) (revx w - 1)) = Some 2.

Lemma on_right_half_ext w1 w2 :
  revx w1 = revx w2 → revy w1 = revy w2 → screen w1 = screen w2 →
  on_right_half w1 → on_right_half w2.
Proof.
  unfold on_right_half, get_char, get_data. by intros -> -> ->.
Qed.

Lemma on_right_half_first_column w :
  wcwidth [SPACE] ≠ Some 2 → revx w ≤ 0 → ¬ on_right_half w.
Proof.
  intros Hsp Hx [_ Hw]. unfold get_data in Hw.
  rewrite cell_outside in Hw by lia. done.
Qed.

Lemma saychar_position y x phonetically w :
  revx (final (saychar y x phonetically w)) = revx w
  ∧ revy (final (saychar y x phonetically w)) = revy w
  ∧ screen (final (saychar y x phonetically w)) = screen w.
Proof.
  destruct (saychar_frame y x phonetically w) as [Hst Hsc].
  unfold revx, revy. by rewrite Hst.
Qed.

Lemma startOfLine_off_right_half w :
  wcwidth [SPACE] ≠ Some 2 → ¬ on_right_half (final (startOfLine w)).
Proof.
  intros Hsp. unfold startOfLine. rewrite final_andthen_total.
  set (w1 := set_revx 0 w).
  destruct (saychar_position (revy w1) (revx w1) false w1) as (Hx & Hy & Hsc).
  intros H. apply (on_right_half_first_column w1 Hsp); [done|].
  by eapply on_right_half_ext; [..|exact H].
Qed.

Lemma nextchar_off_right_half w k :
  wcwidth (get_char w) = Some k →
  k = 1 ∨ (k = 2 ∧ get_data w (revy w) (revx w + 1) = [] ∧ wcwidth [] ≠ Some 2) →
  ¬ on_right_half (final (nextchar wcwidth w)).
Proof.
  intros Hk Hcase.
  destruct (decide (revx w + k > columns (base (screen w)) - 1)) as [Hedge|Hin].
  { intros [H _]. by apply (nextchar_clamped_lands_on_char wcwidth w k). }
  unfold nextchar. rewrite Hk.
  rewrite bool_decide_eq_false_2 by done.
  set (w1 := set_revx (revx w + k) w).
  destruct (saychar_position (revy w1) (revx w1) false w1) as (Hx & Hy & Hsc).
  intros H.
  assert (on_right_half w1) as [_ Hleft].
  { by eapply on_right_half_ext; [..|exact H]. }
  change (wcwidth (get_data w (revy w) (revx w + k - 1)) = Some 2) in Hleft.
  destruct Hcase as [->|(-> & Hempty & Hnil)].
  - replace (revx w + 1 - 1) with (revx w) in Hleft by lia.
    unfold get_char in Hk. congruence.
  - replace (revx w + 2 - 1) with (revx w + 1) in Hleft by lia.
    by rewrite Hempty in Hleft.
Qed.

Lemma prevword_off_right_half w :
  wcwidth [SPACE] ≠ Some 2 → ¬ on_right_half (prevword w).
Proof.
  intros Hsp. unfold prevword. case_bool_decide as Hzero.
  - destruct (sayword_frame false (say (u "left") false w)) as (Hx & Hy & Hs).
    intros H. apply (on_right_half_first_column w Hsp); [lia|].
    by eapply on_right_half_ext; [..|exact H].
  - set (w1 := while_ (Z.to_nat (revx w)) _ move_prevchar w).
    set (w2 := while_ (Z.to_nat (revx w1)) _ move_prevchar w1).
    set (cond := λ w, bool_decide (revx w > 0) && bool_decide (get_char w ≠ [SPACE])
                      && bool_decide (get_data w (revy w) (revx w - 1) ≠ [SPACE])).
    set (w3 := while_ (Z.to_nat (revx w2)) cond move_prevchar w2).
    assert (cond w3 = false) as Hstop.
    { apply leftward_loop_stops. intros s Hc.
      apply andb_true_iff in Hc as [Hc _]. apply andb_true_iff in Hc as [Hc _].
      by apply bool_decide_eq_true in Hc. }
    destruct (sayword_frame false w3) as (Hx & Hy & Hs).
    intros H. assert (on_right_half w3) as [Hempty Hleft].
    { by eapply on_right_half_ext; [..|exact H]. }
    clearbody w3. unfold cond in Hstop.
    apply andb_false_iff in Hstop as [Hstop|Hstop];
      [apply andb_false_iff in Hstop as [Hstop|Hstop]|];
      apply bool_decide_eq_false in Hstop.
    + apply (on_right_half_first_column w3 Hsp); [lia|done].
    + apply Hstop. by rewrite Hempty.
    + apply Hsp. destruct (decide (get_data w3 (revy w3) (revx w3 - 1) = [SPACE])) as [E|E];
        [by rewrite <- E|done].
Qed.

(** What the motions guarantee.  Prev char, and next char at the right edge,
    skip leftward and end on a cell that is not empty.  Next char from a cell
    one column wide, or from a wide cell that its empty half follows, start
    of line and prev word end off the right half of a wide character, a
    space being one column wide.  Prev line, next line, top and bottom of
    screen keep the column they find. *)
Theorem review_motion_off_right_half (w : World) :
  wcwidth [SPACE] ≠ Some 2 →
  get_char (final (prevchar w)) ≠ []
  ∧ (∀ k, wcwidth (get_char w) = Some k →
          revx w + k > columns (base (screen w)) - 1 →
          get_char (final (nextchar wcwidth w)) ≠ [])
  ∧ (∀ k, wcwidth (get_char w) = Some k →
          k = 1 ∨ (k = 2 ∧ get_data w (revy w) (revx w + 1) = [] ∧ wcwidth [] ≠ Some 2) →
          ¬ on_right_half (final (nextchar wcwidth w)))
  ∧ ¬ on_right_half (final (startOfLine w))
  ∧ ¬ on_right_half (prevword w)
  ∧ revx (prevline w) = revx w ∧ revx (nextline w) = revx w
  ∧ revx (topOfScreen w) = revx w ∧ revx (bottomOfScreen w) = revx w.
Proof.
  intros Hsp.
  split; [apply prevchar_lands_on_char|].
  split; [intros k; apply nextchar_clamped_lands_on_char|].
  split; [intros k; apply nextchar_off_right_half|].
  split; [by apply startOfLine_off_right_half|].
  split; [by apply prevword_off_right_half|].
  unfold prevline, nextline, topOfScreen, bottomOfScreen.
  repeat split; try done; by case_bool_decide.
Qed.
End ReviewMotion.

(** Widths for the examples: 你 takes two columns, an empty text none. *)
Definition example_wcwidth (text : list N) : option Z :=
  if bool_decide (text = []) then Some 0
  else if bool_decide (text = [20320%N]) then Some 2
  else Some 1.

(** 你 in the first two columns of the first row, [ab] below. *)
Definition wide_above : World :=
  set_revx 1 (set_revy 1
    (with_buffer (put 1 1 (u "b") (put 1 0 (u "a") (put 0 1 [] (put 0 0 [20320%N] ∅))))
       (startup default_config 2 2))).

(** [a] and 你 on a row of three columns, the review cursor on [a]. *)
Definition wide_at_edge : World :=
  with_buffer (put 0 2 [] (put 0 1 [20320%N] (put 0 0 (u "a") ∅)))
    (startup default_config 3 1).

(** C3: the line motions depart from the invariant.  [prevchar] and the
    right edge of [nextchar] call [skip_to_previous_char]; [prevline],
    [nextline], [topOfScreen] and [bottomOfScreen] change the row and keep
    the column, without the skip.  From [b], prev line goes up in the same
    column and ends on the empty right half of the wide character.  From
    there next char does not move: the width of an empty text is 0, so the
    review cursor stays on the empty half, and an empty cell is announced
    as a space. *)
Theorem prevline_lands_on_empty_half :
  let w := prevline wide_above in
  get_char wide_above = u "b"
  ∧ (revx w, revy w) = (1, 0)
  ∧ get_data w 0 0 = [20320%N] ∧ example_wcwidth [20320%N] = Some 2
  ∧ get_char w = []
  ∧ (revx (final (nextchar example_wcwidth w)), revy (final (nextchar example_wcwidth w)))
    = (1, 0)
  ∧ sent (final (nextchar example_wcwidth w)) = sent w ++ [u "l " ++ [10%N]]
  ∧ get_char (skip_to_previous_char w) = [20320%N].
Proof. vm_compute. done. Qed.

(** End of line, the other motion that goes to the last column, does
    without the skip that next char applies there; and next word, met by the
    right edge inside a word, stays on the last column. *)
Lemma endOfLine_lands_on_empty_half :
  on_right_half example_wcwidth (final (endOfLine (set_revy 0 wide_above)))
  ∧ on_right_half example_wcwidth (nextword wide_at_edge).
Proof. split; split; vm_compute; reflexivity. Qed.

(** From 你 in the middle column, next char meets the right edge and comes
    back to 你; from [a], it goes to 你. *)
Lemma review_motion_off_right_half_witness :
  get_char (final (nextchar example_wcwidth (set_revx 1 wide_at_edge))) ≠ []
  ∧ ¬ on_right_half example_wcwidth (final (nextchar example_wcwidth wide_at_edge)).
Proof.
  assert (example_wcwidth [SPACE] ≠ Some 2) as Hsp by (vm_compute; discriminate).
  split.
  - refine (proj1 (proj2 (review_motion_off_right_half example_wcwidth
                            (set_revx 1 wide_at_edge) Hsp)) 2 _ _).
    + reflexivity.
    + vm_compute. reflexivity.
  - refine (proj1 (proj2 (proj2 (review_motion_off_right_half example_wcwidth
                                   wide_at_edge Hsp))) 1 _ _).
    + reflexivity.
    + by left.
Defined.

(** ** The synth driver *)

Section SynthDriver.
Variable broken : nat → bool.

(** [send] lets no [BrokenPipeError] out. *)
Lemma send_catches_broken_pipe depth text s os s' os' :
  Synth.send broken depth text s os ≠ Synth.Raise Synth.BrokenPipeError s' os'.
Proof.
  destruct depth as [|depth]; [done|]. simpl.
  destruct (Synth.write broken text s os) as [s1 os1|[] s1 os1]; try congruence.
  destruct (Synth.bind _ _) as [s2 os2|[] s2 os2]; congruence.
Qed.

Lemma write_broken text s os p :
  Synth.pipe s = Some p → broken (Synth.attempts os) = true →
  Synth.write broken text s os
  = Synth.Raise Synth.BrokenPipeError s
      (Synth.mkOs (Synth.spawned os) (S (Synth.attempts os)) (Synth.received os)).
Proof. intros Hp Hb. unfold Synth.write. by rewrite Hp, Hb. Qed.

(** What [send] does on a broken pipe.  When the write meets a broken pipe,
    [send] calls [start] and then writes the same text again, keeping a
    second [BrokenPipeError] to itself.  With no rate, volume or voice index
    stored, [start] spawns exactly one subprocess, the text is written to
    it once, and whether that write succeeds or the text is dropped, [send]
    returns with the new subprocess as its pipe, so that the next [send]
    finds a pipe to write to and to respawn. *)
Theorem send_respawns_and_retries (depth : nat) (text : list N) (s : Synth.t)
    (os : Synth.Os) (p : nat) :
  Synth.pipe s = Some p →
  broken (Synth.attempts os) = true →
  let os1 := Synth.mkOs (Synth.spawned os) (S (Synth.attempts os)) (Synth.received os) in
  Synth.send broken (S depth) text s os
  = match Synth.bind (Synth.start (Synth.send broken depth) s os1)
                     (Synth.write broken text) with
    | Synth.Raise Synth.BrokenPipeError s' os' => Synth.Ok s' os'
    | r => r
    end
  ∧ (∀ s' os', Synth.send broken (S depth) text s os
               ≠ Synth.Raise Synth.BrokenPipeError s' os')
  ∧ (Synth.rate s = None → Synth.volume s = None → Synth.voice_idx s = None →
     Synth.send broken (S depth) text s os
     = Synth.Ok (Synth.mk (Some (Synth.spawned os)) None None None)
         (Synth.mkOs (S (Synth.spawned os)) (S (S (Synth.attempts os)))
            (if broken (S (Synth.attempts os)) then Synth.received os
             else Synth.received os ++ [(Synth.spawned os, text)]))).
Proof.
  intros Hp Hb os1.
  assert (Synth.send broken (S depth) text s os
          = match Synth.bind (Synth.start (Synth.send broken depth) s os1)
                             (Synth.write broken text) with
            | Synth.Raise Synth.BrokenPipeError s' os' => Synth.Ok s' os'
            | r => r
            end) as Heq.
  { cbn [Synth.send]. by rewrite (write_broken text s os p Hp Hb). }
  split; [exact Heq|]. split; [intros; apply send_catches_broken_pipe|].
  intros Hr Hv Hi. rewrite Heq. subst os1. clear Heq.
  destruct s as [pipe rate volume voice_idx]. simpl in Hr, Hv, Hi. subst.
  unfold Synth.start, Synth.write. cbn.
  by destruct (broken (S (Synth.attempts os))).
Qed.

(** When every write meets a broken pipe and a rate is stored, [start]
    sends the rate, which starts again: no depth of calls suffices, and
    [send] ends with the interpreter's [RecursionError]. *)
Lemma send_recursion_error depth text s os p r :
  (∀ n, broken n = true) →
  Synth.pipe s = Some p → Synth.rate s = Some r →
  ∃ s' os', Synth.send broken depth text s os = Synth.Raise Synth.RecursionError s' os'.
Proof.
  intros Hall. revert text s os p r.
  induction depth as [|depth IH]; intros text s os p r Hp Hr; [by eexists _, _|].
  cbn [Synth.send]. rewrite (write_broken text s os p Hp (Hall _)).
  unfold Synth.start. cbn [Synth.bind Synth.rate]. rewrite Hr.
  unfold Synth.set_rate.
  edestruct (IH (u "r" ++ str_of_Z r ++ [10%N])) as (s' & os' & ->); [done..|].
  by eexists _, _.
Qed.
End SynthDriver.

(** A lost synth with no setting stored: the text goes to the subprocess
    that [send] starts. *)
Lemma send_respawns_and_retries_witness :
  Synth.send (λ n, bool_decide (n = 0%nat)) 1 (u "shello") (Synth.mk (Some 0%nat) None None None)
    (Synth.mkOs 1 0 [])
  = Synth.Ok (Synth.mk (Some 1%nat) None None None)
      (Synth.mkOs 2 2 [(1%nat, u "shello")]).
Proof.
  refine (proj2 (proj2 (send_respawns_and_retries (λ n, bool_decide (n = 0%nat)) 0
                          (u "shello") (Synth.mk (Some 0%nat) None None None)
                          (Synth.mkOs 1 0 []) 0%nat _ _)) _ _ _); reflexivity.
Defined.

(** C8: the code departs from the claim when a setting is stored.  [send]
    is written to restart once, write again once and drop the text in
    silence; but [start] sends the stored rate, volume and voice through
    [send] itself.  With a rate stored, when the first write and the write
    of the rate to the new subprocess both meet a broken pipe, this one
    [send] spawns two subprocesses; and when every write meets a broken
    pipe, the restarts nest without end and [send] is left by the
    interpreter's [RecursionError], whatever depth of calls it allows. *)
Theorem send_respawns_twice :
  let s := Synth.mk (Some 0%nat) (Some 200) None None in
  let os := Synth.mkOs 1 0 [] in
  Synth.send (λ n, bool_decide (n < 2)%nat) 10 (u "shello") s os
  = Synth.Ok (Synth.mk (Some 2%nat) (Some 200) None None)
      (Synth.mkOs 3 5 [(2%nat, u "r200" ++ [10%N]); (2%nat, u "r200" ++ [10%N]);
                       (2%nat, u "shello")])
  ∧ ∀ depth, ∃ s' os',
      Synth.send (λ _, true) depth (u "shello") s os
      = Synth.Raise Synth.RecursionError s' os'.
Proof.
  split; [vm_compute; reflexivity|].
  intros depth. by eapply send_recursion_error.
Qed.

(** ** The summary of repeated symbols *)

(** The maximal runs of a line: [(c, n)] for [c] repeated [n] times, with
    neighbours that differ. *)
Definition run_cons (c : N) (n : nat) (rs : list (N * nat)) : list (N * nat) :=
  match rs with
  | (d, m) :: rs' => if bool_decide (c = d) then (d, (n + m)%nat) :: rs' else (c, n) :: rs
  | [] => [(c, n)]
  end.

Fixpoint runs (line : list N) : list (N * nat) :=
  match line with
  | [] => []
  | c :: rest => run_cons c 1 (runs rest)
  end.

(** The summary as the specification words it: a run of length [L > 1] of a
    configured character becomes [L], a space and the character; every other
    run stays as it is. *)
Definition summarized (symbols : list N) (run : N * nat) : list N :=
  let '(c, L) := run in
  if bool_decide (c ∈ symbols) && bool_decide (1 < L)%nat
  then str_of_nat L ++ [SPACE; c]
  else replicate L c.

Definition summary_spec (symbols line : list N) : list N :=
  mjoin (summarized symbols <$> runs line).

Definition unsummarized (rs : list (N * nat)) : list N :=
  mjoin ((λ r, replicate r.2 r.1) <$> rs).

(** Neighbouring runs differ and no run is empty. *)
Fixpoint maximal_runs (rs : list (N * nat)) : Prop :=
  match rs with
  | [] => True
  | (c, n) :: rs' =>
      (1 ≤ n)%nat ∧ (∀ r, head rs' = Some r → r.1 ≠ c) ∧ maximal_runs rs'
  end.

Lemma head_run_cons c n rs :
  (1 ≤ n)%nat → ∃ m, head (run_cons c n rs) = Some (c, m) ∧ (1 ≤ m)%nat.
Proof.
  intros Hn. destruct rs as [|[d m] rs]; simpl; [eauto|].
  case_bool_decide; subst; simpl; eexists; split; try done; lia.
Qed.

Lemma run_cons_maximal c n rs :
  (1 ≤ n)%nat → maximal_runs rs → maximal_runs (run_cons c n rs).
Proof.
  intros Hn Hrs. destruct rs as [|[d m] rs]; simpl; [by split|].
  destruct Hrs as (Hm & Hd & Hrs). case_bool_decide; subst; simpl.
  - split; [lia|]. by split.
  - split; [done|]. split; [|by repeat split]. by intros r [= <-].
Qed.

Lemma runs_maximal line : maximal_runs (runs line).
Proof. induction line as [|c line IH]; simpl; [done|]. by apply run_cons_maximal. Qed.

Lemma unsummarized_run_cons c n rs :
  unsummarized (run_cons c n rs) = replicate n c ++ unsummarized rs.
Proof.
  destruct rs as [|[d m] rs]; unfold unsummarized; simpl; [done|].
  case_bool_decide; subst; simpl; [|done].
  by rewrite replicate_add, <- (assoc (++)).
Qed.

(** The runs of a line are the line. *)
Lemma unsummarized_runs line : unsummarized (runs line) = line.
Proof.
  induction line as [|c line IH]; [done|].
  simpl. by rewrite unsummarized_run_cons, IH.
Qed.

(** [finditer] yields the runs of the characters of the class. *)
Definition in_class (symbols : list N) (r : N * nat) : Prop := r.1 ∈ symbols.

Global Instance in_class_dec symbols r : Decision (in_class symbols r).
Proof. unfold in_class. apply _. Defined.

Lemma filter_run_cons_outside symbols c n rs :
  c ∉ symbols → filter (in_class symbols) (run_cons c n rs) = filter (in_class symbols) rs.
Proof.
  intros Hc. destruct rs as [|[d m] rs]; simpl.
  - by rewrite filter_cons_False.
  - case_bool_decide; subst.
    + rewrite !filter_cons_False; done.
    + rewrite (filter_cons_False _ (c, n)); done.
Qed.

Lemma run_cons_run_cons c n m rs :
  run_cons c n (run_cons c m rs) = run_cons c (n + m) rs.
Proof.
  destruct rs as [|[d k] rs]; simpl.
  - by rewrite bool_decide_eq_true_2.
  - case_bool_decide; subst; simpl.
    + rewrite bool_decide_eq_true_2 by done. f_equal. f_equal. lia.
    + by rewrite bool_decide_eq_true_2.
Qed.

Lemma run_cons_other c n d rs :
  c ≠ d → run_cons c n (run_cons d 1 rs) = (c, n) :: run_cons d 1 rs.
Proof.
  intros Hne. destruct (head_run_cons d 1 rs) as (m & Hm & _); [done|].
  destruct (run_cons d 1 rs) as [|[e k] rs']; [done|].
  simpl in Hm. injection Hm as -> ->. simpl. by rewrite bool_decide_eq_false_2.
Qed.

Lemma finditer_from_runs symbols line :
  finditer_from symbols None line = filter (in_class symbols) (runs line)
  ∧ ∀ d n, d ∈ symbols →
      finditer_from symbols (Some (d, n)) line
      = filter (in_class symbols) (run_cons d n (runs line)).
Proof.
  induction line as [|c line [IHn IHs]].
  - split; [done|]. intros d n Hd. simpl. by rewrite filter_cons_True.
  - assert (finditer_from symbols
              (if bool_decide (c ∈ symbols) then Some (c, 1%nat) else None) line
            = filter (in_class symbols) (runs (c :: line))) as Hstart.
    { cbn [runs]. case_bool_decide.
      - by apply IHs.
      - by rewrite filter_run_cons_outside. }
    split; [exact Hstart|].
    intros d n Hd. cbn [finditer_from]. destruct (decide (c = d)) as [->|Hcd].
    + rewrite (bool_decide_eq_true_2 (d = d)) by done.
      rewrite IHs by done. cbn [runs]. rewrite run_cons_run_cons.
      by replace (n + 1)%nat with (S n) by lia.
    + rewrite (bool_decide_eq_false_2 (c = d)) by done.
      rewrite Hstart. cbn [runs]. rewrite run_cons_other by done.
      by rewrite filter_cons_True.
Qed.

(** No character of the class stands twice in a row. *)
Fixpoint no_double (symbols : list N) (l : list N) : Prop :=
  match l with
  | a :: ((b :: _) as t) => ¬ (a = b ∧ a ∈ symbols) ∧ no_double symbols t
  | _ => True
  end.

Lemma no_double_app symbols l1 l2 :
  no_double symbols l1 → no_double symbols l2 →
  (∀ a b, last l1 = Some a → head l2 = Some b → ¬ (a = b ∧ a ∈ symbols)) →
  no_double symbols (l1 ++ l2).
Proof.
  induction l1 as [|a [|b l1] IH]; intros H1 H2 Hj; [done| |].
  - destruct l2 as [|b l2]; [done|]. split; [|done]. by apply Hj.
  - destruct H1 as [Hab H1]. split; [done|]. apply IH; [done|done|].
    intros x y Hx. apply Hj. by rewrite last_cons_cons.
Qed.

Lemma no_double_replicate symbols n c :
  c ∉ symbols ∨ (n ≤ 1)%nat → no_double symbols (replicate n c).
Proof.
  intros H. induction n as [|[|n] IH]; [done|done|].
  destruct H as [H|H]; [|lia]. split; [tauto|]. apply IH. by left.
Qed.

Lemma no_double_outside symbols l c :
  Forall (λ x, x ∉ symbols) l → no_double symbols (l ++ [c]).
Proof.
  induction 1 as [|a l Ha _ IH]; [done|].
  simpl. destruct (l ++ [c]) eqn:E; [done|]. split; [tauto|done].
Qed.

Lemma uint_str_digits d : Forall is_digit (uint_str d).
Proof. induction d; constructor; try done; unfold is_digit; lia. Qed.

Lemma replace_first_unfold old new s :
  replace_first old new s
  = if startswith old s then new ++ drop (length old) s
    else match s with
         | [] => []
         | c :: s' => c :: replace_first old new s'
         end.
Proof. by destruct s. Qed.

Lemma startswith_app p s : startswith p (p ++ s) = true.
Proof.
  induction p as [|a p IH]; [done|]. simpl. by rewrite bool_decide_eq_true_2.
Qed.

Lemma startswith_twice c n a l :
  startswith (replicate (S (S n)) c) (a :: l) = true → a = c ∧ head l = Some c.
Proof.
  simpl. destruct l as [|b l]; intros H.
  - by apply andb_true_iff in H as [_ ?].
  - apply andb_true_iff in H as [Ha H]. apply andb_true_iff in H as [Hb _].
    apply bool_decide_eq_true in Ha, Hb. by subst.
Qed.

(** Where no character of the class stands twice in a row before a run of
    two or more, [str.replace] finds the run itself first. *)
Lemma replace_first_run symbols before c n new after :
  no_double symbols before → last before ≠ Some c → c ∈ symbols → (2 ≤ n)%nat →
  replace_first (replicate n c) new (before ++ replicate n c ++ after)
  = before ++ new ++ after.
Proof.
  intros Hnd Hlast Hc Hn. destruct n as [|[|n]]; [lia|lia|]. clear Hn.
  induction before as [|a before IH].
  - rewrite replace_first_unfold. cbn [app]. rewrite startswith_app.
    by rewrite drop_app_length.
  - rewrite replace_first_unfold. cbn [app].
    destruct (startswith _ _) eqn:E.
    + exfalso. apply startswith_twice in E as [-> Hh].
      destruct before as [|b before]; [by apply Hlast|].
      simpl in Hh. injection Hh as ->. destruct Hnd as [Hnd _]. by apply Hnd.
    + f_equal. apply IH.
      * destruct before; [done|]. by destruct Hnd.
      * destruct before; [done|]. by rewrite last_cons_cons in Hlast.
Qed.

Section Summary.
Variable symbols : list N.
Hypothesis symbols_plain : ∀ ch, ch ∈ symbols → ¬ is_digit ch ∧ ch ≠ SPACE.

Lemma no_double_count before n c :
  no_double symbols before → c ∈ symbols →
  no_double symbols (before ++ str_of_nat n ++ [SPACE; c]).
Proof.
  intros Hb Hc.
  assert (Forall (λ x, x ∉ symbols) (str_of_nat n ++ [SPACE])) as Hout.
  { apply Forall_app. split.
    - eapply Forall_impl; [apply uint_str_digits|].
      intros x Hx Hin. by apply symbols_plain in Hin as [? _].
    - constructor; [|done]. intros Hin. by apply symbols_plain in Hin as [_ ?]. }
  replace (str_of_nat n ++ [SPACE; c]) with ((str_of_nat n ++ [SPACE]) ++ [c])
    by by rewrite <- (assoc (++)).
  apply no_double_app; [done|by apply no_double_outside|].
  intros a b _ Hhead [-> Hin].
  destruct (str_of_nat n ++ [SPACE]) as [|x xs] eqn:E; [by destruct (str_of_nat n)|].
  simpl in Hhead. injection Hhead as <-.
  by apply Forall_cons in Hout as [? _].
Qed.

(** The loop over the matches, run by run: with [before] already rewritten
    and the runs [rs] still to come, it ends on [before] followed by the
    summary of [rs]. *)
Lemma foldl_replace_match rs :
  maximal_runs rs →
  ∀ before,
    no_double symbols before →
    (∀ r, head rs = Some r → last before ≠ Some r.1) →
    foldl replace_match (before ++ unsummarized rs) (filter (in_class symbols) rs)
    = before ++ mjoin (summarized symbols <$> rs).
Proof.
  induction rs as [|[c n] rs IH]; intros Hmax before Hnd Hlast; [done|].
  destruct Hmax as (Hn & Hnext & Hmax).
  assert (unsummarized ((c, n) :: rs) = replicate n c ++ unsummarized rs) as -> by done.
  assert (∀ tail, last (before ++ tail ++ [c]) = Some c) as Hends.
  { intros tail. by rewrite !(assoc (++)), last_snoc. }
  assert (∀ before', last before' = Some c →
            ∀ r, head rs = Some r → last before' ≠ Some r.1) as Hlast'.
  { intros before' -> r Hr [= ->]. by apply (Hnext r). }
  cbn [fmap list_fmap mjoin list_join summarized].
  destruct (decide (c ∈ symbols ∧ 1 < n)%nat) as [[Hc Hlong]|Hshort].
  - rewrite filter_cons_True by done. cbn [foldl replace_match].
    rewrite length_replicate, !bool_decide_eq_true_2 by done. cbn [andb].
    rewrite (replace_first_run symbols before c n _ _ Hnd (Hlast (c, n) eq_refl) Hc) by lia.
    rewrite (assoc (++) before). rewrite IH; [by rewrite <- !(assoc (++))|done|..].
    + by apply no_double_count.
    + apply Hlast'.
      replace (str_of_nat n ++ [SPACE; c]) with ((str_of_nat n ++ [SPACE]) ++ [c])
        by by rewrite <- (assoc (++)).
      apply Hends.
  - assert (bool_decide (c ∈ symbols) && bool_decide (1 < n)%nat = false) as ->.
    { apply andb_false_iff. rewrite !bool_decide_eq_false.
      destruct (decide (c ∈ symbols)); [right|by left]. intros ?. by apply Hshort. }
    assert (foldl replace_match (before ++ replicate n c ++ unsummarized rs)
              (filter (in_class symbols) ((c, n) :: rs))
            = foldl replace_match (before ++ replicate n c ++ unsummarized rs)
                (filter (in_class symbols) rs)) as ->.
    { destruct (decide (c ∈ symbols)) as [Hc|Hc].
      - rewrite filter_cons_True by done. cbn [foldl replace_match].
        rewrite length_replicate, bool_decide_eq_false_2; [done|].
        intros ?. by apply Hshort.
      - by rewrite filter_cons_False. }
    rewrite (assoc (++) before). rewrite IH; [by rewrite <- !(assoc (++))|done|..].
    + apply no_double_app; [done| |].
      * apply no_double_replicate. destruct (decide (c ∈ symbols)); [right|by left].
        destruct (decide (1 < n)%nat); [exfalso; by apply Hshort|lia].
      * intros a b Ha Hb [-> _]. destruct n; [lia|]. simpl in Hb. injection Hb as <-.
        by apply (Hlast (c, S n) eq_refl).
    + apply Hlast'. destruct n as [|n]; [lia|].
      replace (S n) with (n + 1)%nat by lia. rewrite replicate_add. apply (Hends (replicate n c)).
Qed.
End Summary.

(** Where the summary is what the specification words: for a plain class
    that holds neither a decimal digit nor the space, with
    [repeated_symbols] on, every maximal run of length [L > 1] of a
    configured character becomes [L], a space and the character, and every
    other character of the line stays where it is; with [repeated_symbols]
    off the line comes back unchanged. *)
Theorem replace_duplicate_summarizes (c : Config) (line : list N) :
  plain_class (repeated_symbols_values c) = true →
  (∀ ch, ch ∈ repeated_symbols_values c → ¬ is_digit ch ∧ ch ≠ SPACE) →
  replace_duplicate_characters_with_count c line
  = if repeated_symbols c then summary_spec (repeated_symbols_values c) line else line.
Proof.
  intros _ Hplain. unfold replace_duplicate_characters_with_count, finditer, summary_spec.
  destruct (repeated_symbols c); [|done].
  rewrite (proj1 (finditer_from_runs _ _)).
  pose proof (foldl_replace_match (repeated_symbols_values c) Hplain (runs line)
                (runs_maximal line) [] I) as H.
  rewrite unsummarized_runs in H. apply H. by intros r _.
Qed.

Example summary_spec_example :
  runs (u "a---b-") = [(97, 1%nat); (45, 3%nat); (98, 1%nat); (45, 1%nat)]%N
  ∧ summary_spec (u "-=!#") (u "a---b--c-d====") = u "a3 -b2 -c-d4 =".
Proof. split; reflexivity. Qed.

(** The defaults with [repeated_symbols] on and a configured set. *)
Definition repeated_symbols_on (values : list N) : Config :=
  {| process_symbols := false; key_echo := true; cursor_tracking := true;
     line_pause := true; repeated_symbols := true;
     repeated_symbols_values := values; symbols := ∅ |}.

Lemma replace_duplicate_summarizes_witness :
  replace_duplicate_characters_with_count (repeated_symbols_on (u "-=!#")) (u "== a---b-")
  = u "2 = a3 -b-".
Proof.
  refine (eq_trans (replace_duplicate_summarizes (repeated_symbols_on (u "-=!#"))
                      (u "== a---b-") _ _) _).
  - reflexivity.
  - intros ch Hin.
    change (ch ∈ [45; 61; 33; 35]%N) in Hin.
    repeat (apply elem_of_cons in Hin as [->|Hin]);
      [split; [unfold is_digit; lia|done]..|by apply elem_of_nil in Hin].
  - vm_compute. reflexivity.
Defined.

(** C7: the code departs from the summary that the claim describes when the
    configured set holds a digit or the space.  Every match is rewritten
    with [new_line.replace(match, ..., 1)], which replaces the text of the
    match where it occurs first in the line, not the match: with the plain
    class [1] and [repeated_symbols] on, the run of eleven becomes [11 1],
    in which [str.replace] then finds the text of the later run of two.
    The line comes out as [2 1 1 11]; the runs summarized where they stand
    give [11 1 2 1]. *)
Theorem replace_duplicate_digit_symbol :
  plain_class (u "1") = true
  ∧ finditer (u "1") (u "11111111111 11") = [(49, 11%nat); (49, 2%nat)]%N
  ∧ replace_first (u "11") (u "2 1") (u "11 1 11") = u "2 1 1 11"
  ∧ replace_duplicate_characters_with_count (repeated_symbols_on (u "1")) (u "11111111111 11")
    = u "2 1 1 11"
  ∧ summary_spec (u "1") (u "11111111111 11") = u "11 1 2 1".
Proof. vm_compute. done. Qed.
(** * Further properties of the functions above *)

(** ** The scheduler *)

(** The callables that are due at [curtime], in list order. *)
Definition due (curtime : Z) (pending : list (Z * callback)) : list callback :=
  snd <$> filter (λ p, p.1 ≤ curtime) pending.

(** One call after the other, up to the first that raises. *)
Fixpoint call_each (fs : list callback) : World → outcome :=
  match fs with
  | [] => total id
  | f :: fs' => (call f ;; call_each fs')%cmd
  end.

Lemma call_delayed_functions f w :
  State.delayed_functions (state (final (call f w)))
  = State.delayed_functions (state w).
Proof.
  destruct f; cbn [call final].
  - unfold read_buffer_scheduled. by destruct (sb_frame
      (with_state (State.set_delaying_output false) w)) as (-> & _).
  - by destruct (sayline_frame (cursor_y (cursor (base (screen w)))) w) as (-> & _).
  - by destruct (saychar_frame (cursor_y (cursor (base (screen w))))
                   (cursor_x (cursor (base (screen w)))) false w) as (-> & _).
Qed.

Lemma run_due_call_each curtime pending to_remove w :
  run_due curtime pending to_remove w
  = match call_each (due curtime pending) w with
    | Returns w' => (Returns w', to_remove ++ filter (λ p, p.1 ≤ curtime) pending)
    | Raises e w' =>
        (Raises e w', (run_due curtime pending to_remove w).2)
    end.
Proof.
  revert to_remove w. induction pending as [|[t f] rest IH]; intros to_remove w.
  - simpl. by rewrite app_nil_r.
  - cbn [run_due]. unfold due. destruct (decide (t ≤ curtime)) as [Hdue|Hnot].
    + rewrite bool_decide_eq_true_2 by done.
      rewrite filter_cons_True by done. rewrite fmap_cons. cbn [call_each snd].
      unfold andthen. destruct (call f w) as [w'|e w']; [|done].
      rewrite IH. fold (due curtime rest).
      destruct (call_each (due curtime rest) w'); [|done].
      by rewrite <- app_assoc.
    + rewrite bool_decide_eq_false_2 by done.
      rewrite filter_cons_False by done. apply IH.
Qed.

Lemma call_each_delayed_functions fs w :
  State.delayed_functions (state (final (call_each fs w)))
  = State.delayed_functions (state w).
Proof.
  revert w. induction fs as [|f fs IH]; intros w; [done|].
  cbn [call_each]. unfold andthen.
  pose proof (call_delayed_functions f w) as Hf.
  destruct (call f w) as [w'|e w']; simpl in *; [|done]. by rewrite IH.
Qed.

(** Removing the due entries one by one, first occurrence first, leaves the
    entries that are not due: an entry equal to a due one is due. *)
Lemma list_remove_due (curtime : Z) (pending : list (Z * callback)) :
  foldl (λ l i, list_remove i l) pending (filter (λ p, p.1 ≤ curtime) pending)
  = filter (λ p, curtime < p.1) pending.
Proof.
  induction pending as [|a rest IH]; [done|].
  destruct (decide (a.1 ≤ curtime)) as [Hdue|Hnot].
  - rewrite filter_cons_True by done. rewrite filter_cons_False by lia.
    cbn [foldl list_remove]. by rewrite decide_True.
  - rewrite filter_cons_False by done. rewrite filter_cons_True by lia.
    rewrite <- IH.
    assert (Forall (λ p : Z * callback, p ≠ a) (filter (λ p, p.1 ≤ curtime) rest)) as Hne.
    { apply Forall_forall. intros p [Hp _]%list_elem_of_filter ->. done. }
    clear IH. revert Hne. generalize (filter (λ p : Z * callback, p.1 ≤ curtime) rest).
    intros rm. revert rest. induction rm as [|r rm IH]; intros rest Hne; [done|].
    apply Forall_cons in Hne as [Hr Hne]. cbn [foldl list_remove].
    rewrite decide_False by done. by apply IH.
Qed.

(** X1: [run_scheduled] calls the callables whose deadline has passed, in the
    order of the list, and then leaves in the list exactly the entries whose
    deadline has not passed, in their order; if a call raises, the later
    ones are not made. *)
Theorem run_scheduled_runs_due (now : Z) (w : World) :
  run_scheduled now w
  = match call_each (due now (State.delayed_functions (state w))) w with
    | Returns w' =>
        Returns (with_state (State.set_delayed_functions
                   (filter (λ p, now < p.1) (State.delayed_functions (state w)))) w')
    | Raises e w' => Raises e w'
    end.
Proof.
  unfold run_scheduled. case_bool_decide as Hempty.
  - rewrite Hempty. simpl. unfold total, id.
    destruct w as [[] ? ? ? ? ?]; simpl in *. by subst.
  - rewrite run_due_call_each.
    pose proof (call_each_delayed_functions
                  (due now (State.delayed_functions (state w))) w) as Hkeep.
    destruct (call_each _ w) as [w'|e w']; simpl in *; [|done].
    unfold with_state. do 2 f_equal. rewrite Hkeep.
    f_equal. apply list_remove_due.
Qed.

(** ** Speech *)

(** X2: a flush speaks a text once: after [sb] the buffer is empty, at
    position 0, and a second [sb] changes nothing and sends nothing. *)
Theorem sb_twice (w : World) :
  speech_buffer (sb w) = StringIO.empty ∧ sb (sb w) = sb w.
Proof.
  pose proof (sb_empties w) as Hempty. split; [done|].
  destruct (sb w) as [st b k sc se ct]. simpl in Hempty. subst b.
  reflexivity.
Qed.

Lemma symbols_re_sub_unlisted re c data :
  build_symbols_re c = Some re →
  Forall (λ ch, ch = SPACE ∨ symbols c !! ch = None) data →
  symbols_re_sub re c data = data.
Proof.
  intros Hre Hdata. unfold symbols_re_sub.
  induction Hdata as [|ch data Hch _ IH]; [done|].
  rewrite fmap_cons.
  change (mjoin (?x :: ?l)) with (x ++ mjoin l). rewrite IH.
  assert (ch ∈ re → symbols c !! ch ≠ None ∧ ch ≠ SPACE) as Hin.
  { unfold build_symbols_re in Hre.
    destruct (filter _ _) as [|a l] eqn:Hf; [done|]. injection Hre as <-.
    rewrite <- Hf. intros [Hne Hch']%list_elem_of_filter. split; [|done].
    apply list_elem_of_fmap in Hch' as ([k v] & -> & Hkv).
    apply elem_of_map_to_list in Hkv. simpl. by rewrite Hkv. }
  case_bool_decide as Hc; [|done].
  destruct (Hin Hc) as [Hsome Hsp]. by destruct Hch.
Qed.

(** X3: [say] sends the stripped text between [s] and a newline, as it is,
    when none of its characters but the space has an entry in the symbol
    table; the space is never replaced, entry or not, whether or not symbol
    processing is on or forced. *)
Theorem say_unlisted (data : str) (force_process_symbols : bool) (w : World) :
  Forall (λ ch, ch = SPACE ∨ symbols (speech w) !! ch = None) (strip data) →
  say data force_process_symbols w = synth_send (u "s" ++ strip data ++ [10%N]) w.
Proof.
  intros Hdata. unfold say.
  destruct (build_symbols_re (speech w)) as [re|] eqn:Hre; [|done].
  destruct (force_process_symbols || process_symbols (speech w)); [|done].
  by rewrite (symbols_re_sub_unlisted re).
Qed.

Lemma say_unlisted_witness :
  let c := {| process_symbols := true; key_echo := true; cursor_tracking := true;
              line_pause := true; repeated_symbols := false;
              repeated_symbols_values := u "-=!#";
              symbols := {[ 32%N := u "space"; 33%N := u "bang" ]} |} in
  sent (say (u " a b ") true (startup c 80 24)) = [u "sa b" ++ [10%N]].
Proof.
  intros c.
  rewrite (say_unlisted (u " a b ") true (startup c 80 24)); [reflexivity|].
  vm_compute.
  repeat (apply Forall_cons; split;
          [first [left; reflexivity | right; vm_compute; reflexivity]|]).
  constructor.
Defined.

(** ** The speech buffer under the screen hooks *)

(** X4: [linefeed] with [line_pause] on leaves the speech buffer empty, so
    what is drawn before a line feed is never spoken together with what is
    drawn after it; with [line_pause] off it sends nothing and appends one
    space at the end of the buffered text, wherever the position was. *)
Theorem linefeed_speech_buffer (super : Pyte) (w : World) :
  (line_pause (speech w) = true →
   speech_buffer (linefeed super w) = StringIO.empty)
  ∧ (line_pause (speech w) = false →
     StringIO.getvalue (speech_buffer (linefeed super w))
     = StringIO.getvalue (speech_buffer w) ++ [SPACE]
     ∧ StringIO.tell (speech_buffer (linefeed super w))
       = S (length (StringIO.getvalue (speech_buffer w)))
     ∧ sent (linefeed super w) = sent w).
Proof.
  unfold linefeed. split; intros ->.
  - apply sb_empties.
  - cbn. rewrite take_ge by done. rewrite Nat.sub_diag.
    rewrite drop_ge by lia. split; [done|]. split; [lia|done].
Qed.


(** ** The review cursor *)

(** X6: [skip_to_previous_char] stops on the nearest cell, at or to the
    left of the review cursor, that is not empty: it does not move from a
    cell that holds text, and every cell that it passes is empty. *)
Theorem skip_to_previous_char_nearest (w : World) :
  let w' := skip_to_previous_char w in
  revx w' ≤ revx w
  ∧ get_char w' ≠ []
  ∧ (∀ x, revx w' < x ≤ revx w → get_data w (revy w) x = [])
  ∧ (get_char w ≠ [] → w' = w).
Proof.
  unfold skip_to_previous_char.
  remember (Z.to_nat (revx w + 1)) as n eqn:Hn.
  assert (Z.to_nat (revx w + 1) ≤ n)%nat as Hle by lia. clear Hn.
  revert w Hle. induction n as [|n IH]; intros w Hle; cbn [while_].
  - assert (revx w < 0) as Hneg by lia.
    assert (get_char w ≠ []) as Hcell.
    { unfold get_char, get_data. by rewrite cell_outside. }
    split; [lia|]. split; [done|]. split; [lia|done].
  - case_bool_decide as Hempty.
    + destruct (IH (set_revx (revx w - 1) w)) as (Hx & Hcell & Hpass & _).
      { unfold revx, set_revx. simpl. unfold revx in Hle. lia. }
      change (revx (set_revx (revx w - 1) w)) with (revx w - 1) in *.
      change (revy (set_revx (revx w - 1) w)) with (revy w) in *.
      split; [lia|]. split; [done|]. split; [|done].
      intros x Hxs. destruct (decide (x = revx w)) as [->|Hne]; [done|].
      apply Hpass. lia.
    + split; [lia|]. split; [done|]. split; [lia|done].
Qed.



(** The position of the review cursor and the screen under it. *)
Definition same_row (w0 w : World) : Prop :=
  revy w = revy w0 ∧ screen w = screen w0.

Lemma get_char_same_row w0 w x :
  same_row w0 w → revx w = x → get_char w = get_data w0 (revy w0) x.
Proof. intros [Hy Hs] <-. unfold get_char, get_data. by rewrite Hy, Hs. Qed.

Lemma get_data_same_row w0 w x :
  same_row w0 w → get_data w (revy w) x = get_data w0 (revy w0) x.
Proof. intros [Hy Hs]. unfold get_data. by rewrite Hy, Hs. Qed.

(** A leftward loop ends in its row, not to the right of where it began and
    not to the left of column 0 when it began there or to the right of it. *)
Lemma leftward_loop_bounds (cond : World → bool) n w :
  (∀ s, cond s = true → revx s > 0) →
  let w' := while_ n cond move_prevchar w in
  same_row w w' ∧ revx w' ≤ revx w ∧ (0 ≤ revx w → 0 ≤ revx w').
Proof.
  intros Hcond.
  apply (while_ind (λ s, same_row w s ∧ revx s ≤ revx w ∧ (0 ≤ revx w → 0 ≤ revx s)));
    [|by repeat split].
  intros s ([Hy Hs] & Hle & Hge) Hx%Hcond. rewrite move_prevchar_left by done.
  change (revx (set_revx (revx s - 1) s)) with (revx s - 1).
  repeat split; [done|done|lia|lia].
Qed.

(** A rightward loop ends in its row, not to the left of where it began,
    and not beyond the last column unless it has not moved. *)
Lemma rightward_loop_bounds (cond : World → bool) n w :
  let m := columns (base (screen w)) - 1 in
  (∀ s, cond s = true → revx s < m) →
  let w' := while_ n cond move_nextchar w in
  same_row w w' ∧ revx w ≤ revx w' ∧ (revx w' = revx w ∨ revx w' ≤ m).
Proof.
  intros m Hcond.
  apply (while_ind (λ s, same_row w s ∧ revx w ≤ revx s ∧ (revx s = revx w ∨ revx s ≤ m)));
    [|by repeat split; auto].
  intros s ([Hy Hs] & Hle & Hge) Hx%Hcond.
  rewrite move_nextchar_right by (rewrite Hs; done).
  change (revx (set_revx (revx s + 1) s)) with (revx s + 1).
  repeat split; [done|done|lia|lia].
Qed.

Lemma same_row_trans w0 w1 w2 : same_row w0 w1 → same_row w1 w2 → same_row w0 w2.
Proof. intros [? ?] [? ?]. split; congruence. Qed.

Lemma same_row_sayword spell w : same_row w (sayword spell w).
Proof. by destruct (sayword_frame spell w) as (_ & ? & ?). Qed.

Lemma same_row_say data force w : same_row w (say data force w).
Proof. done. Qed.

(** The three leftward loops of [prevword]. *)
Lemma prevword_loops w :
  revx w ≠ 0 →
  ∃ w3, prevword w = sayword false w3
        ∧ same_row w w3 ∧ revx w3 ≤ revx w ∧ (0 ≤ revx w → 0 ≤ revx w3)
        ∧ (revx w3 ≤ 0
           ∨ get_char w3 ≠ [SPACE] ∧ get_data w3 (revy w3) (revx w3 - 1) = [SPACE]).
Proof.
  intros Hx. unfold prevword. rewrite bool_decide_eq_false_2 by done. cbv zeta.
  set (c1 := λ w : World, bool_decide (revx w > 0) && bool_decide (get_char w ≠ [SPACE])).
  set (c2 := λ w : World, bool_decide (revx w > 0) && bool_decide (get_char w = [SPACE])).
  set (c3 := λ w : World, bool_decide (revx w > 0) && bool_decide (get_char w ≠ [SPACE])
                          && bool_decide (get_data w (revy w) (revx w - 1) ≠ [SPACE])).
  assert (∀ s, c1 s = true → revx s > 0) as H1.
  { intros s [H _]%andb_true_iff. by apply bool_decide_eq_true in H. }
  assert (∀ s, c2 s = true → revx s > 0) as H2.
  { intros s [H _]%andb_true_iff. by apply bool_decide_eq_true in H. }
  assert (∀ s, c3 s = true → revx s > 0) as H3.
  { intros s [[H _]%andb_true_iff _]%andb_true_iff. by apply bool_decide_eq_true in H. }
  set (w1 := while_ (Z.to_nat (revx w)) c1 move_prevchar w).
  destruct (leftward_loop_bounds c1 (Z.to_nat (revx w)) w H1) as (Hr1 & Hle1 & Hge1).
  fold w1 in Hr1, Hle1, Hge1. clearbody w1.
  set (w2 := while_ (Z.to_nat (revx w1)) c2 move_prevchar w1).
  destruct (leftward_loop_bounds c2 (Z.to_nat (revx w1)) w1 H2) as (Hr2 & Hle2 & Hge2).
  pose proof (leftward_loop_stops c2 w1 H2) as Hstop2.
  fold w2 in Hr2, Hle2, Hge2, Hstop2. clearbody w2.
  set (w3 := while_ (Z.to_nat (revx w2)) c3 move_prevchar w2).
  destruct (leftward_loop_bounds c3 (Z.to_nat (revx w2)) w2 H3) as (Hr3 & Hle3 & Hge3).
  pose proof (leftward_loop_stops c3 w2 H3) as Hstop3.
  assert (revx w3 ≤ 0 ∨ get_char w3 ≠ [SPACE]) as Hinv.
  { subst w3.
    apply (while_ind (λ s, revx s ≤ 0 ∨ get_char s ≠ [SPACE])).
    - intros s _ Hc. unfold c3 in Hc.
      apply andb_true_iff in Hc as [[Hpos _]%andb_true_iff Hleft].
      apply bool_decide_eq_true in Hpos, Hleft.
      rewrite move_prevchar_left by done. right. by rewrite get_char_set_revx.
    - unfold c2 in Hstop2. apply andb_false_iff in Hstop2 as [H|H];
        apply bool_decide_eq_false in H; [left; lia|by right]. }
  fold w3 in Hr3, Hle3, Hge3, Hstop3. clearbody w3.
  exists w3. split; [done|].
  split; [eauto using same_row_trans|]. split; [lia|]. split; [lia|].
  destruct Hinv as [Hinv|Hinv]; [by left|].
  unfold c3 in Hstop3. apply andb_false_iff in Hstop3 as [Hstop3|Hstop3].
  - apply andb_false_iff in Hstop3 as [H|H]; apply bool_decide_eq_false in H.
    + left. lia.
    + done.
  - apply bool_decide_eq_false in Hstop3. right. split; [done|].
    by destruct (decide (get_data w3 (revy w3) (revx w3 - 1) = [SPACE])).
Qed.

(** The two rightward loops of [nextword]. *)
Lemma nextword_loops w :
  let m := columns (base (screen w)) - 1 in
  ∃ w2, same_row w w2 ∧ revx w ≤ revx w2 ∧ (revx w2 = revx w ∨ revx w2 ≤ m)
        ∧ (revx w2 = revx w ∨ get_char w2 ≠ [SPACE]
           ∨ (revx w2 = m ∧ get_char w2 = [SPACE]))
        ∧ nextword w
          = if bool_decide (revx w2 = m) && bool_decide (get_char w2 = [SPACE])
            then sayword false (set_revx (revx w) (say (u "right") false w2))
            else sayword false w2.
Proof.
  intros m. unfold nextword. cbv zeta. fold m.
  set (c1 := λ w : World, bool_decide (revx w < m) && bool_decide (get_char w ≠ [SPACE])).
  set (c2 := λ w : World, bool_decide (revx w < m) && bool_decide (get_char w = [SPACE])).
  assert (∀ s, c1 s = true → revx s < m) as H1.
  { intros s [H _]%andb_true_iff. by apply bool_decide_eq_true in H. }
  assert (∀ s, c2 s = true → revx s < m) as H2.
  { intros s [H _]%andb_true_iff. by apply bool_decide_eq_true in H. }
  set (w1 := while_ (Z.to_nat (m - revx w)) c1 move_nextchar w).
  destruct (rightward_loop_bounds c1 (Z.to_nat (m - revx w)) w H1) as (Hr1 & Hle1 & Hm1).
  fold w1 in Hr1, Hle1, Hm1. clearbody w1.
  assert (columns (base (screen w1)) - 1 = m) as Hcols.
  { unfold m. destruct Hr1 as [_ ->]. done. }
  set (w2 := while_ (Z.to_nat (m - revx w1)) c2 move_nextchar w1).
  assert (∀ s, c2 s = true → revx s < columns (base (screen w1)) - 1) as H2'.
  { rewrite Hcols. exact H2. }
  destruct (rightward_loop_bounds c2 (Z.to_nat (m - revx w1)) w1 H2') as (Hr2 & Hle2 & Hm2).
  pose proof (rightward_loop_stops c2 w1) as Hstop2. cbv zeta in Hstop2.
  rewrite Hcols in Hstop2, Hm2. specialize (Hstop2 H2).
  fold w2 in Hr2, Hle2, Hm2, Hstop2. clearbody w2.
  exists w2. split; [eauto using same_row_trans|]. split; [lia|]. split; [lia|].
  split; [|done].
  unfold c2 in Hstop2. apply andb_false_iff in Hstop2 as [H|H];
    apply bool_decide_eq_false in H.
  - destruct (decide (get_char w2 = [SPACE])); [|by auto].
    destruct (decide (revx w2 = m)); [by auto|]. left. lia.
  - by auto.
Qed.

(** X8: the word motions keep the review cursor in its row and between the
    first and the last column: [prevword] does not move it to the right,
    [nextword] does not move it to the left, and neither changes the
    screen. *)
Theorem word_motions_stay_in_row (w : World) :
  0 ≤ revx w ≤ columns (base (screen w)) - 1 →
  (same_row w (prevword w) ∧ 0 ≤ revx (prevword w) ≤ revx w)
  ∧ (same_row w (nextword w)
     ∧ revx w ≤ revx (nextword w) ≤ columns (base (screen w)) - 1).
Proof.
  intros Hx. split.
  - destruct (decide (revx w = 0)) as [H0|H0].
    + unfold prevword. rewrite bool_decide_eq_true_2 by done.
      destruct (sayword_frame false (say (u "left") false w)) as (-> & Hy & Hs).
      split; [by split|]. change (revx (say _ _ w)) with (revx w). lia.
    + destruct (prevword_loops w H0) as (w3 & -> & Hr & Hle & Hge & _).
      destruct (sayword_frame false w3) as (-> & _ & _).
      split; [eauto using same_row_trans, same_row_sayword|]. lia.
  - destruct (nextword_loops w) as (w2 & Hr & Hle & Hm & _ & ->).
    destruct (bool_decide (revx w2 = _) && _).
    + destruct (sayword_frame false (set_revx (revx w) (say (u "right") false w2)))
        as (-> & Hy & Hs).
      split; [|change (revx (set_revx ?v _)) with v; lia].
      destruct Hr as [Hy2 Hs2]. split; [by rewrite Hy|by rewrite Hs].
    + destruct (sayword_frame false w2) as (-> & _ & _).
      split; [eauto using same_row_trans, same_row_sayword|]. lia.
Qed.

Lemma word_motions_stay_in_row_witness :
  0 ≤ revx (prevword (set_revx 13 hello_world)) ≤ 13
  ∧ 13 ≤ revx (nextword (set_revx 13 hello_world)) ≤ 19.
Proof.
  assert (0 ≤ revx (set_revx 13 hello_world)
          ≤ columns (base (screen (set_revx 13 hello_world))) - 1) as H
    by (vm_compute; split; discriminate).
  split.
  - exact (proj2 (proj1 (word_motions_stay_in_row (set_revx 13 hello_world) H))).
  - exact (proj2 (proj2 (word_motions_stay_in_row (set_revx 13 hello_world) H))).
Defined.

(** X9: [nextword] ends on a cell that is not a space, unless the review
    cursor is back in the column where it began: it never stops on the
    blanks between two words, and with no word to the right it says where
    it started. *)
Theorem nextword_lands_on_word (w : World) :
  revx (nextword w) = revx w ∨ get_char (nextword w) ≠ [SPACE].
Proof.
  destruct (nextword_loops w) as (w2 & Hr & _ & _ & Hland & ->).
  destruct (bool_decide (revx w2 = _) && bool_decide (get_char w2 = _)) eqn:Hedge.
  - left. by destruct (sayword_frame false
                         (set_revx (revx w) (say (u "right") false w2))) as (-> & _).
  - destruct (sayword_frame false w2) as (Hx & Hy & Hs).
    rewrite Hx.
    rewrite (get_char_same_row w2 (sayword false w2) (revx w2)); [|by split|done].
    destruct Hland as [?|[?|[Hm Hsp]]]; [by left|by right|].
    rewrite bool_decide_eq_true_2 in Hedge by done.
    by rewrite bool_decide_eq_true_2 in Hedge by done.
Qed.

(** X10: [prevword] ends in column 0 or on the first character of a word:
    a cell that is not a space with a space to its left. *)
Theorem prevword_lands_on_word_start (w : World) :
  0 ≤ revx w →
  let w' := prevword w in
  revx w' = 0
  ∨ get_char w' ≠ [SPACE] ∧ get_data w' (revy w') (revx w' - 1) = [SPACE].
Proof.
  intros Hx. cbv zeta. destruct (decide (revx w = 0)) as [H0|H0].
  - left. unfold prevword. rewrite bool_decide_eq_true_2 by done.
    by destruct (sayword_frame false (say (u "left") false w)) as (-> & _).
  - destruct (prevword_loops w H0) as (w3 & -> & Hr & Hle & Hge & Hland).
    destruct (sayword_frame false w3) as (Hx3 & Hy3 & Hs3).
    rewrite Hx3.
    rewrite (get_char_same_row w3 (sayword false w3) (revx w3)); [|by split|done].
    rewrite (get_data_same_row w3 (sayword false w3)) by by split.
    destruct Hland as [?|?]; [left; lia|by right].
Qed.

Lemma prevword_lands_on_word_start_witness :
  get_char (prevword (set_revx 13 hello_world)) ≠ [SPACE]
  ∧ get_data (prevword (set_revx 13 hello_world)) 0 5 = [SPACE].
Proof.
  destruct (prevword_lands_on_word_start (set_revx 13 hello_world)) as [H|H].
  - vm_compute. discriminate.
  - vm_compute in H. discriminate.
  - exact H.
Defined.

Lemma lstrip_all_space s : Forall (λ c, isspace c = true) s → lstrip s = [].
Proof. induction 1 as [|c s Hc _ IH]; [done|]. simpl. by rewrite Hc. Qed.

Lemma strip_all_space s : Forall (λ c, isspace c = true) s → strip s = [].
Proof. intros H. unfold strip. by rewrite lstrip_all_space. Qed.

Lemma say_nothing data force w :
  strip data = [] → say data force w = synth_send (u "s" ++ [10%N]) w.
Proof.
  intros H. unfold say. rewrite H.
  destruct (build_symbols_re (speech w)); [|done]. by destruct (_ || _).
Qed.

(** X11: [sayword] on a space.  In column 0 it says the word [space].
    Away from column 0 and from the last column, with another space to the
    right, it sends an empty text: the word that it collects is the space
    alone, which [say] strips. *)
Theorem sayword_on_space (spell : bool) (w : World) :
  get_char w = [SPACE] →
  (revx w = 0 → sayword spell w = say (u "space") false w)
  ∧ (0 < revx w < columns (base (screen w)) - 1 →
     get_data w (revy w) (revx w + 1) = [SPACE] →
     sent (sayword spell w) = sent w ++ [u "s" ++ [10%N]]).
Proof.
  intros Hsp.
  assert (∀ n, while_ n
            (λ w, bool_decide (revx w > 0) && bool_decide (get_char w ≠ [SPACE])
                  && bool_decide (get_data w (revy w) (revx w - 1) ≠ [SPACE]))
            move_prevchar w = w) as Hloop.
  { intros [|n]; [done|]. simpl.
    rewrite (bool_decide_eq_false_2 (get_char w ≠ [SPACE])) by auto.
    by rewrite andb_false_r. }
  unfold sayword. rewrite Hloop. split.
  - intros H0. by rewrite !bool_decide_eq_true_2 by done.
  - intros Hx Hright. rewrite bool_decide_eq_false_2 by lia. cbn [andb].
    destruct (Z.to_nat (columns (base (screen w)) - 1 - revx w)) as [|n] eqn:Hn; [lia|].
    cbn [while_ negb andb]. rewrite bool_decide_eq_true_2 by lia.
    rewrite move_nextchar_right by lia. rewrite get_char_set_revx.
    rewrite bool_decide_eq_true_2 by done.
    destruct n; cbn [while_ negb andb]; rewrite Hsp;
      destruct spell; by rewrite say_nothing.
Qed.

Lemma sayword_on_space_witness :
  sent (sayword false (set_revx 11 hello_world)) = [u "s" ++ [10%N]].
Proof.
  refine (proj2 (sayword_on_space false (set_revx 11 hello_world) _) _ _);
    vm_compute; done.
Defined.

Lemma replace_match_single new_line (r : N * nat) :
  (r.2 ≤ 1)%nat → replace_match new_line r = new_line.
Proof.
  destruct r as [ch n]. simpl. intros Hn. rewrite length_replicate.
  rewrite bool_decide_eq_false_2; [done|lia].
Qed.

Lemma replace_duplicate_blank c :
  replace_duplicate_characters_with_count c (u "blank") = u "blank".
Proof.
  unfold replace_duplicate_characters_with_count.
  destruct (repeated_symbols c); [|done]. unfold finditer.
  rewrite (proj1 (finditer_from_runs _ _)).
  assert (Forall (λ r : N * nat, (r.2 ≤ 1)%nat)
            (filter (in_class (repeated_symbols_values c)) (runs (u "blank")))) as H.
  { apply Forall_forall. intros r [_ Hr]%list_elem_of_filter. revert r Hr.
    apply Forall_forall. vm_compute. repeat constructor. }
  induction H as [|r rs Hr _ IH]; [done|]. cbn [foldl].
  by rewrite replace_match_single.
Qed.

(** X12: a row whose cells hold nothing but white space is announced as
    [blank]: [sayline] says that word for it, as [say] pronounces it,
    whether [repeated_symbols] is on or off and whatever plain class is
    configured. *)
Theorem sayline_blank (y : Z) (w : World) :
  plain_class (repeated_symbols_values (speech w)) = true →
  (∀ x, 0 ≤ x < columns (base (screen w)) →
        Forall (λ c, isspace c = true) (get_data w y x)) →
  sayline y w = say (u "blank") false w.
Proof.
  intros _ Hrow. unfold sayline.
  rewrite strip_all_space.
  - rewrite bool_decide_eq_true_2 by done. by rewrite replace_duplicate_blank.
  - apply Forall_forall. intros c Hc.
    apply list_elem_of_join in Hc as (cell' & Hc & Hcell).
    apply list_elem_of_fmap in Hcell as (x & -> & Hx).
    apply elem_of_seqZ in Hx.
    specialize (Hrow x ltac:(lia)). rewrite Forall_forall in Hrow. by apply Hrow.
Qed.

Lemma sayline_blank_witness :
  sent (sayline 1 hello_world) = [u "sblank" ++ [10%N]].
Proof.
  rewrite (sayline_blank 1 hello_world); [reflexivity|reflexivity|].
  intros x Hx. unfold get_data, cell. case_bool_decide; [|by repeat constructor].
  vm_compute. by repeat constructor.
Defined.

(** ** The key dispatcher *)

(** X13: [KeyHandler.add] binds a key that has no binding and never
    replaces one: after any number of additions every key that was bound
    still has the binding that it had, so a plugin shortcut cannot take the
    place of a key of the built-in keymap. *)
Theorem add_keeps_bindings {bound : Type} (additions : list (list N * bound))
    (h : KeyHandler.t bound) (key : list N) :
  let h' := foldl (λ h '(k, f), KeyHandler.add k f h) h additions in
  (∀ f, KeyHandler.keymap h !! key = Some f → KeyHandler.keymap h' !! key = Some f)
  ∧ (KeyHandler.keymap h !! key = None →
     KeyHandler.keymap h' !! key = snd <$> head (filter (λ a, a.1 = key) additions))
  ∧ KeyHandler.fd h' = KeyHandler.fd h
  ∧ KeyHandler.last_key h' = KeyHandler.last_key h.
Proof.
  revert h. induction additions as [|[k g] additions IH]; intros h; cbn [foldl].
  - repeat split; [done|]. by intros ->.
  - destruct (IH (KeyHandler.add k g h)) as (Hkeep & Hnew & Hfd & Hlast). cbv zeta.
    assert (KeyHandler.fd (KeyHandler.add k g h) = KeyHandler.fd h
            ∧ KeyHandler.last_key (KeyHandler.add k g h) = KeyHandler.last_key h)
      as [Hfd' Hlast'].
    { unfold KeyHandler.add. by case_bool_decide. }
    split; [|split; [|split; congruence]].
    + intros f Hf. apply Hkeep. unfold KeyHandler.add. case_bool_decide as Hk; [|done].
      simpl. rewrite lookup_insert_ne; [done|].
      intros ->. apply not_elem_of_dom in Hk. congruence.
    + intros Hnone. destruct (decide (k = key)) as [->|Hne].
      * rewrite filter_cons_True by done. simpl. apply Hkeep.
        unfold KeyHandler.add. rewrite bool_decide_eq_true_2.
        -- simpl. by rewrite lookup_insert_eq.
        -- by apply not_elem_of_dom.
      * rewrite filter_cons_False by done. apply Hnew.
        unfold KeyHandler.add. case_bool_decide; [|done].
        simpl. by rewrite lookup_insert_ne.
Qed.

Section Bookkeeping.
Context {bound Env : Type}.
Variable invoke : bound → Env → option Z * Env.
Variable os_write : option Z → list N → Env → Env.
Variable self_handle_unknown_key :
  KeyHandler.t bound → list N → Env → option Z * Env.

(** Whatever the chunk and whichever branch it takes, [process] leaves the
    handler with the chunk as [last_key] and the time of the call as
    [last_key_time], and with the keymap and the descriptor that it had. *)
Lemma process_records_key (now : float) (data : list N) (h : KeyHandler.t bound)
    (env : Env) :
  let h' := (KeyHandler.process invoke os_write self_handle_unknown_key
               now data h env).1.1 in
  KeyHandler.last_key h' = Some data
  ∧ KeyHandler.last_key_time h' = now
  ∧ KeyHandler.keymap h' = KeyHandler.keymap h
  ∧ KeyHandler.fd h' = KeyHandler.fd h.
Proof.
  unfold KeyHandler.process. cbv zeta.
  change (KeyHandler.keymap (KeyHandler.set_last_key_time now h))
    with (KeyHandler.keymap h).
  case_bool_decide as Hunknown.
  - by destruct (self_handle_unknown_key _ _ _).
  - destruct (_ && _) eqn:Hdouble.
    + apply andb_true_iff in Hdouble as [[_ Hrep]%andb_true_iff _].
      apply bool_decide_eq_true in Hrep. apply elem_of_dom in Hrep as [double ->].
      by destruct (invoke double env).
    + apply elem_of_dom in Hunknown as [single ->].
      by destruct (invoke single env).
Qed.

(** X14: for a key with a double binding, what decides between the two
    bindings is the chunk that the handler processed last, whichever branch
    that took: the same chunk at most 500 ms earlier gives the double
    binding, so a key that is held gives the single binding once and the
    double binding from then on; any other chunk in between, bound or not,
    gives the single binding.  The 500 ms are measured as the code measures
    them: the difference of the two readings, in floats, is at most 0.5. *)
Theorem process_after_any_chunk (now later : float) (data previous : list N)
    (h : KeyHandler.t bound) (env : Env) (single double : bound) :
  KeyHandler.keymap h !! data = Some single →
  KeyHandler.keymap h !! (data ++ data) = Some double →
  let '(h1, _, env1) :=
    KeyHandler.process invoke os_write self_handle_unknown_key now previous h env in
  (previous = data →
   PrimFloat.leb (PrimFloat.sub later now) REPEAT_KEY_TIMEOUT = true →
   KeyHandler.process invoke os_write self_handle_unknown_key later data h1 env1
   = invoked_double invoke double later data h1 env1)
  ∧ (previous ≠ data →
     KeyHandler.process invoke os_write self_handle_unknown_key later data h1 env1
     = invoked_single invoke os_write single later data h1 env1).
Proof.
  intros Hs Hd.
  pose proof (process_records_key now previous h env) as Hrec. cbv zeta in Hrec.
  destruct (KeyHandler.process _ _ _ now previous h env) as [[h1 r1] env1].
  cbn [fst] in Hrec. destruct Hrec as (Hlast & Htime & Hmap & _).
  rewrite <- Hmap in Hs, Hd. split.
  - intros -> Hle. apply (process_double _ _ _ _ _ _ _ single); [done..|].
    by rewrite Htime.
  - intros Hne. apply process_single; [done|]. left. congruence.
Qed.
End Bookkeeping.

(** A key that is held: presses at 0 s, 0.25 s and 0.5 s. *)
Lemma process_after_any_chunk_witness :
  let '(h1, _, log1) :=
    logged_process 0%float ESC_k (KeyHandler.init logged_keymap (Some 3)) [] in
  let '(h2, _, log2) := logged_process 0.25%float ESC_k h1 log1 in
  (logged_process 0.5%float ESC_k h2 log2).2
  = ["sayword"; "sayword(spell=True)"; "sayword(spell=True)"]%string.
Proof.
  destruct (logged_process 0%float ESC_k (KeyHandler.init logged_keymap (Some 3)) [])
    as [[h1 r1] log1] eqn:H1.
  pose proof (process_after_any_chunk (λ (f : string) (log : list string), (None, log ++ [f]))
                (λ _ _ (log : list string), log)
                (KeyHandler.handle_unknown_key (λ _ _ (log : list string), log))
                0.25%float 0.5%float ESC_k ESC_k
                h1 log1 "sayword"%string "sayword(spell=True)"%string) as H.
  vm_compute in H1. injection H1 as <- <- <-.
  specialize (H ltac:(vm_compute; reflexivity) ltac:(vm_compute; reflexivity)).
  change (KeyHandler.process (λ (f : string) (log : list string), (None, log ++ [f]))
            (λ _ _ (log : list string), log)
            (KeyHandler.handle_unknown_key (λ _ _ (log : list string), log)))
    with logged_process in H.
  destruct (logged_process 0.25%float ESC_k _ _) as [[h2 r2] log2] eqn:H2.
  destruct H as [H _]. rewrite H; [|reflexivity|vm_compute; reflexivity].
  vm_compute in H2. injection H2 as <- <- <-. reflexivity.
Defined.

(** ** The synth driver *)

(** What a call of the driver keeps, whether it returns or raises: the
    stored settings, a pipe once there is one, the subprocesses spawned and
    the texts delivered so far. *)
Definition keeps (s : Synth.t) (os : Synth.Os) (r : Synth.result) : Prop :=
  match r with
  | Synth.Ok s' os' | Synth.Raise _ s' os' =>
      Synth.rate s' = Synth.rate s ∧ Synth.volume s' = Synth.volume s
      ∧ Synth.voice_idx s' = Synth.voice_idx s
      ∧ (is_Some (Synth.pipe s) → is_Some (Synth.pipe s'))
      ∧ (Synth.spawned os ≤ Synth.spawned os')%nat
      ∧ (Synth.attempts os ≤ Synth.attempts os')%nat
      ∧ Synth.received os `prefix_of` Synth.received os'
  end.

Lemma keeps_refl s os : keeps s os (Synth.Ok s os).
Proof. by repeat split. Qed.

Lemma keeps_trans s os s1 os1 r :
  keeps s os (Synth.Ok s1 os1) → keeps s1 os1 r → keeps s os r.
Proof.
  unfold keeps. intros (? & ? & ? & ? & ? & ? & ?).
  destruct r; intros (? & ? & ? & ? & ? & ? & ?);
    (repeat split; [congruence|congruence|congruence|auto|lia|lia|by etrans]).
Qed.

Lemma keeps_bind s os r k :
  keeps s os r → (∀ s1 os1, keeps s1 os1 (k s1 os1)) → keeps s os (Synth.bind r k).
Proof.
  intros Hr Hk. destruct r as [s1 os1|e s1 os1]; [|done].
  simpl. eauto using keeps_trans.
Qed.

Lemma keeps_raise s os e s1 os1 e' :
  keeps s os (Synth.Raise e s1 os1) → keeps s os (Synth.Raise e' s1 os1).
Proof. done. Qed.

Section SynthKeeps.
Variable broken : nat → bool.

Lemma keeps_write text s os : keeps s os (Synth.write broken text s os).
Proof.
  unfold Synth.write. destruct (Synth.pipe s) eqn:Hp; [|by repeat split].
  destruct (broken _); unfold keeps; simpl;
    (split_and!; [done|done|done|by eauto|lia|lia|]).
  - done.
  - by apply prefix_app_r.
Qed.

Lemma keeps_start (send : list N → Synth.t → Synth.Os → Synth.result) s os :
  (∀ text s os, keeps s os (send text s os)) → keeps s os (Synth.start send s os).
Proof.
  intros Hsend. unfold Synth.start.
  apply keeps_bind; [apply keeps_bind; [apply keeps_bind|]|].
  - unfold keeps. simpl. split_and!; [done|done|done|by eauto|lia|done|done].
  - intros s1 os1. destruct (Synth.rate s1) as [v|] eqn:Hv; [|apply keeps_refl].
    unfold Synth.set_rate. rewrite <- Hv.
    eapply keeps_trans; [|apply Hsend]. by repeat split.
  - intros s1 os1. destruct (Synth.volume s1) as [v|] eqn:Hv; [|apply keeps_refl].
    unfold Synth.set_volume. rewrite <- Hv.
    eapply keeps_trans; [|apply Hsend]. by repeat split.
  - intros s1 os1. destruct (Synth.voice_idx s1) as [v|] eqn:Hv; [|apply keeps_refl].
    unfold Synth.set_voice_idx. rewrite <- Hv.
    eapply keeps_trans; [|apply Hsend]. by repeat split.
Qed.

(** X15: whatever happens to the pipe, [send] keeps the stored rate, volume
    and voice, keeps a pipe once the driver has one, and never takes back a
    text that a subprocess has received; this holds when it returns and
    when it raises. *)
Theorem send_keeps_settings (depth : nat) (text : list N) (s : Synth.t)
    (os : Synth.Os) :
  keeps s os (Synth.send broken depth text s os).
Proof.
  revert text s os. induction depth as [|depth IH]; intros text s os.
  - by repeat split.
  - cbn [Synth.send].
    pose proof (keeps_write text s os) as Hw.
    destruct (Synth.write broken text s os) as [s1 os1|[] s1 os1]; [done| |done|done].
    assert (keeps s os (Synth.bind (Synth.start (Synth.send broken depth) s1 os1)
                          (Synth.write broken text))) as Hretry.
    { eapply keeps_trans; [exact Hw|].
      apply keeps_bind; [by apply keeps_start|]. intros. apply keeps_write. }
    destruct (Synth.bind _ _) as [s2 os2|[] s2 os2]; done.
Qed.

(** The settings that [start] sends to the subprocess [q], in its order. *)
Definition settings_of (q : nat) (s : Synth.t) : list (nat * list N) :=
  (match Synth.rate s with
   | Some v => [(q, u "r" ++ str_of_Z v ++ [10%N])] | None => [] end)
  ++ (match Synth.volume s with
      | Some v => [(q, u "v" ++ str_of_Z v ++ [10%N])] | None => [] end)
  ++ (match Synth.voice_idx s with
      | Some v => [(q, u "V" ++ str_of_Z v ++ [10%N])] | None => [] end).

Lemma send_delivers depth text s os p :
  Synth.pipe s = Some p → broken (Synth.attempts os) = false →
  Synth.send broken (S depth) text s os
  = Synth.Ok s (Synth.mkOs (Synth.spawned os) (S (Synth.attempts os))
                  (Synth.received os ++ [(p, text)])).
Proof. intros Hp Hb. cbn [Synth.send]. unfold Synth.write. by rewrite Hp, Hb. Qed.

Lemma start_delivers (send : list N → Synth.t → Synth.Os → Synth.result) s os :
  (∀ text s os p, Synth.pipe s = Some p → broken (Synth.attempts os) = false →
     send text s os
     = Synth.Ok s (Synth.mkOs (Synth.spawned os) (S (Synth.attempts os))
                     (Synth.received os ++ [(p, text)]))) →
  (∀ k, (k < 3)%nat → broken (Synth.attempts os + k) = false) →
  let q := Synth.spawned os in
  Synth.start send s os
  = Synth.Ok (Synth.mk (Some q) (Synth.rate s) (Synth.volume s) (Synth.voice_idx s))
      (Synth.mkOs (S q) (Synth.attempts os + length (settings_of q s))
         (Synth.received os ++ settings_of q s)).
Proof.
  intros Hsend Hok q.
  pose proof (Hok 0%nat ltac:(lia)) as H0. pose proof (Hok 1%nat ltac:(lia)) as H1.
  pose proof (Hok 2%nat ltac:(lia)) as H2.
  replace (Synth.attempts os + 0)%nat with (Synth.attempts os) in H0 by lia.
  replace (Synth.attempts os + 1)%nat with (S (Synth.attempts os)) in H1 by lia.
  replace (Synth.attempts os + 2)%nat with (S (S (Synth.attempts os))) in H2 by lia.
  unfold Synth.start, Synth.set_rate, Synth.set_volume, Synth.set_voice_idx, settings_of.
  destruct s as [pi [r|] [v|] [vi|]]; cbn [Synth.bind Synth.rate Synth.volume
    Synth.voice_idx Synth.pipe Synth.spawned Synth.attempts Synth.received];
    repeat (erewrite Hsend by (cbn; first [reflexivity | assumption]);
            cbn [Synth.bind Synth.rate Synth.volume Synth.voice_idx Synth.pipe
                 Synth.spawned Synth.attempts Synth.received]);
    subst q; f_equal; rewrite <- ?app_assoc; cbn [app length];
    rewrite ?app_nil_r; f_equal; lia.
Qed.

(** X16: when a write meets a broken pipe and the writes that follow go
    through, [send] spawns one subprocess, and that subprocess receives the
    stored rate, volume and voice, in this order, and then the text: a
    respawned synth speaks with the settings of the one that it replaces. *)
Theorem send_restores_settings (depth : nat) (text : list N) (s : Synth.t)
    (os : Synth.Os) (p : nat) :
  Synth.pipe s = Some p →
  broken (Synth.attempts os) = true →
  (∀ k, (1 ≤ k ≤ 4)%nat → broken (Synth.attempts os + k) = false) →
  let q := Synth.spawned os in
  Synth.send broken (S (S depth)) text s os
  = Synth.Ok (Synth.mk (Some q) (Synth.rate s) (Synth.volume s) (Synth.voice_idx s))
      (Synth.mkOs (S q) (Synth.attempts os + 2 + length (settings_of q s))
         (Synth.received os ++ settings_of q s ++ [(q, text)])).
Proof.
  intros Hp Hb Hok q.
  assert (length (settings_of q s) ≤ 3)%nat as Hlen.
  { unfold settings_of. rewrite !length_app.
    destruct (Synth.rate s), (Synth.volume s), (Synth.voice_idx s); simpl; lia. }
  change (Synth.send broken (S (S depth)) text s os)
    with (match Synth.write broken text s os with
          | Synth.Raise Synth.BrokenPipeError s os =>
              match Synth.bind (Synth.start (Synth.send broken (S depth)) s os)
                               (Synth.write broken text) with
              | Synth.Raise Synth.BrokenPipeError s os => Synth.Ok s os
              | r => r
              end
          | r => r
          end).
  rewrite (write_broken broken text s os p Hp Hb).
  rewrite start_delivers.
  - cbn [Synth.bind Synth.spawned Synth.attempts Synth.received]. fold q.
    unfold Synth.write. cbn [Synth.pipe Synth.spawned Synth.attempts Synth.received].
    replace (S (Synth.attempts os) + length (settings_of q s))%nat
      with (Synth.attempts os + S (length (settings_of q s)))%nat by lia.
    rewrite Hok by lia. f_equal. f_equal; [lia|by rewrite <- app_assoc].
  - intros. by apply send_delivers.
  - intros k Hk. cbn [Synth.attempts].
    replace (S (Synth.attempts os) + k)%nat with (Synth.attempts os + S k)%nat by lia.
    apply Hok. lia.
Qed.
End SynthKeeps.

Lemma send_restores_settings_witness :
  Synth.send (λ n, bool_decide (n = 0%nat)) 2 (u "shello")
    (Synth.mk (Some 0%nat) (Some 200) None (Some 3)) (Synth.mkOs 1 0 [])
  = Synth.Ok (Synth.mk (Some 1%nat) (Some 200) None (Some 3))
      (Synth.mkOs 2 4 [(1%nat, u "r200" ++ [10%N]); (1%nat, u "V3" ++ [10%N]);
                       (1%nat, u "shello")]).
Proof.
  refine (send_restores_settings (λ n, bool_decide (n = 0%nat)) 0 (u "shello")
            (Synth.mk (Some 0%nat) (Some 200) None (Some 3)) (Synth.mkOs 1 0 [])
            0%nat _ _ _).
  - reflexivity.
  - reflexivity.
  - intros k Hk. simpl. apply bool_decide_eq_false_2. lia.
Defined.

(** * The keyboard side

    What [main] does with a chunk read from the keyboard: [process_input],
    the stack of key handlers with the menus [ConfigHandler], [CopyHandler]
    and [BufferHandler], the callables of the keymap, and the clipboard. *)

(** ** The fields of the state that the keys assign *)

Definition set_silence (v : bool) (s : State.t) : State.t :=
  State.mk (State.revy s) (State.revx s) (State.delayed_functions s) v
    (State.tempsilence s) (State.config s) (State.copy_x s) (State.copy_y s)
    (State.last_drawn_x s) (State.last_drawn_y s) (State.delaying_output s).
Definition set_copy_x (v : option Z) (s : State.t) : State.t :=
  State.mk (State.revy s) (State.revx s) (State.delayed_functions s) (State.silence s)
    (State.tempsilence s) (State.config s) v (State.copy_y s)
    (State.last_drawn_x s) (State.last_drawn_y s) (State.delaying_output s).
Definition set_copy_y (v : option Z) (s : State.t) : State.t :=
  State.mk (State.revy s) (State.revx s) (State.delayed_functions s) (State.silence s)
    (State.tempsilence s) (State.config s) (State.copy_x s) v
    (State.last_drawn_x s) (State.last_drawn_y s) (State.delaying_output s).
Definition set_config (c : Config) (s : State.t) : State.t :=
  State.mk (State.revy s) (State.revx s) (State.delayed_functions s) (State.silence s)
    (State.tempsilence s) c (State.copy_x s) (State.copy_y s)
    (State.last_drawn_x s) (State.last_drawn_y s) (State.delaying_output s).

Definition set_CURSOR_TIMEOUT (v : Z) (w : World) : World :=
  {| state := state w; speech_buffer := speech_buffer w; lastkey := lastkey w;
     screen := screen w; sent := sent w; CURSOR_TIMEOUT := v |}.

(** ** The callables and the handlers *)

(** The callables that the keymaps bind: the functions and lambdas of
    [keymap], the closure that [handle_plugin] returns for a plugin, and the
    bound methods of the two menus. *)
Inductive bound :=
  | b_sayline                        (* lambda: sayline(state.revy) *)
  | b_prevline | b_nextline | b_prevword
  | b_sayword (spell : bool)         (* sayword, lambda: sayword(spell=True) *)
  | b_nextword | b_prevchar
  | b_saychar (phonetically : bool)  (* lambda: saychar(state.revy, state.revx, ...) *)
  | b_nextchar | b_topOfScreen | b_bottomOfScreen | b_startOfLine | b_endOfLine
  | b_config | b_handle_silence | b_handle_clipboard | b_copy_mode | b_silence
  | b_handle_backspace | b_handle_delete
  | b_arrow_up | b_arrow_down | b_arrow_left | b_arrow_right
  | b_plugin (plugin_name : string)  (* handle_plugin(plugin_name) *)
  | b_set_rate | b_set_volume | b_set_voice_idx | b_set_process_symbols
  | b_set_delay | b_set_echo | b_set_cursor_tracking | b_set_line_pause
  | b_set_repeated_symbols
  | b_copy_line | b_copy_screen.

(** The methods that a [BufferHandler] is given as [on_accept]. *)
Inductive acceptor := accept_rate | accept_volume | accept_voice_idx | accept_delay.

(** An object of one of the four classes, with the fields of [KeyHandler]
    and, for a [BufferHandler], its own. *)
Inductive handler :=
  | A_KeyHandler (h : KeyHandler.t bound)
  | A_ConfigHandler (h : KeyHandler.t bound)
  | A_CopyHandler (h : KeyHandler.t bound)
  | A_BufferHandler (on_accept : acceptor) (buffer : str) (h : KeyHandler.t bound).

(** The numbers that the configuration menu stores in the [speech] section:
    [rate], [volume], [voice_idx], and [cursor_delay], a time. *)
Record Numbers := {
  speech_rate : option Z;
  speech_volume : option Z;
  speech_voice_idx : option Z;
  speech_cursor_delay : option Z
}.

(** What the keyboard side acts on, besides the globals of [World]: the
    stack [state.key_handlers], the settings that the synth driver stores,
    the configuration file as [save_config] wrote it last, the chunks
    written with [os.write], and the texts given to a clipboard command. *)
Record Session := {
  world : World;
  key_handlers : list handler;
  synth : Synth.t;
  numbers : Numbers;
  config_file : option (Config * Numbers);
  written : list (Z * list N);
  clipboard : list (list string * str)
}.

Definition with_world (f : World → World) (s : Session) : Session :=
  {| world := f (world s); key_handlers := key_handlers s; synth := synth s;
     numbers := numbers s; config_file := config_file s; written := written s;
     clipboard := clipboard s |}.
Definition set_key_handlers (v : list handler) (s : Session) : Session :=
  {| world := world s; key_handlers := v; synth := synth s;
     numbers := numbers s; config_file := config_file s; written := written s;
     clipboard := clipboard s |}.
Definition set_synth (v : Synth.t) (s : Session) : Session :=
  {| world := world s; key_handlers := key_handlers s; synth := v;
     numbers := numbers s; config_file := config_file s; written := written s;
     clipboard := clipboard s |}.
Definition set_numbers (v : Numbers) (s : Session) : Session :=
  {| world := world s; key_handlers := key_handlers s; synth := synth s;
     numbers := v; config_file := config_file s; written := written s;
     clipboard := clipboard s |}.
Definition set_written (v : list (Z * list N)) (s : Session) : Session :=
  {| world := world s; key_handlers := key_handlers s; synth := synth s;
     numbers := numbers s; config_file := config_file s; written := v;
     clipboard := clipboard s |}.
Definition set_clipboard (v : list (list string * str)) (s : Session) : Session :=
  {| world := world s; key_handlers := key_handlers s; synth := synth s;
     numbers := numbers s; config_file := config_file s; written := written s;
     clipboard := v |}.

(** [State.save_config] *)
Definition save_config (s : Session) : Session :=
  {| world := world s; key_handlers := key_handlers s; synth := synth s;
     numbers := numbers s; config_file := Some (speech (world s), numbers s);
     written := written s; clipboard := clipboard s |}.

(** [state.key_handlers.append(h)] *)
Definition push (h : handler) (s : Session) : Session :=
  set_key_handlers (key_handlers s ++ [h]) s.

(** What can escape from a key: the [TypeError] of the speech functions, the
    [UnicodeDecodeError] of a strict decoding, and the [IndexError] of
    [state.key_handlers[-1]]. *)
Inductive raised := Exn (e : exn) | UnicodeDecodeError | IndexError.

Inductive reply := Done (s : Session) | Fails (e : raised) (s : Session).

Definition session (r : reply) : Session :=
  match r with Done s | Fails _ s => s end.

Definition run (c : World → outcome) (s : Session) : reply :=
  match c (world s) with
  | Returns w => Done (with_world (λ _, w) s)
  | Raises e w => Fails (Exn e) (with_world (λ _, w) s)
  end.

(** [os.write(fd, data)]; a descriptor that is [None] is refused. *)
Definition os_write (fd : option Z) (data : list N) (r : reply) : reply :=
  match r with
  | Done s =>
      match fd with
      | Some fd => Done (set_written (written s ++ [(fd, data)]) s)
      | None => Fails (Exn TypeError) s
      end
  | Fails e s => Fails e s
  end.

(** ** The clipboard *)

(** The desktop that [copy_to_clip] finds: [platform.system()], the
    environment variable [XDG_SESSION_TYPE], and whether a command can be
    started and written to. *)
Record Desktop := {
  platform_system : string;
  XDG_SESSION_TYPE : option string;
  can_run : list string → bool
}.

(** [str.encode('utf-8')] refuses the surrogates. *)
Definition encodable (data : str) : bool :=
  forallb (λ c, negb ((55296 <=? c) && (c <=? 57343))%N) data.

(** ["\n".join(buf)] *)
Fixpoint join_lines (buf : list str) : str :=
  match buf with
  | [] => []
  | [line] => line
  | line :: rest => line ++ [10%N] ++ join_lines rest
  end.

Section Clipboard.
Variable desktop : Desktop.
(** The property [display] of [pyte.Screen], which [copy_text] reads and
    does not use: whether reading it returns. *)
Variable super_display : Screen → bool.

(** [copy_to_clip]: the session with the text given to the command of the
    desktop, if it has one; [None] when the function raises. *)
Definition copy_to_clip (data : str) (s : Session) : option Session :=
  if encodable data then
    let proc_args :=
      if String.eqb (platform_system desktop) "Darwin" then ["pbcopy"]%string
      else if String.eqb (platform_system desktop) "Linux" then
        if bool_decide (XDG_SESSION_TYPE desktop = Some "wayland"%string)
        then ["wl-copy"]%string
        else ["xclip"; "-selection"; "clip"]%string
      else [] in
    match proc_args with
    | [] => Some s
    | _ => if can_run desktop proc_args
           then Some (set_clipboard (clipboard s ++ [(proc_args, data)]) s)
           else None
    end
  else None.

(** The text that [copy_text] builds: the rows from [start_y] to [end_y],
    the first from [start_x], the last up to [end_x], the others whole, each
    without its trailing white space, joined by newlines. *)
Definition copy_text_buf (w : World) (start_y start_x end_y end_x : Z) : str :=
  let '(start_x, end_x) :=
    if bool_decide (start_x > end_x) then (end_x, start_x) else (start_x, end_x) in
  let '(start_y, end_y) :=
    if bool_decide (start_y > end_y) then (end_y, start_y) else (start_y, end_y) in
  join_lines
    ((λ y,
        let end_ := if bool_decide (y < end_y) then columns (base (screen w)) - 1
                    else end_x in
        let start := if bool_decide (y > start_y) then 0 else start_x in
        rstrip (mjoin ((λ x, get_data w y x) <$> seqZ start (end_ + 1 - start))))
       <$> seqZ start_y (end_y + 1 - start_y)).

Definition copy_text (start_y start_x end_y end_x : Z) (s : Session) : option Session :=
  if super_display (base (screen (world s)))
  then copy_to_clip (copy_text_buf (world s) start_y start_x end_y end_x) s
  else None.

(** [handle_clipboard]: the first press keeps the review cursor, the second
    copies from there to the review cursor. *)
Definition handle_clipboard (s : Session) : Session :=
  let w := world s in
  match State.copy_x (state w) with
  | None =>
      with_world (λ w, say (u "select") false
                         (with_state (λ st, set_copy_y (Some (revy w))
                                              (set_copy_x (Some (revx w)) st)) w)) s
  | Some copy_x =>
      let '(end_x, end_y) := (revx w, revy w) in
      let s :=
        match State.copy_y (state w) ≫= (λ copy_y, copy_text copy_y copy_x end_y end_x s) with
        | Some s' => with_world (say (u "copied") false) s'
        | None => with_world (say (u "Failed") false) s
        end in
      with_world (with_state (set_copy_x None)) s
  end.

End Clipboard.

Module CopyHandler.
Definition keymap : gmap (list N) bound :=
  list_to_map [(u "l", b_copy_line); (u "s", b_copy_screen)].

(** [CopyHandler()] *)
Definition new : handler := A_CopyHandler (KeyHandler.init keymap None).

Section Methods.
Variable desktop : Desktop.
Variable super_display : Screen → bool.

Definition copy_line (s : Session) : option Z * reply :=
  let w := world s in
  (Some KeyHandler.REMOVE,
   Done match copy_text desktop super_display (revy w) 0 (revy w)
                        (columns (base (screen w)) - 1) s with
        | Some s' => with_world (say (u "line") false) s'
        | None => with_world (say (u "Failed") false) s
        end).

Definition copy_screen (s : Session) : option Z * reply :=
  let w := world s in
  (Some KeyHandler.REMOVE,
   Done match copy_text desktop super_display 0 0 (lines (base (screen w)) - 1)
                        (columns (base (screen w)) - 1) s with
        | Some s' => with_world (say (u "screen") false) s'
        | None => with_world (say (u "Failed") false) s
        end).

Definition handle_unknown_key (h : KeyHandler.t bound) (data : list N) (r : reply)
    : option Z * reply :=
  match r with
  | Done s => (Some KeyHandler.REMOVE, Done (with_world (say (u "unknown key") false) s))
  | Fails e s => (None, Fails e s)
  end.
End Methods.
End CopyHandler.

(** ** The configuration menu *)

Definition with_config (f : Config → Config) (s : Session) : Session :=
  with_world (with_state (λ st, set_config (f (State.config st)) st)) s.

Module ConfigHandler.
Definition keymap : gmap (list N) bound :=
  list_to_map
    [(u "r", b_set_rate); (u "v", b_set_volume); (u "V", b_set_voice_idx);
     (u "p", b_set_process_symbols); (u "d", b_set_delay); (u "e", b_set_echo);
     (u "c", b_set_cursor_tracking); (u "l", b_set_line_pause);
     (u "s", b_set_repeated_symbols)].

(** [ConfigHandler()] *)
Definition new : handler := A_ConfigHandler (KeyHandler.init keymap None).

(** [BufferHandler(on_accept=...)] *)
Definition new_buffer (on_accept : acceptor) : handler :=
  A_BufferHandler on_accept [] (KeyHandler.init ∅ None).

Definition set_rate (s : Session) : Session :=
  push (new_buffer accept_rate) (with_world (say (u "Rate") false) s).
Definition set_volume (s : Session) : Session :=
  push (new_buffer accept_volume) (with_world (say (u "volume") false) s).
Definition set_voice_idx (s : Session) : Session :=
  push (new_buffer accept_voice_idx) (with_world (say (u "voice index") false) s).
Definition set_delay (s : Session) : Session :=
  push (new_buffer accept_delay) (with_world (say (u "Cursor delay") false) s).

(** The five switches: the option is inverted, stored, saved and
    announced. *)
Definition set_process_symbols (s : Session) : Session :=
  let current := negb (process_symbols (speech (world s))) in
  let s := with_config (λ c,
    {| process_symbols := current; key_echo := key_echo c;
       cursor_tracking := cursor_tracking c; line_pause := line_pause c;
       repeated_symbols := repeated_symbols c;
       repeated_symbols_values := repeated_symbols_values c; symbols := symbols c |}) s in
  let s := save_config s in
  with_world (say (if current then u "process symbols on" else u "process symbols off")
                  false) s.

Definition set_echo (s : Session) : Session :=
  let current := negb (key_echo (speech (world s))) in
  let s := with_config (λ c,
    {| process_symbols := process_symbols c; key_echo := current;
       cursor_tracking := cursor_tracking c; line_pause := line_pause c;
       repeated_symbols := repeated_symbols c;
       repeated_symbols_values := repeated_symbols_values c; symbols := symbols c |}) s in
  let s := save_config s in
  with_world (say (if current then u "character echo on" else u "character echo off")
                  false) s.

Definition set_cursor_tracking (s : Session) : Session :=
  let current := negb (cursor_tracking (speech (world s))) in
  let s := with_config (λ c,
    {| process_symbols := process_symbols c; key_echo := key_echo c;
       cursor_tracking := current; line_pause := line_pause c;
       repeated_symbols := repeated_symbols c;
       repeated_symbols_values := repeated_symbols_values c; symbols := symbols c |}) s in
  let s := save_config s in
  with_world (say (if current then u "cursor tracking on" else u "cursor tracking off")
                  false) s.

Definition set_line_pause (s : Session) : Session :=
  let current := negb (line_pause (speech (world s))) in
  let s := with_config (λ c,
    {| process_symbols := process_symbols c; key_echo := key_echo c;
       cursor_tracking := cursor_tracking c; line_pause := current;
       repeated_symbols := repeated_symbols c;
       repeated_symbols_values := repeated_symbols_values c; symbols := symbols c |}) s in
  let s := save_config s in
  with_world (say (if current then u "line pause on" else u "line pause off") false) s.

Definition set_repeated_symbols (s : Session) : Session :=
  let current := negb (repeated_symbols (speech (world s))) in
  let s := with_config (λ c,
    {| process_symbols := process_symbols c; key_echo := key_echo c;
       cursor_tracking := cursor_tracking c; line_pause := line_pause c;
       repeated_symbols := current;
       repeated_symbols_values := repeated_symbols_values c; symbols := symbols c |}) s in
  let s := save_config s in
  with_world (say (if current then u "repeated symbols on" else u "repeated symbols off")
                  false) s.

Section Numbers.
(** [int(val)] for the text typed in the menu; [None] is [ValueError]. *)
Variable int : str → option Z.

Definition set_rate2 (val : str) (s : Session) : Session :=
  match int val with
  | None => with_world (say (u "Invalid value") false) s
  | Some val =>
      (* synth.set_rate(val) *)
      let s := set_synth (Synth.mk (Synth.pipe (synth s)) (Some val)
                            (Synth.volume (synth s)) (Synth.voice_idx (synth s))) s in
      let s := with_world (synth_send (u "r" ++ str_of_Z val ++ [10%N])) s in
      let s := set_numbers {| speech_rate := Some val;
                              speech_volume := speech_volume (numbers s);
                              speech_voice_idx := speech_voice_idx (numbers s);
                              speech_cursor_delay := speech_cursor_delay (numbers s) |} s in
      let s := save_config s in
      with_world (say (u "Confirmed") false) s
  end.

Definition set_volume2 (val : str) (s : Session) : Session :=
  match int val with
  | None => with_world (say (u "Invalid value") false) s
  | Some val =>
      (* synth.set_volume(val) *)
      let s := set_synth (Synth.mk (Synth.pipe (synth s)) (Synth.rate (synth s))
                            (Some val) (Synth.voice_idx (synth s))) s in
      let s := with_world (synth_send (u "v" ++ str_of_Z val ++ [10%N])) s in
      let s := set_numbers {| speech_rate := speech_rate (numbers s);
                              speech_volume := Some val;
                              speech_voice_idx := speech_voice_idx (numbers s);
                              speech_cursor_delay := speech_cursor_delay (numbers s) |} s in
      let s := save_config s in
      with_world (say (u "Confirmed") false) s
  end.

Definition set_voice_idx2 (val : str) (s : Session) : Session :=
  match int val with
  | None => with_world (say (u "Invalid value") false) s
  | Some val =>
      (* synth.set_voice_idx(val) *)
      let s := set_synth (Synth.mk (Synth.pipe (synth s)) (Synth.rate (synth s))
                            (Synth.volume (synth s)) (Some val)) s in
      let s := with_world (synth_send (u "V" ++ str_of_Z val ++ [10%N])) s in
      let s := set_numbers {| speech_rate := speech_rate (numbers s);
                              speech_volume := speech_volume (numbers s);
                              speech_voice_idx := Some val;
                              speech_cursor_delay := speech_cursor_delay (numbers s) |} s in
      let s := save_config s in
      with_world (say (u "Confirmed") false) s
  end.

(** [val /= 1000]: the number typed is in milliseconds, the times of the
    embedding are in microseconds. *)
Definition set_delay2 (val : str) (s : Session) : Session :=
  match int val with
  | None => with_world (say (u "Invalid value") false) s
  | Some val =>
      let val := val * 1000 in
      let s := with_world (set_CURSOR_TIMEOUT val) s in
      let s := set_numbers {| speech_rate := speech_rate (numbers s);
                              speech_volume := speech_volume (numbers s);
                              speech_voice_idx := speech_voice_idx (numbers s);
                              speech_cursor_delay := Some val |} s in
      let s := save_config s in
      with_world (say (u "Confirmed") false) s
  end.

(** [self.on_accept(self.buffer)] *)
Definition accept (on_accept : acceptor) : str → Session → Session :=
  match on_accept with
  | accept_rate => set_rate2
  | accept_volume => set_volume2
  | accept_voice_idx => set_voice_idx2
  | accept_delay => set_delay2
  end.
End Numbers.

Definition handle_unknown_key (h : KeyHandler.t bound) (data : list N) (r : reply)
    : option Z * reply :=
  match r with
  | Done s =>
      if bool_decide (data = [13%N]) || bool_decide (data = [10%N])
      then (Some KeyHandler.REMOVE, Done (with_world (say (u "exit") false) s))
      else (None, Done s)
  | Fails e s => (None, Fails e s)
  end.
End ConfigHandler.

Module BufferHandler.
Section Process.
Variable int : str → option Z.
(** [data.decode('utf-8')]; [None] is [UnicodeDecodeError]. *)
Variable decode : list N → option str.

Definition process (data : list N) (on_accept : acceptor) (buffer : str)
    (h : KeyHandler.t bound) (s : Session) : handler * option Z * reply :=
  if bool_decide (data = [13%N]) || bool_decide (data = [10%N]) then
    (A_BufferHandler on_accept buffer h, Some KeyHandler.REMOVE,
     Done (ConfigHandler.accept int on_accept buffer s))
  else
    match decode data with
    | Some text => (A_BufferHandler on_accept (buffer ++ text) h, None, Done s)
    | None => (A_BufferHandler on_accept buffer h, None, Fails UnicodeDecodeError s)
    end.
End Process.
End BufferHandler.

(** ** The functions of the keymap *)

Definition config (s : Session) : Session :=
  push ConfigHandler.new (with_world (say (u "config") false) s).

Definition copy_mode (s : Session) : Session :=
  push CopyHandler.new (with_world (say (u "copy") false) s).

Definition handle_silence (w : World) : World :=
  let w := with_state (λ st, set_silence (negb (State.silence st)) st) w in
  say (if State.silence (state w) then u "quiet on" else u "quiet off") false w.

(** [handle_backspace] and [handle_delete] answer [PASSTHROUGH] when they
    return. *)
Definition handle_backspace (w : World) : option Z * outcome :=
  let x := cursor_x (cursor (base (screen w))) in
  let o := if bool_decide (x > 0)
           then say_character (get_data w (cursor_y (cursor (base (screen w))))
                                       (cursor_x (cursor (base (screen w))) - 1)) w
           else Returns w in
  (match o with Returns _ => Some KeyHandler.PASSTHROUGH | Raises _ _ => None end, o).

Definition handle_delete (w : World) : option Z * outcome :=
  let o := say_character (get_data w (cursor_y (cursor (base (screen w))))
                                   (cursor_x (cursor (base (screen w))))) w in
  (match o with Returns _ => Some KeyHandler.PASSTHROUGH | Raises _ _ => None end, o).

(** The arrow keys: the line or the character under the cursor is spoken
    once the child has moved the cursor, [CURSOR_TIMEOUT] from [now]. *)
Definition arrow_up (now : Z) (w : World) : option Z * World :=
  (Some KeyHandler.PASSTHROUGH, schedule now (CURSOR_TIMEOUT w) sayline_at_cursor true w).
Definition arrow_down (now : Z) (w : World) : option Z * World :=
  (Some KeyHandler.PASSTHROUGH, schedule now (CURSOR_TIMEOUT w) sayline_at_cursor true w).
Definition arrow_left (now : Z) (w : World) : option Z * World :=
  (Some KeyHandler.PASSTHROUGH, schedule now (CURSOR_TIMEOUT w) saychar_at_cursor true w).
Definition arrow_right (now : Z) (w : World) : option Z * World :=
  (Some KeyHandler.PASSTHROUGH, schedule now (CURSOR_TIMEOUT w) saychar_at_cursor true w).

(** [keymap]; [ESC] is the byte 27. *)
Definition ESC (s : string) : list N := 27%N :: u s.

Definition keymap : gmap (list N) bound :=
  list_to_map
    [(ESC "i", b_sayline);
     (ESC "u", b_prevline);
     (ESC "o", b_nextline);
     (ESC "j", b_prevword);
     (ESC "k", b_sayword false);
     (ESC "k" ++ ESC "k", b_sayword true);
     (ESC "l", b_nextword);
     (ESC "m", b_prevchar);
     (ESC ",", b_saychar false);
     (ESC "," ++ ESC ",", b_saychar true);
     (ESC ".", b_nextchar);
     (ESC "U", b_topOfScreen);
     (ESC "O", b_bottomOfScreen);
     (ESC "M", b_startOfLine);
     (ESC ">", b_endOfLine);
     (ESC ":", b_endOfLine);
     (ESC "c", b_config);
     (ESC "q", b_handle_silence);
     (ESC "r", b_handle_clipboard);
     (ESC "v", b_copy_mode);
     (ESC "x", b_silence);
     ([8%N], b_handle_backspace);
     ([127%N], b_handle_backspace);
     (ESC "[3~", b_handle_delete);
     (ESC "[A", b_arrow_up);
     (ESC "[B", b_arrow_down);
     (ESC "[C", b_arrow_right);
     (ESC "[D", b_arrow_left);
     (ESC "OA", b_arrow_up);
     (ESC "OB", b_arrow_down);
     (ESC "OC", b_arrow_right);
     (ESC "OD", b_arrow_left)].

(** ** process_input *)

(** [re.match(br'\033\[\d+;\d+R', bytes)]: the chunk begins with a cursor
    position report. *)
Fixpoint skip_digits (s : list N) : list N :=
  match s with
  | c :: s' => if bool_decide (48 ≤ c ≤ 57)%N then skip_digits s' else s
  | [] => []
  end.

(** [\d+] and then the byte [c]: what follows them. *)
Definition digits_then (c : N) (s : list N) : option (list N) :=
  match s with
  | d :: _ =>
      if bool_decide (48 ≤ d ≤ 57)%N then
        match skip_digits s with
        | c' :: rest => if bool_decide (c' = c) then Some rest else None
        | [] => None
        end
      else None
  | [] => None
  end.

Definition is_cursor_position_report (bytes : list N) : bool :=
  match bytes with
  | 27%N :: 91%N :: s =>
      match digits_then 59 s ≫= digits_then 82 with
      | Some _ => true
      | None => false
      end
  | _ => false
  end.

Section Keyboard.
(** What the keyboard side takes from outside the module: [wcwidth], the
    clipboard of the desktop, [pyte]'s [display], what the closure of a
    plugin does ([handle] reads the screen, speaks, and catches what the
    plugin raises), [int] on a text, and the two ways of decoding. *)
Variable wcwidth : list N → option Z.
Variable desktop : Desktop.
Variable super_display : Screen → bool.
Variable plugin_handle : string → World → World.
Variable int : str → option Z.
Variable decode : list N → option str.          (* bytes.decode('utf-8') *)
Variable decode_replace : list N → str.         (* bytes.decode('utf-8', 'replace') *)

(** Calling a callable of a keymap, at the time [now] that [schedule]
    reads. *)
Definition invoke (now : Z) (b : bound) (r : reply) : option Z * reply :=
  match r with
  | Fails e s => (None, Fails e s)
  | Done s =>
      match b with
      | b_sayline => (None, Done (with_world (λ w, sayline (revy w) w) s))
      | b_prevline => (None, Done (with_world prevline s))
      | b_nextline => (None, Done (with_world nextline s))
      | b_prevword => (None, Done (with_world prevword s))
      | b_sayword spell => (None, Done (with_world (sayword spell) s))
      | b_nextword => (None, Done (with_world nextword s))
      | b_prevchar => (None, run prevchar s)
      | b_saychar phonetically =>
          (None, run (λ w, saychar (revy w) (revx w) phonetically w) s)
      | b_nextchar => (None, run (nextchar wcwidth) s)
      | b_topOfScreen => (None, Done (with_world topOfScreen s))
      | b_bottomOfScreen => (None, Done (with_world bottomOfScreen s))
      | b_startOfLine => (None, run startOfLine s)
      | b_endOfLine => (None, run endOfLine s)
      | b_config => (None, Done (config s))
      | b_handle_silence => (None, Done (with_world handle_silence s))
      | b_handle_clipboard => (None, Done (handle_clipboard desktop super_display s))
      | b_copy_mode => (None, Done (copy_mode s))
      | b_silence => (None, Done (with_world silence s))
      | b_handle_backspace =>
          ((handle_backspace (world s)).1, run (λ w, (handle_backspace w).2) s)
      | b_handle_delete =>
          ((handle_delete (world s)).1, run (λ w, (handle_delete w).2) s)
      | b_arrow_up =>
          ((arrow_up now (world s)).1, Done (with_world (λ w, (arrow_up now w).2) s))
      | b_arrow_down =>
          ((arrow_down now (world s)).1, Done (with_world (λ w, (arrow_down now w).2) s))
      | b_arrow_left =>
          ((arrow_left now (world s)).1, Done (with_world (λ w, (arrow_left now w).2) s))
      | b_arrow_right =>
          ((arrow_right now (world s)).1, Done (with_world (λ w, (arrow_right now w).2) s))
      | b_plugin plugin_name => (None, Done (with_world (plugin_handle plugin_name) s))
      | b_set_rate => (None, Done (ConfigHandler.set_rate s))
      | b_set_volume => (None, Done (ConfigHandler.set_volume s))
      | b_set_voice_idx => (None, Done (ConfigHandler.set_voice_idx s))
      | b_set_process_symbols => (None, Done (ConfigHandler.set_process_symbols s))
      | b_set_delay => (None, Done (ConfigHandler.set_delay s))
      | b_set_echo => (None, Done (ConfigHandler.set_echo s))
      | b_set_cursor_tracking => (None, Done (ConfigHandler.set_cursor_tracking s))
      | b_set_line_pause => (None, Done (ConfigHandler.set_line_pause s))
      | b_set_repeated_symbols => (None, Done (ConfigHandler.set_repeated_symbols s))
      | b_copy_line => CopyHandler.copy_line desktop super_display s
      | b_copy_screen => CopyHandler.copy_screen desktop super_display s
      end
  end.

(** [handler.process(data)], by the class of the handler.  [key_time] is
    the time that [KeyHandler.process] reads, [now] the time that [schedule]
    reads in a callable. *)
Definition handler_process (key_time : float) (now : Z) (data : list N) (top : handler)
    (s : Session) : handler * option Z * reply :=
  match top with
  | A_KeyHandler h =>
      let '(h, res, r) :=
        KeyHandler.process (invoke now) os_write (KeyHandler.handle_unknown_key os_write)
          key_time data h (Done s) in
      (A_KeyHandler h, res, r)
  | A_ConfigHandler h =>
      let '(h, res, r) :=
        KeyHandler.process (invoke now) os_write ConfigHandler.handle_unknown_key
          key_time data h (Done s) in
      (A_ConfigHandler h, res, r)
  | A_CopyHandler h =>
      let '(h, res, r) :=
        KeyHandler.process (invoke now) os_write CopyHandler.handle_unknown_key
          key_time data h (Done s) in
      (A_CopyHandler h, res, r)
  | A_BufferHandler on_accept buffer h =>
      BufferHandler.process int decode data on_accept buffer h s
  end.

(** The fields of the handler when [process] is left by an exception: the
    time of the key is stored at once, the key itself before
    [handle_unknown_key] and after a callable of the keymap. *)
Definition left_by_exception (key_time : float) (data : list N) (top : handler)
    : handler :=
  let fields (h : KeyHandler.t bound) :=
    let h := KeyHandler.set_last_key_time key_time h in
    if bool_decide (data ∉ dom (KeyHandler.keymap h)) then KeyHandler.set_last_key data h
    else h in
  match top with
  | A_KeyHandler h => A_KeyHandler (fields h)
  | A_ConfigHandler h => A_ConfigHandler (fields h)
  | A_CopyHandler h => A_CopyHandler (fields h)
  | A_BufferHandler on_accept buffer h => top
  end.

(** The handler that processes the chunk is the last of the stack when the
    call begins; what the call appends comes after it, so the object keeps
    its place [i], where its fields are updated. *)
Definition process_input (key_time : float) (now : Z) (bytes : list N) (fd : Z)
    (s : Session) : reply :=
  if is_cursor_position_report bytes then os_write (Some fd) bytes (Done s)
  else
    let s := with_world (set_lastkey []) s in
    let s := with_world silence s in
    let s := with_world (with_state (State.set_delayed_functions [])) s in
    let s := with_world (with_state (State.set_tempsilence false)) s in
    match last (key_handlers s) with
    | None => Fails IndexError s
    | Some top =>
        let i := (length (key_handlers s) - 1)%nat in
        let '(top', res, r) := handler_process key_time now bytes top s in
        match r with
        | Fails e s =>
            Fails e (set_key_handlers
                       (<[i := left_by_exception key_time bytes top]> (key_handlers s)) s)
        | Done s =>
            let s := set_key_handlers (<[i := top']> (key_handlers s)) s in
            let s := if bool_decide (res = Some KeyHandler.REMOVE)
                     then set_key_handlers (removelast (key_handlers s)) s else s in
            Done (with_world (set_lastkey (decode_replace bytes)) s)
        end
    end.
End Keyboard.

(** ** The main loop *)

(** [main], the branch of a change of the window size: [rows] and [cols]
    are what [resize_terminal] returns, [super_resize] is
    [pyte.Screen.resize]. *)
Definition resized (super_resize : Z → Z → Screen → Screen) (rows cols : Z)
    (w : World) : World :=
  let old_x := cursor_x (cursor (base (screen w))) in
  let old_y := cursor_y (cursor (base (screen w))) in
  let w := with_screen (with_base (super_resize rows cols)) w in
  let w := set_revx (Z.min (revx w) (cols - 1)) w in
  let w := set_revy (Z.min (revy w) (rows - 1)) w in
  with_screen
    (with_base (λ s,
       set_cursor {| cursor_x := Z.min old_x (cols - 1);
                     cursor_y := Z.min old_y (rows - 1);
                     cursor_attrs := cursor_attrs (cursor s);
                     hidden := hidden (cursor s) |} s)) w.

Section MainLoop.
Variable super : Pyte.
Variable super_resize : Z → Z → Screen → Screen.
Variable wcwidth : list N → option Z.
Variable desktop : Desktop.
Variable super_display : Screen → bool.
Variable plugin_handle : string → World → World.
Variable int : str → option Z.
Variable decode : list N → option str.
Variable decode_replace : list N → str.

(** The states of [main] at the top of its loop, each with a time that no
    reading of the clock so far exceeds.  The loop starts with nothing
    scheduled; a turn of it handles a change of the window size, a chunk
    from the keyboard, a chunk from the child, and runs what is due, and
    the clock never goes back. *)
Inductive reachable : Z → Session → Prop :=
  | reachable_start t s :
      State.delayed_functions (state (world s)) = [] →
      State.tempsilence (state (world s)) = false →
      reachable t s
  | reachable_resized t s rows cols :
      reachable t s →
      reachable t (with_world (resized super_resize rows cols) s)
  | reachable_process_input t s key_time now bytes fd :
      reachable t s → t ≤ now →
      reachable now
        (session (process_input wcwidth desktop super_display plugin_handle int decode
                    decode_replace key_time now bytes fd s))
  | reachable_child_output t s now events :
      reachable t s → t ≤ now →
      reachable now (with_world (λ w, final (child_output super now events w)) s)
  | reachable_run_scheduled t s now :
      reachable t s → t ≤ now →
      reachable now (with_world (λ w, final (run_scheduled now w)) s).
End MainLoop.

(** * Properties of the keyboard side *)

(** ** The clipboard *)

(** X17: the text that [copy_text] builds depends on the two corners only
    through the smaller and the larger of their rows and of their columns:
    the corners can be given in either order, and so can their columns. *)
Theorem copy_text_buf_corners (w : World) (y1 x1 y2 x2 : Z) :
  copy_text_buf w y1 x1 y2 x2
  = copy_text_buf w (Z.min y1 y2) (Z.min x1 x2) (Z.max y1 y2) (Z.max x1 x2)
  ∧ copy_text_buf w y2 x2 y1 x1 = copy_text_buf w y1 x1 y2 x2
  ∧ copy_text_buf w y1 x2 y2 x1 = copy_text_buf w y1 x1 y2 x2.
Proof.
  assert (∀ y1 x1 y2 x2,
    copy_text_buf w y1 x1 y2 x2
    = copy_text_buf w (Z.min y1 y2) (Z.min x1 x2) (Z.max y1 y2) (Z.max x1 x2)) as H.
  { clear. intros y1 x1 y2 x2. unfold copy_text_buf.
    rewrite (bool_decide_eq_false_2 (Z.min x1 x2 > Z.max x1 x2)) by lia.
    rewrite (bool_decide_eq_false_2 (Z.min y1 y2 > Z.max y1 y2)) by lia.
    destruct (decide (x1 > x2)), (decide (y1 > y2));
      rewrite ?(bool_decide_eq_true_2 (x1 > x2)), ?(bool_decide_eq_false_2 (x1 > x2)),
        ?(bool_decide_eq_true_2 (y1 > y2)), ?(bool_decide_eq_false_2 (y1 > y2)) by done;
      cbv beta iota;
      repeat first [rewrite Z.min_l by lia | rewrite Z.min_r by lia
                   | rewrite Z.max_l by lia | rewrite Z.max_r by lia]; done. }
  split; [apply H|]. split.
  - rewrite (H y2 x2 y1 x1), (H y1 x1 y2 x2).
    by rewrite (Z.min_comm y2), (Z.min_comm x2), (Z.max_comm y2), (Z.max_comm x2).
  - rewrite (H y1 x2 y2 x1), (H y1 x1 y2 x2).
    by rewrite (Z.min_comm x2), (Z.max_comm x2).
Qed.

Lemma lstrip_idemp s : lstrip (lstrip s) = lstrip s.
Proof.
  induction s as [|c s IH]; [done|]. simpl. destruct (isspace c) eqn:Hc; [done|].
  simpl. by rewrite Hc.
Qed.

Lemma rstrip_idemp s : rstrip (rstrip s) = rstrip s.
Proof. unfold rstrip. by rewrite reverse_involutive, lstrip_idemp. Qed.

Lemma lstrip_nil_inv s : lstrip s = [] → Forall (λ c, isspace c = true) s.
Proof.
  induction s as [|c s IH]; [done|]. simpl.
  destruct (isspace c) eqn:Hc; [|done]. intros H. constructor; auto.
Qed.

Lemma lstrip_app_keeps s t :
  lstrip s ≠ [] → lstrip (s ++ t) = lstrip s ++ t.
Proof.
  induction s as [|c s IH]; [done|]. simpl. destruct (isspace c); [exact IH|done].
Qed.

Lemma lstrip_app_spaces s t :
  Forall (λ c, isspace c = true) s → lstrip (s ++ t) = lstrip t.
Proof. induction 1 as [|c s Hc _ IH]; [done|]. simpl. by rewrite Hc. Qed.

Lemma rstrip_cons c s :
  rstrip (c :: s)
  = if isspace c && bool_decide (rstrip s = []) then [] else c :: rstrip s.
Proof.
  unfold rstrip. rewrite reverse_cons.
  destruct (decide (lstrip (reverse s) = [])) as [Hall|Hsome].
  - rewrite lstrip_app_spaces by by apply lstrip_nil_inv.
    rewrite Hall. rewrite bool_decide_eq_true_2 by done. simpl.
    by destruct (isspace c).
  - rewrite lstrip_app_keeps by done. rewrite reverse_app.
    rewrite bool_decide_eq_false_2; [by rewrite andb_false_r|].
    intros H. apply Hsome. by rewrite <- (reverse_involutive (lstrip _)), H.
Qed.

(** Stripping the left and the right in either order. *)
Lemma lstrip_rstrip s : lstrip (rstrip s) = strip s.
Proof.
  unfold strip. induction s as [|c s IH]; [done|].
  rewrite rstrip_cons. cbn [lstrip]. destruct (isspace c) eqn:Hc.
  - case_bool_decide as Hnil; cbn [andb].
    + rewrite <- IH, Hnil. done.
    + cbn [lstrip]. by rewrite Hc.
  - cbn [andb lstrip]. rewrite Hc. by rewrite rstrip_cons, Hc.
Qed.

(** X18: [copy_line] takes the row of the review cursor without its
    trailing white space, so what it copies, less its leading white space,
    is the text that [sayline] reads for that row. *)
Theorem copy_line_is_the_row (w : World) :
  0 < columns (base (screen w)) →
  let row := mjoin ((λ x, get_data w (revy w) x) <$> seqZ 0 (columns (base (screen w)))) in
  let copied := copy_text_buf w (revy w) 0 (revy w) (columns (base (screen w)) - 1) in
  copied = rstrip row
  ∧ rstrip copied = copied
  ∧ lstrip copied = strip row.
Proof.
  intros Hcols row copied.
  assert (copied = rstrip row) as ->.
  { unfold copied, copy_text_buf.
    rewrite (bool_decide_eq_false_2 (0 > _)) by lia.
    rewrite (bool_decide_eq_false_2 (revy w > revy w)) by lia.
    replace (revy w + 1 - revy w) with 1 by lia.
    rewrite seqZ_cons by lia. rewrite seqZ_nil by lia. cbn [fmap list_fmap join_lines].
    rewrite (bool_decide_eq_false_2 (revy w < revy w)) by lia.
    rewrite (bool_decide_eq_false_2 (revy w > revy w)) by lia.
    by replace (columns (base (screen w)) - 1 + 1 - 0) with (columns (base (screen w))) by lia. }
  split; [done|]. split; [apply rstrip_idemp|apply lstrip_rstrip].
Qed.

Lemma copy_line_is_the_row_witness :
  copy_text_buf hello_world 0 0 0 19 = u "hello world  x".
Proof.
  refine (eq_trans (proj1 (copy_line_is_the_row hello_world _)) _).
  - reflexivity.
  - reflexivity.
Defined.

Section ClipboardKeys.
Variable desktop : Desktop.
Variable super_display : Screen → bool.

Lemma copy_to_clip_offers data s s' :
  copy_to_clip desktop data s = Some s' →
  world s' = world s ∧ key_handlers s' = key_handlers s ∧ written s' = written s
  ∧ synth s' = synth s
  ∧ (clipboard s' = clipboard s
     ∨ ∃ proc_args, clipboard s' = clipboard s ++ [(proc_args, data)]).
Proof.
  unfold copy_to_clip. destruct (encodable data); [|done].
  destruct (if String.eqb _ _ then _ else _) as [|a l]; [intros [= <-]; auto 6|].
  destruct (can_run _ _); [|done]. intros [= <-]. repeat split. right. by eexists.
Qed.

(** X19: the two presses of [handle_clipboard].  The first keeps the
    position of the review cursor and copies nothing.  The second gives the
    clipboard at most one text, the one that [copy_text] builds between the
    kept position and the review cursor, and forgets the kept column
    whether or not the copy succeeded, so that the next press selects
    again; neither press moves the review cursor or changes the screen. *)
Theorem handle_clipboard_two_presses (s : Session) :
  let w := world s in
  let s' := handle_clipboard desktop super_display s in
  revx (world s') = revx w ∧ revy (world s') = revy w ∧ screen (world s') = screen w
  ∧ match State.copy_x (state w), State.copy_y (state w) with
    | None, _ =>
        State.copy_x (state (world s')) = Some (revx w)
        ∧ State.copy_y (state (world s')) = Some (revy w)
        ∧ clipboard s' = clipboard s
    | Some copy_x, Some copy_y =>
        State.copy_x (state (world s')) = None
        ∧ (clipboard s' = clipboard s
           ∨ ∃ proc_args,
               clipboard s'
               = clipboard s ++ [(proc_args, copy_text_buf w copy_y copy_x (revy w) (revx w))])
    | Some _, None =>
        State.copy_x (state (world s')) = None ∧ clipboard s' = clipboard s
    end.
Proof.
  unfold handle_clipboard. cbv zeta.
  destruct (State.copy_x (state (world s))) as [cx|] eqn:Hx; [|by repeat split].
  destruct (State.copy_y (state (world s))) as [cy|] eqn:Hy; [|by repeat split].
  cbn [mbind option_bind]. unfold copy_text.
  destruct (super_display _); [|by repeat split; auto].
  destruct (copy_to_clip desktop _ s) as [s1|] eqn:Hclip; [|by repeat split; auto].
  apply copy_to_clip_offers in Hclip as (Hw & _ & _ & _ & Hc).
  cbn. rewrite Hw. by repeat split.
Qed.
End ClipboardKeys.

(** ** Child output and the state *)

(** Two states that differ at most in [last_drawn_x] and [last_drawn_y]. *)
Definition same_but_last_drawn (s1 s2 : State.t) : Prop :=
  State.revy s2 = State.revy s1 ∧ State.revx s2 = State.revx s1
  ∧ State.delayed_functions s2 = State.delayed_functions s1
  ∧ State.silence s2 = State.silence s1 ∧ State.tempsilence s2 = State.tempsilence s1
  ∧ State.config s2 = State.config s1
  ∧ State.copy_x s2 = State.copy_x s1 ∧ State.copy_y s2 = State.copy_y s1
  ∧ State.delaying_output s2 = State.delaying_output s1.

Lemma same_but_last_drawn_refl s : same_but_last_drawn s s.
Proof. by repeat split. Qed.

Lemma same_but_last_drawn_trans s1 s2 s3 :
  same_but_last_drawn s1 s2 → same_but_last_drawn s2 s3 → same_but_last_drawn s1 s3.
Proof.
  unfold same_but_last_drawn. intros (?&?&?&?&?&?&?&?&?) (?&?&?&?&?&?&?&?&?).
  repeat split; congruence.
Qed.

Section ChildOutput.
Variable super : Pyte.

Lemma draw2_state text w :
  same_but_last_drawn (state w) (state (final (draw2 super text w)))
  ∧ CURSOR_TIMEOUT (final (draw2 super text w)) = CURSOR_TIMEOUT w.
Proof.
  unfold draw2, andthen, total.
  set (echo := if _ && _ && _ then say_character text w else Returns w).
  assert (∃ w1, echo = Returns w1 ∧ state w1 = state w
                ∧ CURSOR_TIMEOUT w1 = CURSOR_TIMEOUT w) as (w1 & -> & Hst & Hct).
  { subst echo. destruct (_ && _ && _) eqn:Hecho; [|by exists w].
    apply andb_true_iff in Hecho as [[_ Hlen]%andb_true_iff _].
    apply bool_decide_eq_true in Hlen.
    destruct text as [|c [|]]; try done.
    destruct (say_character_returns c w) as [w1 Hw1]. exists w1. split; [done|].
    pose proof (say_character_frame [c] w) as (Hst & _). rewrite Hw1 in Hst.
    split; [done|]. unfold say_character in Hw1. simpl in Hw1.
    by destruct (symbols (speech w) !! c); injection Hw1 as <-. }
  cbn [final].
  set (w2 := if _ && _ then with_speech_buffer (StringIO.write [SPACE]) (set_lastkey [] w1)
             else set_lastkey [] w1).
  assert (state w2 = state w ∧ CURSOR_TIMEOUT w2 = CURSOR_TIMEOUT w) as [Hst2 Hct2].
  { subst w2. by destruct (_ && _). }
  clearbody w2.
  destruct (pyte_draw_state super text w2) as [Hst3 _].
  assert (CURSOR_TIMEOUT (pyte_draw super text w2) = CURSOR_TIMEOUT w2) as Hct3.
  { unfold pyte_draw, linefeed. destruct (_ && _); [|done]. simpl.
    destruct (line_pause _); [|done]. simpl. unfold sb.
    repeat (case_bool_decide || destruct (negb _)); done. }
  set (w3 := pyte_draw super text w2) in *. clearbody w3.
  rewrite Hst2 in Hst3. rewrite Hct2 in Hct3.
  destruct (_ && _ && _); unfold same_but_last_drawn; simpl; rewrite ?Hst3, ?Hct3;
    by repeat split.
Qed.

Lemma draw_state text w :
  same_but_last_drawn (state w) (state (final (draw super text w)))
  ∧ CURSOR_TIMEOUT (final (draw super text w)) = CURSOR_TIMEOUT w.
Proof.
  revert w. induction text as [|c text IH]; intros w; [by split; repeat split|].
  cbn [draw]. unfold andthen.
  destruct (draw2_returns super [c] w) as (w1 & Hw1 & _).
  pose proof (draw2_state [c] w) as [Hs1 Hc1]. rewrite Hw1 in *. cbn [final] in *.
  destruct (IH w1) as [Hs2 Hc2].
  split; [eauto using same_but_last_drawn_trans|congruence].
Qed.

Lemma dispatch_state e w :
  same_but_last_drawn (state w) (state (final (dispatch super e w)))
  ∧ CURSOR_TIMEOUT (final (dispatch super e w)) = CURSOR_TIMEOUT w.
Proof.
  destruct e; cbn [dispatch]; try (split; [apply same_but_last_drawn_refl|done]).
  - apply draw_state.
  - unfold total, tab. cbn [final]. destruct (negb _); by split; repeat split.
  - unfold total, linefeed. cbn [final]. destruct (line_pause _); [|by split; repeat split].
    cbn. destruct (sb_frame w) as (-> & _). split; [by repeat split|].
    unfold sb. repeat (case_bool_decide || destruct (negb _)); done.
  - unfold total, backspace. cbn [final]. destruct (_ && _); by split; repeat split.
Qed.

Lemma feed_state events w :
  ∃ w', feed super events w = Returns w'
        ∧ same_but_last_drawn (state w) (state w')
        ∧ CURSOR_TIMEOUT w' = CURSOR_TIMEOUT w.
Proof.
  revert w. induction events as [|e events IH]; intros w.
  - exists w. by split; [|split; [repeat split|]].
  - cbn [feed]. unfold andthen.
    destruct (dispatch_returns super e w) as (w1 & Hw1 & _).
    pose proof (dispatch_state e w) as [Hs1 Hc1]. rewrite Hw1 in *. cbn [final] in *.
    destruct (IH w1) as (w' & Hw' & Hs2 & Hc2). exists w'.
    split; [done|]. split; [eauto using same_but_last_drawn_trans|congruence].
Qed.

Lemma dispatch_state_no_draw e w :
  ¬ draws e → state (final (dispatch super e w)) = state w.
Proof.
  intros Hno. destruct e as [[|c text]| | | | | | | | | | |]; cbn [dispatch]; try done.
  - unfold total, tab. cbn [final]. by destruct (negb _).
  - unfold total, linefeed. cbn [final]. destruct (line_pause _); [|done].
    cbn. by destruct (sb_frame w) as (-> & _).
  - unfold total, backspace. cbn [final]. by destruct (_ && _).
Qed.

(** X20: whatever the child writes, feeding it to the screen leaves the
    review cursor, the schedule, the two silence flags, the configuration,
    the kept clipboard position and [CURSOR_TIMEOUT] as they are: of the
    state, only the position of the last drawn character can change, and it
    does not change when no character is drawn. *)
Theorem feed_keeps_state (events : list event) (w : World) :
  let w' := final (feed super events w) in
  same_but_last_drawn (state w) (state w')
  ∧ CURSOR_TIMEOUT w' = CURSOR_TIMEOUT w
  ∧ (Forall (λ e, ¬ draws e) events → state w' = state w).
Proof.
  cbv zeta. destruct (feed_state events w) as (w' & Hw' & Hst & Hct).
  rewrite Hw'. cbn [final]. split; [done|]. split; [done|].
  clear Hst Hct. revert w w' Hw'.
  induction events as [|e events IH]; intros w w' Hw' Hno.
  - by injection Hw' as <-.
  - apply Forall_cons in Hno as [He Hno]. cbn [feed] in Hw'. unfold andthen in Hw'.
    pose proof (dispatch_state_no_draw e w He) as Hstate.
    destruct (dispatch_returns super e w) as (w1 & Hw1 & _).
    rewrite Hw1 in Hw', Hstate. cbn [final] in Hstate.
    rewrite <- Hstate. by apply IH.
Qed.

(** X21: one chunk of child output, as [main] handles it.  The review cursor
    follows the cursor when cursor tracking is on and the chunk has moved
    the cursor, and stays otherwise.  The schedule gains at most one entry,
    a flush 5 ms from [now], and gains it exactly when neither silence flag
    is set, the position of the speech buffer is not 0 after the feed, and
    [delaying_output] is false. *)
Theorem child_output_effects (now : Z) (events : list event) (w : World) :
  ∃ w', child_output super now events w = Returns w'
    ∧ (revx w', revy w')
      = (let c := cursor (base (screen w)) in
         let c' := cursor (base (screen w')) in
         if cursor_tracking (speech w)
            && (bool_decide (cursor_x c' ≠ cursor_x c) || bool_decide (cursor_y c' ≠ cursor_y c))
         then (cursor_x c', cursor_y c') else (revx w, revy w))
    ∧ State.delayed_functions (state w')
      = State.delayed_functions (state w)
        ++ (if negb (State.silence (state w)) && negb (State.tempsilence (state w))
               && bool_decide (0 < StringIO.tell (speech_buffer w'))%nat
               && negb (State.delaying_output (state w))
            then [(now + 5000, read_buffer_scheduled_cb)] else []).
Proof.
  unfold child_output, andthen, total.
  destruct (feed_state events w) as (w1 & -> & Hst & _).
  destruct Hst as (Hy & Hx & Hd & Hs & Hts & Hc & _ & _ & Hdo).
  eexists. split; [done|]. unfold after_feed. cbv zeta.
  unfold speech. rewrite Hc.
  set (tracked := if _ && _ then set_revy _ (set_revx _ w1) else w1).
  assert (state tracked = State.set_revy (revy tracked) (State.set_revx (revx tracked) (state w1))
          ∧ speech_buffer tracked = speech_buffer w1 ∧ screen tracked = screen w1
          ∧ (revx tracked, revy tracked)
            = (if cursor_tracking (State.config (state w))
                  && (bool_decide (cursor_x (cursor (base (screen w1)))
                                   ≠ cursor_x (cursor (base (screen w))))
                      || bool_decide (cursor_y (cursor (base (screen w1)))
                                      ≠ cursor_y (cursor (base (screen w)))))
               then (cursor_x (cursor (base (screen w1))), cursor_y (cursor (base (screen w1))))
               else (revx w, revy w))) as (Htr & Hb & Hsc & Hpos).
  { subst tracked. destruct (_ && _).
    - by repeat split.
    - split; [unfold revx, revy; by destruct (state w1)|]. split; [done|]. split; [done|].
      unfold revx, revy. by rewrite Hx, Hy. }
  clearbody tracked.
  assert (State.silence (state tracked) = State.silence (state w)
          ∧ State.tempsilence (state tracked) = State.tempsilence (state w)
          ∧ State.delaying_output (state tracked) = State.delaying_output (state w)
          ∧ State.delayed_functions (state tracked) = State.delayed_functions (state w))
    as (Hs' & Hts' & Hdo' & Hd').
  { rewrite Htr. simpl. by rewrite Hs, Hts, Hdo, Hd. }
  rewrite Hs', Hts', Hdo', Hb.
  destruct (negb (State.silence (state w)) && negb (State.tempsilence (state w)));
    cbn [andb]; [destruct (bool_decide _ && negb _) eqn:Hflush|];
    unfold schedule, revx, revy in *; cbn; rewrite ?Hsc, ?Hb, ?Hflush, ?Hd', ?app_nil_r;
    by split.
Qed.
End ChildOutput.

(** ** Key echo and quiet mode *)

(** What [say_character] sends for one code point. *)
Definition announcement (c : Config) (ch : N) : str :=
  match symbols c !! ch with
  | Some word => u "s" ++ word ++ [10%N]
  | None => u "l" ++ [ch] ++ [10%N]
  end.

(** The cursor is not waiting to wrap, and it has not jumped more than one
    column to the right of the last drawn character in its row. *)
Definition draws_in_place (w : World) : Prop :=
  let c := cursor (base (screen w)) in
  ¬ (cursor_x c = columns (base (screen w)) ∧ DECAWM ∈ mode (base (screen w)))
  ∧ ¬ (cursor_y c = State.last_drawn_y (state w)
       ∧ cursor_x c - State.last_drawn_x (state w) > 1).

(** X22: what one drawn character does to speech, when it is drawn in
    place.  A character equal to [lastkey], the echo of the key just typed,
    is never added to the speech buffer; it is announced at once, as a
    character, when [key_echo] is on, and not spoken at all when it is off.
    Any other text is added to the speech buffer unless [silence] or
    [tempsilence] is set, and nothing is sent for it. *)
Theorem draw2_speech (super : Pyte) (text : list N) (w : World) :
  draws_in_place w →
  ∃ w', draw2 super text w = Returns w'
    ∧ sent w'
      = sent w ++ (match text with
                   | [ch] => if bool_decide (text = lastkey w) && key_echo (speech w)
                             then [announcement (speech w) ch] else []
                   | _ => []
                   end)
    ∧ speech_buffer w'
      = (if negb (bool_decide (text = lastkey w)) && negb (State.silence (state w))
            && negb (State.tempsilence (state w))
         then StringIO.write text (speech_buffer w) else speech_buffer w).
Proof.
  intros [Hwrap Hgap]. unfold draw2, andthen, total.
  set (echo := if _ && _ && _ then say_character text w else Returns w).
  assert (∃ w1, echo = Returns w1 ∧ state w1 = state w ∧ screen w1 = screen w
                ∧ speech_buffer w1 = speech_buffer w
                ∧ sent w1 = sent w ++ (match text with
                   | [ch] => if bool_decide (text = lastkey w) && key_echo (speech w)
                             then [announcement (speech w) ch] else []
                   | _ => []
                   end)) as (w1 & -> & Hst & Hsc & Hb & Hsent).
  { subst echo. destruct (decide (text = lastkey w)) as [Heq|Hne].
    - rewrite (bool_decide_eq_true_2 _ Heq). cbn [andb].
      destruct text as [|ch [|]].
      + cbn. exists w. by rewrite app_nil_r.
      + cbn [length]. rewrite bool_decide_eq_true_2 by done. cbn [andb].
        destruct (key_echo (speech w)); [|exists w; by rewrite app_nil_r].
        unfold say_character, announcement. cbn [bool_decide decide_rel].
        rewrite bool_decide_eq_false_2 by done.
        destruct (symbols (speech w) !! ch); by eexists.
      + cbn [length]. rewrite bool_decide_eq_false_2 by done. cbn.
        exists w. by rewrite app_nil_r.
    - rewrite (bool_decide_eq_false_2 _ Hne). cbn [andb]. exists w.
      destruct text as [|ch [|]]; by rewrite app_nil_r. }
  eexists. split; [done|].
  assert (bool_decide (cursor_y (cursor (base (screen (set_lastkey [] w1))))
                       = State.last_drawn_y (state (set_lastkey [] w1)))
          && bool_decide (cursor_x (cursor (base (screen (set_lastkey [] w1))))
                          - State.last_drawn_x (state (set_lastkey [] w1)) > 1) = false) as ->.
  { cbn. rewrite Hsc, Hst. apply andb_false_iff.
    destruct (decide (cursor_y (cursor (base (screen w))) = State.last_drawn_y (state w))).
    - right. apply bool_decide_eq_false_2. tauto.
    - left. by apply bool_decide_eq_false_2. }
  unfold pyte_draw.
  assert (bool_decide (cursor_x (cursor (base (screen (set_lastkey [] w1))))
                       = columns (base (screen (set_lastkey [] w1))))
          && bool_decide (DECAWM ∈ mode (base (screen (set_lastkey [] w1)))) = false) as ->.
  { cbn. rewrite Hsc. apply andb_false_iff.
    destruct (decide (cursor_x (cursor (base (screen w))) = columns (base (screen w)))).
    - right. apply bool_decide_eq_false_2. tauto.
    - left. by apply bool_decide_eq_false_2. }
  change (state (with_screen _ (set_lastkey [] w1))) with (state w1). rewrite Hst.
  destruct (negb (bool_decide (text = lastkey w)) && negb (State.silence (state w))
            && negb (State.tempsilence (state w))); cbn; by rewrite Hb.
Qed.

Lemma draw2_speech_witness :
  let w := set_lastkey (u "a") (startup default_config 80 24) in
  ∃ w', draw2 plain_terminal (u "a") w = Returns w'
    ∧ sent w' = [u "la" ++ [10%N]] ∧ speech_buffer w' = StringIO.empty.
Proof.
  intros w.
  destruct (draw2_speech plain_terminal (u "a") w) as (w' & Hw' & Hsent & Hb).
  - split; vm_compute; intros [H1 H2]; discriminate.
  - exists w'. split; [exact Hw'|]. split; [exact Hsent|exact Hb].
Defined.

Section Quiet.
Variable super : Pyte.

End Quiet.

(** ** process_input *)

Lemma skip_digits_app ds c rest :
  Forall (λ d, 48 ≤ d ≤ 57)%N ds → ¬ (48 ≤ c ≤ 57)%N →
  skip_digits (ds ++ c :: rest) = c :: rest.
Proof.
  intros Hds Hc. induction Hds as [|d ds Hd _ IH]; simpl.
  - by rewrite bool_decide_eq_false_2.
  - by rewrite bool_decide_eq_true_2.
Qed.

Lemma digits_then_app ds c rest :
  ds ≠ [] → Forall (λ d, 48 ≤ d ≤ 57)%N ds → ¬ (48 ≤ c ≤ 57)%N →
  digits_then c (ds ++ c :: rest) = Some rest.
Proof.
  intros Hne Hds Hc. unfold digits_then.
  rewrite skip_digits_app by done. rewrite bool_decide_eq_true_2 by done.
  destruct ds as [|d ds]; [done|]. apply Forall_cons in Hds as [Hd _].
  simpl. by rewrite bool_decide_eq_true_2.
Qed.

(** What [process_input] does to the globals before it calls the handler:
    [lastkey] is emptied, the synth is told to stop, the schedule is
    emptied and [tempsilence] is lowered. *)
Definition interrupted (s : Session) : Session :=
  with_world (with_state (State.set_tempsilence false))
    (with_world (with_state (State.set_delayed_functions []))
       (with_world silence (with_world (set_lastkey []) s))).

(** The chunks of a list, one [process_input] after the other; each comes
    with the two times that its call reads. *)
Fixpoint process_inputs (step : float → Z → list N → Session → reply)
    (chunks : list (float * Z * list N)) (s : Session) : reply :=
  match chunks with
  | [] => Done s
  | (key_time, now, bytes) :: chunks' =>
      match step key_time now bytes s with
      | Done s' => process_inputs step chunks' s'
      | Fails e s' => Fails e s'
      end
  end.

Lemma process_inputs_app step chunks1 chunks2 s :
  process_inputs step (chunks1 ++ chunks2) s
  = match process_inputs step chunks1 s with
    | Done s' => process_inputs step chunks2 s'
    | Fails e s' => Fails e s'
    end.
Proof.
  revert s. induction chunks1 as [|[[kt now] bytes] chunks1 IH]; intros s; [done|].
  simpl. destruct (step kt now bytes s); [apply IH|done].
Qed.

(** The callables of the arrow keys and what they schedule. *)
Definition arrow_callback (b : bound) : option callback :=
  match b with
  | b_arrow_up | b_arrow_down => Some sayline_at_cursor
  | b_arrow_left | b_arrow_right => Some saychar_at_cursor
  | _ => None
  end.

(** The stack of [main]: its first handler is a [KeyHandler] whose
    callables are not the two of the copy menu, which answer [REMOVE]. *)
Definition grounded (hs : list handler) : Prop :=
  match hs with
  | A_KeyHandler h :: _ =>
      map_Forall (λ _ b, b ≠ b_copy_line ∧ b ≠ b_copy_screen) (KeyHandler.keymap h)
  | _ => False
  end.

(** The callables of the two menus. *)
Definition menu_bound (b : bound) : bool :=
  match b with
  | b_set_rate | b_set_volume | b_set_voice_idx | b_set_process_symbols | b_set_delay
  | b_set_echo | b_set_cursor_tracking | b_set_line_pause | b_set_repeated_symbols
  | b_copy_line | b_copy_screen => true
  | _ => false
  end.

(** A menu as its class builds it: a [ConfigHandler] or a [CopyHandler] with
    the keymap of the class, or a [BufferHandler]. *)
Definition menu (top : handler) : Prop :=
  match top with
  | A_KeyHandler _ => False
  | A_ConfigHandler h => KeyHandler.keymap h = ConfigHandler.keymap
  | A_CopyHandler h => KeyHandler.keymap h = CopyHandler.keymap
  | A_BufferHandler _ _ _ => True
  end.

Lemma ConfigHandler_keymap_menu_bound k b :
  ConfigHandler.keymap !! k = Some b → menu_bound b = true.
Proof.
  unfold ConfigHandler.keymap. intros H%elem_of_list_to_map_2.
  repeat (apply elem_of_cons in H as [[= _ ->]|H]; [done|]). by apply elem_of_nil in H.
Qed.

Lemma CopyHandler_keymap_menu_bound k b :
  CopyHandler.keymap !! k = Some b → menu_bound b = true.
Proof.
  unfold CopyHandler.keymap. intros H%elem_of_list_to_map_2.
  repeat (apply elem_of_cons in H as [[= _ ->]|H]; [done|]). by apply elem_of_nil in H.
Qed.

Definition no_IndexError (r : reply) : Prop :=
  match r with Fails IndexError _ => False | _ => True end.

Section ProcessInput.
Variable wcwidth : list N → option Z.
Variable desktop : Desktop.
Variable super_display : Screen → bool.
Variable plugin_handle : string → World → World.
Variable int : str → option Z.
Variable decode : list N → option str.
Variable decode_replace : list N → str.

Abbreviation on_input :=
  (process_input wcwidth desktop super_display plugin_handle int decode decode_replace).
Abbreviation on_key := (invoke wcwidth desktop super_display plugin_handle).

(** X24: a chunk that begins with a cursor position report, [ESC [ row ;
    column R] with both numbers in decimal digits, goes to the child as it
    is, with whatever follows the report in the chunk, and nothing else
    happens: speech is not interrupted, the schedule and [lastkey] stay,
    and no key handler sees the chunk. *)
Theorem cursor_position_report_passes (key_time : float) (now : Z)
    (row column rest : list N)
    (fd : Z) (s : Session) :
  row ≠ [] → column ≠ [] →
  Forall (λ d, 48 ≤ d ≤ 57)%N row → Forall (λ d, 48 ≤ d ≤ 57)%N column →
  let bytes := ESC "[" ++ row ++ u ";" ++ column ++ u "R" ++ rest in
  on_input key_time now bytes fd s
  = Done (set_written (written s ++ [(fd, bytes)]) s).
Proof.
  intros Hrow Hcol Hr Hc bytes. unfold process_input.
  assert (is_cursor_position_report bytes = true) as ->; [|done].
  unfold bytes, is_cursor_position_report. cbn [ESC u app fmap list_fmap
    list_ascii_of_string N_of_ascii N_of_digits]. simpl N.add.
  change (u ";" ++ column ++ u "R" ++ rest) with (59%N :: column ++ 82%N :: rest).
  rewrite digits_then_app; [|done|done|lia]. cbn [mbind option_bind].
  rewrite digits_then_app; [done|done|done|lia].
Qed.

Lemma process_input_top key_time now bytes fd s hs top :
  is_cursor_position_report bytes = false →
  key_handlers s = hs ++ [top] →
  on_input key_time now bytes fd s
  = let '(top', res, r) :=
      handler_process wcwidth desktop super_display plugin_handle int decode
        key_time now bytes top (interrupted s) in
    match r with
    | Fails e s =>
        Fails e (set_key_handlers
                   (<[length hs := left_by_exception key_time bytes top]> (key_handlers s)) s)
    | Done s =>
        let s := set_key_handlers (<[length hs := top']> (key_handlers s)) s in
        let s := if bool_decide (res = Some KeyHandler.REMOVE)
                 then set_key_handlers (removelast (key_handlers s)) s else s in
        Done (with_world (set_lastkey (decode_replace bytes)) s)
    end.
Proof.
  intros Hcpr Hstack. unfold process_input. rewrite Hcpr. fold (interrupted s).
  change (key_handlers (interrupted s)) with (key_handlers s). rewrite Hstack.
  rewrite last_snoc. rewrite length_app. cbn [length].
  by replace (length hs + 1 - 1)%nat with (length hs) by lia.
Qed.

Lemma insert_top {A} (hs : list A) (top top' : A) :
  <[length hs := top']> (hs ++ [top]) = hs ++ [top'].
Proof.
  rewrite insert_app_r_alt by lia. by rewrite Nat.sub_diag.
Qed.

(** An unbound chunk and the handler of [main]. *)
Lemma process_input_unbound key_time now bytes fd s hs h fd' :
  is_cursor_position_report bytes = false →
  key_handlers s = hs ++ [A_KeyHandler h] →
  KeyHandler.keymap h !! bytes = None →
  KeyHandler.fd h = Some fd' →
  on_input key_time now bytes fd s
  = Done (with_world (set_lastkey (decode_replace bytes))
            (set_key_handlers
               (hs ++ [A_KeyHandler (KeyHandler.set_last_key bytes
                                       (KeyHandler.set_last_key_time key_time h))])
               (set_written (written s ++ [(fd', bytes)]) (interrupted s)))).
Proof.
  intros Hcpr Hstack Hkey Hfd.
  rewrite (process_input_top _ _ _ _ _ hs (A_KeyHandler h)) by done.
  unfold handler_process, KeyHandler.process. cbv zeta.
  rewrite bool_decide_eq_true_2 by by apply not_elem_of_dom.
  unfold KeyHandler.handle_unknown_key. cbn [KeyHandler.fd KeyHandler.set_last_key
    KeyHandler.set_last_key_time]. rewrite Hfd. cbn [os_write].
  rewrite bool_decide_eq_false_2 by done.
  change (key_handlers (set_written _ (interrupted s))) with (key_handlers s).
  by rewrite Hstack, insert_top.
Qed.

(** X25: a chunk that the keymap of the first handler does not bind, typed
    while no menu is open, is written to the child as it is, once; speech
    is interrupted, nothing stays scheduled, [tempsilence] is off, and
    [lastkey] is the chunk decoded, which is what the echo of the child is
    compared with. *)
Theorem unbound_key_reaches_child (key_time : float) (now : Z) (bytes : list N)
    (fd : Z) (s : Session) (h : KeyHandler.t bound) (fd' : Z) :
  is_cursor_position_report bytes = false →
  key_handlers s = [A_KeyHandler h] →
  KeyHandler.keymap h !! bytes = None →
  KeyHandler.fd h = Some fd' →
  ∃ s', on_input key_time now bytes fd s = Done s'
    ∧ written s' = written s ++ [(fd', bytes)]
    ∧ sent (world s') = sent (world s) ++ [u "x" ++ [10%N]]
    ∧ State.delayed_functions (state (world s')) = []
    ∧ State.tempsilence (state (world s')) = false
    ∧ lastkey (world s') = decode_replace bytes
    ∧ key_handlers s'
      = [A_KeyHandler (KeyHandler.set_last_key bytes
                         (KeyHandler.set_last_key_time key_time h))]
    ∧ screen (world s') = screen (world s)
    ∧ speech_buffer (world s') = speech_buffer (world s)
    ∧ revx (world s') = revx (world s) ∧ revy (world s') = revy (world s)
    ∧ clipboard s' = clipboard s.
Proof.
  intros Hcpr Hstack Hkey Hfd. eexists. split.
  - by apply (process_input_unbound _ _ _ _ _ []).
  - by repeat split.
Qed.

(** An arrow key: a chunk bound to one of the four callables, with no
    double binding. *)
Definition arrow_key (h : KeyHandler.t bound) (bytes : list N) (cb : callback) : Prop :=
  is_cursor_position_report bytes = false
  ∧ (∃ b, KeyHandler.keymap h !! bytes = Some b ∧ arrow_callback b = Some cb)
  ∧ KeyHandler.keymap h !! (bytes ++ bytes) = None.

Lemma process_input_arrow key_time now bytes fd s hs h fd' cb :
  arrow_key h bytes cb →
  key_handlers s = hs ++ [A_KeyHandler h] →
  KeyHandler.fd h = Some fd' →
  on_input key_time now bytes fd s
  = Done (with_world (set_lastkey (decode_replace bytes))
            (set_key_handlers
               (hs ++ [A_KeyHandler (KeyHandler.set_last_key bytes
                                       (KeyHandler.set_last_key_time key_time h))])
               (set_written (written s ++ [(fd', bytes)])
                  (with_world (schedule now (CURSOR_TIMEOUT (world s)) cb true)
                     (interrupted s))))).
Proof.
  intros (Hcpr & (b & Hb & Hcb) & Hdouble) Hstack Hfd.
  rewrite (process_input_top _ _ _ _ _ hs (A_KeyHandler h)) by done.
  unfold handler_process.
  rewrite (process_single _ _ _ _ _ _ _ b) by auto.
  unfold invoked_single. rewrite Hfd.
  destruct b; try discriminate; injection Hcb as <-; cbn;
    rewrite (bool_decide_eq_true_2 (Some KeyHandler.PASSTHROUGH = Some KeyHandler.PASSTHROUGH))
      by done;
    rewrite (bool_decide_eq_false_2 (Some KeyHandler.PASSTHROUGH = Some KeyHandler.REMOVE))
      by done;
    cbn; by rewrite Hstack, insert_top.
Qed.

(** X26: arrow keys in a row speak once.  After any number of arrow keys,
    typed while no menu is open and with nothing else in between, every
    one of them has gone to the child, and exactly one announcement is
    scheduled: that of the last key, [CURSOR_TIMEOUT] after that key, with
    [tempsilence] raised until then. *)
Theorem arrow_keys_speak_once (earlier : list (float * Z * list N))
    (key_time : float) (now : Z) (bytes : list N) (cb : callback) (fd : Z) (s : Session)
    (h : KeyHandler.t bound) (fd' : Z) :
  Forall (λ chunk, ∃ cb, arrow_key h chunk.2 cb) earlier →
  arrow_key h bytes cb →
  key_handlers s = [A_KeyHandler h] →
  KeyHandler.fd h = Some fd' →
  ∃ s', process_inputs (λ key_time now bytes, on_input key_time now bytes fd)
          (earlier ++ [(key_time, now, bytes)]) s = Done s'
    ∧ State.delayed_functions (state (world s')) = [(now + CURSOR_TIMEOUT (world s), cb)]
    ∧ State.tempsilence (state (world s')) = true
    ∧ written s' = written s ++ ((λ chunk, (fd', chunk.2)) <$> earlier) ++ [(fd', bytes)]
    ∧ sent (world s')
      = sent (world s) ++ replicate (S (length earlier)) (u "x" ++ [10%N])
    ∧ speech_buffer (world s') = speech_buffer (world s)
    ∧ screen (world s') = screen (world s).
Proof.
  intros Hearlier Harrow Hstack Hfd.
  rewrite process_inputs_app.
  assert (∃ s1 h1,
    process_inputs (λ key_time now bytes, on_input key_time now bytes fd) earlier s = Done s1
    ∧ key_handlers s1 = [A_KeyHandler h1]
    ∧ KeyHandler.keymap h1 = KeyHandler.keymap h ∧ KeyHandler.fd h1 = Some fd'
    ∧ written s1 = written s ++ ((λ chunk, (fd', chunk.2)) <$> earlier)
    ∧ sent (world s1) = sent (world s) ++ replicate (length earlier) (u "x" ++ [10%N])
    ∧ speech_buffer (world s1) = speech_buffer (world s)
    ∧ screen (world s1) = screen (world s)
    ∧ CURSOR_TIMEOUT (world s1) = CURSOR_TIMEOUT (world s))
    as (s1 & h1 & -> & Hstack1 & Hmap1 & Hfd1 & Hw1 & Hsent1 & Hb1 & Hsc1 & Hct1).
  { clear Harrow. revert s h Hstack Hfd Hearlier.
    induction earlier as [|[[kt1 now1] chunk] earlier IH]; intros s h Hstack Hfd Hearlier.
    - exists s, h. rewrite !app_nil_r. by repeat split.
    - apply Forall_cons in Hearlier as [[cb1 Hchunk] Hearlier]. cbn [process_inputs].
      rewrite (process_input_arrow kt1 now1 chunk fd s [] h fd' cb1) by done.
      set (h1 := KeyHandler.set_last_key chunk (KeyHandler.set_last_key_time kt1 h)).
      set (s1 := with_world _ _).
      destruct (IH s1 h1) as (s2 & h2 & -> & ? & ? & ? & Hw2 & Hsent2 & ? & ? & ?);
        [done|done|done|].
      exists s2, h2. split; [done|]. split; [done|]. split; [done|]. split; [done|].
      split; [rewrite Hw2; cbn; by rewrite <- app_assoc|].
      split; [rewrite Hsent2; cbn; by rewrite <- app_assoc|]. by repeat split. }
  cbn [process_inputs].
  assert (arrow_key h1 bytes cb) as Harrow1.
  { unfold arrow_key in *. by rewrite Hmap1. }
  rewrite (process_input_arrow key_time now bytes fd s1 [] h1 fd' cb) by done.
  eexists. split; [done|]. cbn. rewrite Hct1, Hw1, Hsent1, Hb1, Hsc1.
  split; [done|]. split; [done|]. split; [by rewrite <- app_assoc|].
  split; [|done]. rewrite <- app_assoc. f_equal. symmetry. apply replicate_cons_app.
Qed.

Lemma copy_text_key_handlers y1 x1 y2 x2 s s' :
  copy_text desktop super_display y1 x1 y2 x2 s = Some s' →
  key_handlers s' = key_handlers s ∧ written s' = written s.
Proof.
  unfold copy_text. destruct (super_display _); [|done].
  intros H%copy_to_clip_offers. by destruct H as (_ & ? & ? & _).
Qed.

Lemma handle_clipboard_key_handlers s :
  key_handlers (handle_clipboard desktop super_display s) = key_handlers s
  ∧ written (handle_clipboard desktop super_display s) = written s.
Proof.
  unfold handle_clipboard. cbv zeta.
  destruct (State.copy_x _); [|done].
  destruct (State.copy_y _) as [cy|]; [|done]. cbn [mbind option_bind].
  destruct (copy_text _ _ _ _ _ _ _) eqn:H; [|done].
  by apply copy_text_key_handlers in H.
Qed.

(** A callable appends to the stack of handlers, if anything, and writes
    nothing to the child by itself. *)
Lemma invoke_no_IndexError now b s : no_IndexError (on_key now b (Done s)).2.
Proof.
  destruct b; cbn [invoke snd]; try done;
    try (unfold run; match goal with |- context [match ?c with _ => _ end] =>
           by destruct c end).
Qed.

Lemma invoke_appends now b s :
  ∃ pushed, key_handlers (session (on_key now b (Done s)).2) = key_handlers s ++ pushed
    ∧ written (session (on_key now b (Done s)).2) = written s.
Proof.
  destruct b; cbn [invoke snd session];
    try (exists []; by rewrite app_nil_r);
    try (eexists [_]; done);
    try (unfold run; match goal with |- context [match ?c with _ => _ end] =>
           destruct c end; exists []; by rewrite app_nil_r).
  - exists []. rewrite app_nil_r. apply handle_clipboard_key_handlers.
  - exists []. rewrite app_nil_r. unfold CopyHandler.copy_line. cbn [snd session].
    destruct (copy_text _ _ _ _ _ _ _) eqn:H; [|done].
    by apply copy_text_key_handlers in H.
  - exists []. rewrite app_nil_r. unfold CopyHandler.copy_screen. cbn [snd session].
    destruct (copy_text _ _ _ _ _ _ _) eqn:H; [|done].
    by apply copy_text_key_handlers in H.
Qed.

Lemma invoke_not_remove now b s :
  b ≠ b_copy_line → b ≠ b_copy_screen →
  (on_key now b (Done s)).1 ≠ Some KeyHandler.REMOVE.
Proof.
  intros H1 H2. destruct b; cbn [invoke fst]; try done.
  - unfold handle_backspace. cbn [fst].
    by destruct (if bool_decide _ then say_character _ _ else _).
  - unfold handle_delete. cbn [fst]. by destruct (say_character _ _).
Qed.

(** What [process] of a [KeyHandler] with the keymap [h] leaves behind, for
    any of the three classes. *)
Lemma process_appends (unknown : KeyHandler.t bound → list N → reply → option Z * reply)
    key_time now data h s :
  (∀ h s, key_handlers (session (unknown h data (Done s)).2) = key_handlers s
          ∧ no_IndexError (unknown h data (Done s)).2) →
  let '(h', res, r) := KeyHandler.process (on_key now) os_write unknown key_time data h (Done s) in
  KeyHandler.keymap h' = KeyHandler.keymap h
  ∧ (∃ pushed, key_handlers (session r) = key_handlers s ++ pushed)
  ∧ no_IndexError r
  ∧ (map_Forall (λ _ b, b ≠ b_copy_line ∧ b ≠ b_copy_screen) (KeyHandler.keymap h) →
     (∀ h s, (unknown h data (Done s)).1 ≠ Some KeyHandler.REMOVE) →
     res ≠ Some KeyHandler.REMOVE).
Proof.
  intros Hunknown.
  pose proof (process_records_key (on_key now) os_write unknown key_time data h (Done s))
    as Hrec. cbv zeta in Hrec.
  assert (∀ fd r, key_handlers (session (os_write fd data r)) = key_handlers (session r))
    as Hwrite.
  { intros fd [s1|e s1]; [|done]. by destruct fd. }
  assert (∀ fd r, no_IndexError r → no_IndexError (os_write fd data r)) as Hwrite'.
  { intros fd [s1|e s1]; [|done]. by destruct fd. }
  unfold KeyHandler.process in *. cbv zeta in *.
  change (KeyHandler.keymap (KeyHandler.set_last_key_time key_time h))
    with (KeyHandler.keymap h) in *.
  case_bool_decide as Hkey.
  - specialize (Hunknown (KeyHandler.set_last_key data
                            (KeyHandler.set_last_key_time key_time h)) s).
    pose proof (λ H : ∀ h s, (unknown h data (Done s)).1 ≠ Some KeyHandler.REMOVE,
                  H (KeyHandler.set_last_key data
                       (KeyHandler.set_last_key_time key_time h)) s) as Hres.
    destruct (unknown _ data (Done s)) as [res r]. cbn [fst snd] in *.
    destruct Hunknown as [Hunknown Hidx].
    split; [by destruct Hrec as (_ & _ & ? & _)|].
    split; [exists []; by rewrite app_nil_r|]. split; [done|]. auto.
  - destruct (_ && _) eqn:Hdouble.
    + apply andb_true_iff in Hdouble as [[_ Hrep]%andb_true_iff _].
      apply bool_decide_eq_true in Hrep. apply elem_of_dom in Hrep as [double Hd].
      rewrite Hd in *.
      destruct (invoke_appends now double s) as (pushed & Hpushed & _).
      pose proof (invoke_not_remove now double s) as Hres.
      pose proof (invoke_no_IndexError now double s) as Hidx.
      destruct (on_key now double (Done s)) as [res r]. cbn [fst snd] in *.
      split; [by destruct Hrec as (_ & _ & ? & _)|]. split; [by eexists|].
      split; [done|].
      intros Hroot _. apply Hres; by apply (Hroot _ _ Hd).
    + apply elem_of_dom in Hkey as [single Hsingle]. rewrite Hsingle in *.
      destruct (invoke_appends now single s) as (pushed & Hpushed & _).
      pose proof (invoke_not_remove now single s) as Hres.
      pose proof (invoke_no_IndexError now single s) as Hidx.
      destruct (on_key now single (Done s)) as [res r]. cbn [fst snd] in *.
      split; [by destruct Hrec as (_ & _ & ? & _)|].
      split.
      { exists pushed. destruct (bool_decide (res = _)); [rewrite Hwrite|]; exact Hpushed. }
      split; [destruct (bool_decide (res = _)); auto|].
      intros Hroot _. apply Hres; by apply (Hroot _ _ Hsingle).
Qed.

Lemma handler_process_appends key_time now data top s :
  let '(top', res, r) :=
    handler_process wcwidth desktop super_display plugin_handle int decode
      key_time now data top s in
  (∃ pushed, key_handlers (session r) = key_handlers s ++ pushed)
  ∧ no_IndexError r
  ∧ (grounded [top] → grounded [top'] ∧ res ≠ Some KeyHandler.REMOVE).
Proof.
  destruct top as [h|h|h|on_accept buffer h]; cbn [handler_process].
  - pose proof (process_appends (KeyHandler.handle_unknown_key os_write)
                  key_time now data h s) as H.
    destruct (KeyHandler.process _ _ _ _ _ _ _) as [[h' res] r].
    destruct H as (Hmap & Hpushed & Hidx & Hres).
    { intros h0 s0. unfold KeyHandler.handle_unknown_key. cbn. by destruct (KeyHandler.fd h0). }
    split; [done|]. split; [done|]. cbn [grounded]. rewrite Hmap. intros Hroot.
    split; [done|]. by apply Hres.
  - pose proof (process_appends ConfigHandler.handle_unknown_key key_time now data h s) as H.
    destruct (KeyHandler.process _ _ _ _ _ _ _) as [[h' res] r].
    destruct H as (_ & Hpushed & Hidx & _); [|by repeat split].
    intros h0 s0. unfold ConfigHandler.handle_unknown_key. by destruct (_ || _).
  - pose proof (process_appends CopyHandler.handle_unknown_key key_time now data h s) as H.
    destruct (KeyHandler.process _ _ _ _ _ _ _) as [[h' res] r].
    destruct H as (_ & Hpushed & Hidx & _); [|by repeat split]. done.
  - unfold BufferHandler.process. destruct (_ || _).
    + split; [|done]. exists []. rewrite app_nil_r.
      destruct on_accept; cbn [ConfigHandler.accept];
        unfold ConfigHandler.set_rate2, ConfigHandler.set_volume2,
          ConfigHandler.set_voice_idx2, ConfigHandler.set_delay2;
        by destruct (int buffer).
    + destruct (decode data); (split; [|done]); exists []; by rewrite app_nil_r.
Qed.

Lemma grounded_app hs more : grounded hs → grounded (hs ++ more).
Proof. by destruct hs. Qed.

Lemma grounded_removelast b1 b2 hs :
  grounded (b1 :: b2 :: hs) → grounded (removelast (b1 :: b2 :: hs)).
Proof. done. Qed.

Lemma grounded_insert_tail b hs i top :
  grounded (b :: hs) → grounded (<[S i := top]> (b :: hs)).
Proof. done. Qed.

(** X27: the first handler of the stack stays where it is.  Whatever is
    typed, with whatever menus open, after [process_input] the stack still
    begins with the handler of [main], so the stack is never empty and
    [state.key_handlers[-1]] never raises [IndexError]: the keys of that
    handler never answer [REMOVE], and a menu that answers it removes
    itself. *)
Theorem first_handler_stays (key_time : float) (now : Z) (bytes : list N) (fd : Z)
    (s : Session) :
  grounded (key_handlers s) →
  grounded (key_handlers (session (on_input key_time now bytes fd s)))
  ∧ ∀ s', on_input key_time now bytes fd s ≠ Fails IndexError s'.
Proof.
  intros Hroot.
  destruct (is_cursor_position_report bytes) eqn:Hcpr.
  { unfold process_input. rewrite Hcpr. by split. }
  destruct (key_handlers s) as [|b hs] eqn:Hstack using rev_ind; [done|]. clear IHhs.
  rewrite (process_input_top key_time now bytes fd s hs b Hcpr Hstack).
  pose proof (handler_process_appends key_time now bytes b (interrupted s)) as H.
  destruct (handler_process _ _ _ _ _ _ _ _ _ _ _) as [[top' res] r].
  destruct H as ((pushed & Hpushed) & Hidx & Htop).
  change (key_handlers (interrupted s)) with (key_handlers s) in Hpushed.
  rewrite Hstack in Hpushed.
  assert (∀ top1, (grounded [b] → grounded [top1]) →
            grounded (<[length hs := top1]> ((hs ++ [b]) ++ pushed))
            ∧ (length hs ≠ 0%nat → ∃ b1 b2 rest,
                 <[length hs := top1]> ((hs ++ [b]) ++ pushed) = b1 :: b2 :: rest))
    as Hinsert.
  { intros top1 Htop1. rewrite <- app_assoc.
    rewrite insert_app_r_alt by lia. rewrite Nat.sub_diag. cbn [app].
    destruct hs as [|b0 hs]; cbn.
    - split; [|done]. destruct top1; by apply Htop1.
    - split; [done|]. intros _. destruct hs; by eexists _, _, _. }
  destruct r as [s1|e s1]; cbn [session] in *.
  - split; [|done]. cbv zeta. rewrite Hpushed.
    destruct (Hinsert top') as [Hg Hlen].
    { intros Hb. by apply Htop. }
    case_bool_decide as Hres; [|done]. cbn [with_world set_key_handlers key_handlers].
    destruct hs as [|b0 hs].
    + exfalso. cbn in Hroot. destruct b; try done.
      by destruct (Htop Hroot) as [_ ?].
    + destruct Hlen as (b1 & b2 & rest & Heq); [done|]. rewrite Heq in *.
      by apply grounded_removelast.
  - split; [|intros s' [= -> _]; done]. cbn [set_key_handlers key_handlers]. rewrite Hpushed.
    apply Hinsert. intros Hb. destruct b; try done. cbn in *.
    by destruct (bool_decide _).
Qed.

Lemma invoke_menu_bound now b s :
  menu_bound b = true → (on_key now b (Done s)).1 ≠ Some KeyHandler.PASSTHROUGH.
Proof. by destruct b. Qed.

Lemma process_menu (unknown : KeyHandler.t bound → list N → reply → option Z * reply)
    key_time now data h s :
  (∀ k b, KeyHandler.keymap h !! k = Some b → menu_bound b = true) →
  (∀ h s, written (session (unknown h data (Done s)).2) = written s) →
  written (session (KeyHandler.process (on_key now) os_write unknown
                      key_time data h (Done s)).2) = written s.
Proof.
  intros Hmenu Hunknown. unfold KeyHandler.process. cbv zeta.
  change (KeyHandler.keymap (KeyHandler.set_last_key_time key_time h))
    with (KeyHandler.keymap h).
  case_bool_decide as Hkey.
  - specialize (Hunknown (KeyHandler.set_last_key data
                            (KeyHandler.set_last_key_time key_time h)) s).
    by destruct (unknown _ data (Done s)).
  - destruct (_ && _) eqn:Hdouble.
    + apply andb_true_iff in Hdouble as [[_ Hrep]%andb_true_iff _].
      apply bool_decide_eq_true in Hrep. apply elem_of_dom in Hrep as [double Hd].
      rewrite Hd. destruct (invoke_appends now double s) as (_ & _ & Hw).
      by destruct (on_key now double (Done s)).
    + apply elem_of_dom in Hkey as [single Hsingle]. rewrite Hsingle.
      destruct (invoke_appends now single s) as (_ & _ & Hw).
      pose proof (invoke_menu_bound now single s (Hmenu _ _ Hsingle)) as Hres.
      destruct (on_key now single (Done s)) as [res r]. cbn [fst snd] in *.
      by rewrite bool_decide_eq_false_2.
Qed.

(** X28: while a menu is open, what is typed stays in tdsr: a chunk that a
    [ConfigHandler], a [CopyHandler] or a [BufferHandler] processes is never
    written to the child, whether the menu binds it or not. *)
Theorem menu_keeps_keys (key_time : float) (now : Z) (bytes : list N) (fd : Z)
    (s : Session) (hs : list handler) (top : handler) :
  is_cursor_position_report bytes = false →
  key_handlers s = hs ++ [top] →
  menu top →
  written (session (on_input key_time now bytes fd s)) = written s.
Proof.
  intros Hcpr Hstack Hmenu.
  rewrite (process_input_top key_time now bytes fd s hs top Hcpr Hstack).
  assert (written (session (handler_process wcwidth desktop super_display plugin_handle
                              int decode key_time now bytes top (interrupted s)).2)
          = written s) as Hw.
  { destruct top as [h|h|h|on_accept buffer h]; cbn [handler_process]; [done| | |].
    - pose proof (process_menu ConfigHandler.handle_unknown_key key_time now bytes h
                    (interrupted s)) as H.
      destruct (KeyHandler.process _ _ _ _ _ _ _) as [[h' res] r]. apply H.
      + cbn in Hmenu. rewrite Hmenu. apply ConfigHandler_keymap_menu_bound.
      + intros h0 s0. unfold ConfigHandler.handle_unknown_key. by destruct (_ || _).
    - pose proof (process_menu CopyHandler.handle_unknown_key key_time now bytes h
                    (interrupted s)) as H.
      destruct (KeyHandler.process _ _ _ _ _ _ _) as [[h' res] r]. apply H.
      + cbn in Hmenu. rewrite Hmenu. apply CopyHandler_keymap_menu_bound.
      + done.
    - unfold BufferHandler.process. destruct (_ || _).
      + destruct on_accept; cbn [ConfigHandler.accept snd session];
          unfold ConfigHandler.set_rate2, ConfigHandler.set_volume2,
            ConfigHandler.set_voice_idx2, ConfigHandler.set_delay2;
          by destruct (int buffer).
      + by destruct (decode bytes). }
  destruct (handler_process _ _ _ _ _ _ _ _ _ _ _) as [[top' res] r].
  cbn [snd] in Hw. destruct r as [s1|e s1]; cbn [session] in *; [|done].
  by destruct (bool_decide _).
Qed.

Lemma process_input_buffer key_time now bytes fd s hs on_accept buffer h :
  is_cursor_position_report bytes = false →
  key_handlers s = hs ++ [A_BufferHandler on_accept buffer h] →
  on_input key_time now bytes fd s
  = if bool_decide (bytes = [13%N]) || bool_decide (bytes = [10%N]) then
      Done (with_world (set_lastkey (decode_replace bytes))
              (set_key_handlers hs
                 (ConfigHandler.accept int on_accept buffer (interrupted s))))
    else match decode bytes with
         | Some text =>
             Done (with_world (set_lastkey (decode_replace bytes))
                     (set_key_handlers (hs ++ [A_BufferHandler on_accept (buffer ++ text) h])
                        (interrupted s)))
         | None =>
             Fails UnicodeDecodeError
               (set_key_handlers (hs ++ [A_BufferHandler on_accept buffer h]) (interrupted s))
         end.
Proof.
  intros Hcpr Hstack.
  rewrite (process_input_top _ _ _ _ _ hs (A_BufferHandler on_accept buffer h)) by done.
  unfold handler_process, BufferHandler.process.
  assert (key_handlers (ConfigHandler.accept int on_accept buffer (interrupted s))
          = key_handlers s) as Haccept.
  { destruct on_accept; cbn [ConfigHandler.accept];
      unfold ConfigHandler.set_rate2, ConfigHandler.set_volume2,
        ConfigHandler.set_voice_idx2, ConfigHandler.set_delay2;
      by destruct (int buffer). }
  destruct (_ || _).
  - cbv zeta. rewrite bool_decide_eq_true_2 by done.
    cbn [set_key_handlers key_handlers with_world]. rewrite Haccept, Hstack, insert_top.
    by rewrite removelast_last.
  - destruct (decode bytes).
    + cbv zeta. rewrite bool_decide_eq_false_2 by done.
      change (key_handlers (interrupted s)) with (key_handlers s).
      by rewrite Hstack, insert_top.
    + cbn [left_by_exception]. change (key_handlers (interrupted s)) with (key_handlers s).
      by rewrite Hstack, insert_top.
Qed.

(** X29: a [BufferHandler] collects what is typed until Enter.  Chunks
    that are not Enter are decoded and appended to its buffer, each
    interrupting speech and nothing more; on Enter, carriage return or line
    feed, [on_accept] receives the buffer with everything typed since, in
    order, and the handler leaves the stack, so that the menu that opened
    it is on top again. *)
Theorem buffer_collects_until_enter (typed : list (float * Z * list N))
    (texts : list str) (key_time : float) (now : Z) (enter : list N) (fd : Z)
    (s : Session) (hs : list handler)
    (on_accept : acceptor) (buffer : str) (h : KeyHandler.t bound) :
  Forall2 (λ chunk text,
             is_cursor_position_report chunk.2 = false
             ∧ chunk.2 ≠ [13%N] ∧ chunk.2 ≠ [10%N] ∧ decode chunk.2 = Some text)
          typed texts →
  enter = [13%N] ∨ enter = [10%N] →
  key_handlers s = hs ++ [A_BufferHandler on_accept buffer h] →
  ∃ s1,
    process_inputs (λ key_time now bytes, on_input key_time now bytes fd)
      (typed ++ [(key_time, now, enter)]) s
    = Done (with_world (set_lastkey (decode_replace enter))
              (set_key_handlers hs
                 (ConfigHandler.accept int on_accept (buffer ++ mjoin texts) s1)))
    ∧ sent (world s1)
      = sent (world s) ++ replicate (S (length typed)) (u "x" ++ [10%N])
    ∧ synth s1 = synth s ∧ numbers s1 = numbers s ∧ config_file s1 = config_file s
    ∧ written s1 = written s ∧ clipboard s1 = clipboard s
    ∧ speech (world s1) = speech (world s)
    ∧ screen (world s1) = screen (world s)
    ∧ CURSOR_TIMEOUT (world s1) = CURSOR_TIMEOUT (world s).
Proof.
  intros Htyped Henter. revert s buffer.
  induction Htyped as [|[[kt1 now1] chunk] text typed texts (Hcpr & H13 & H10 & Hdec) _ IH];
    intros s buffer Hstack.
  - cbn [app process_inputs mjoin list_join]. rewrite app_nil_r.
    rewrite (process_input_buffer key_time now enter fd s hs on_accept buffer h);
      [|by destruct Henter as [-> | ->]|done].
    assert (bool_decide (enter = [13%N]) || bool_decide (enter = [10%N]) = true) as ->.
    { destruct Henter as [-> | ->]; [done|]. by rewrite orb_true_r. }
    exists (interrupted s). by repeat split.
  - cbn [app process_inputs]. cbn [snd] in *.
    rewrite (process_input_buffer kt1 now1 chunk fd s hs on_accept buffer h) by done.
    rewrite !bool_decide_eq_false_2 by done. cbn [orb]. rewrite Hdec.
    set (s' := with_world _ _).
    destruct (IH s' (buffer ++ text)) as (s1 & -> & Hsent & Hrest); [done|].
    exists s1. split.
    { change (mjoin (text :: texts)) with (text ++ mjoin texts). by rewrite app_assoc. }
    split; [|exact Hrest].
    rewrite Hsent. cbn [s' with_world world interrupted silence synth_send sent set_lastkey
      with_state set_key_handlers length].
    by rewrite <- app_assoc.
Qed.

(** X30: the backspace key, typed while no menu is open.  In the first
    column the key goes to the child and nothing is spoken.  Elsewhere the
    character to the left of the cursor is announced first, an empty cell
    as a space, and the key goes to the child.  When that cell holds more
    than one code point, a character with a combining mark, [say_character]
    raises [TypeError], which nothing catches, and the key does not reach
    the child. *)
Theorem backspace_key (key_time : float) (now : Z) (bytes : list N) (fd : Z)
    (s : Session) (h : KeyHandler.t bound) (fd' : Z) :
  is_cursor_position_report bytes = false →
  key_handlers s = [A_KeyHandler h] →
  KeyHandler.keymap h !! bytes = Some b_handle_backspace →
  KeyHandler.keymap h !! (bytes ++ bytes) = None →
  KeyHandler.fd h = Some fd' →
  let c := cursor (base (screen (world s))) in
  let left := get_data (world s) (cursor_y c) (cursor_x c - 1) in
  let stop := u "x" ++ [10%N] in
  (cursor_x c ≤ 0 →
   ∃ s', on_input key_time now bytes fd s = Done s'
     ∧ written s' = written s ++ [(fd', bytes)]
     ∧ sent (world s') = sent (world s) ++ [stop])
  ∧ (cursor_x c > 0 → (length left ≤ 1)%nat →
     ∃ s', on_input key_time now bytes fd s = Done s'
       ∧ written s' = written s ++ [(fd', bytes)]
       ∧ sent (world s')
         = sent (world s)
           ++ [stop; announcement (speech (world s)) (default SPACE (head left))])
  ∧ (cursor_x c > 0 → (2 ≤ length left)%nat →
     ∃ s', on_input key_time now bytes fd s = Fails (Exn TypeError) s'
       ∧ written s' = written s).
Proof.
  intros Hcpr Hstack Hkey Hdouble Hfd c left stop.
  rewrite (process_input_top _ _ _ _ _ [] (A_KeyHandler h)) by done.
  unfold handler_process.
  rewrite (process_single _ _ _ _ _ _ _ b_handle_backspace) by auto.
  unfold invoked_single. rewrite Hfd. cbn [invoke fst snd].
  unfold handle_backspace, run.
  change (cursor_x (cursor (base (screen (world (interrupted s)))))) with (cursor_x c).
  change (get_data (world (interrupted s))
            (cursor_y (cursor (base (screen (world (interrupted s))))))
            (cursor_x c - 1)) with left.
  assert (∀ res w, res = Some KeyHandler.PASSTHROUGH →
            match (if bool_decide (res = Some KeyHandler.PASSTHROUGH)
                   then os_write (Some fd') bytes (Done (with_world (λ _, w) (interrupted s)))
                   else Done (with_world (λ _, w) (interrupted s))) with
            | Done s0 =>
                Done (with_world (set_lastkey (decode_replace bytes))
                        (let s1 := set_key_handlers
                                     (<[length (@nil handler) :=
                                          A_KeyHandler (KeyHandler.set_last_key bytes
                                            (KeyHandler.set_last_key_time key_time h))]>
                                        (key_handlers s0)) s0 in
                         if bool_decide (res = Some KeyHandler.REMOVE)
                         then set_key_handlers (removelast (key_handlers s1)) s1 else s1))
            | Fails e s0 =>
                Fails e (set_key_handlers
                           (<[length (@nil handler) :=
                                left_by_exception key_time bytes (A_KeyHandler h)]>
                              (key_handlers s0)) s0)
            end
            = Done (with_world (set_lastkey (decode_replace bytes))
                      (set_key_handlers
                         [A_KeyHandler (KeyHandler.set_last_key bytes
                                          (KeyHandler.set_last_key_time key_time h))]
                         (set_written (written s ++ [(fd', bytes)])
                            (with_world (λ _, w) (interrupted s)))))) as Hpass.
  { intros res w ->. rewrite bool_decide_eq_true_2 by done. cbn [os_write].
    rewrite bool_decide_eq_false_2 by done. cbv zeta.
    change (key_handlers (set_written _ _)) with (key_handlers s). by rewrite Hstack. }
  split; [|split].
  - intros Hx. rewrite !(bool_decide_eq_false_2 (cursor_x c > 0)) by lia. cbn [fst snd].
    rewrite Hpass by done. eexists. split; [done|]. by split.
  - intros Hx Hlen. rewrite !(bool_decide_eq_true_2 (cursor_x c > 0)) by done.
    assert (say_character left (world (interrupted s))
            = Returns (synth_send (announcement (speech (world s)) (default SPACE (head left)))
                         (world (interrupted s)))) as ->.
    { unfold say_character, announcement.
      change (speech (world (interrupted s))) with (speech (world s)).
      destruct left as [|ch [|? ?]]; [| |simpl in Hlen; lia]; cbn [head default].
      - rewrite bool_decide_eq_true_2 by done.
        by destruct (symbols (speech (world s)) !! SPACE).
      - rewrite bool_decide_eq_false_2 by done.
        unfold id. by destruct (symbols (speech (world s)) !! ch). }
    cbn [fst snd]. rewrite Hpass by done. eexists. split; [done|]. split; [done|].
    cbn. by rewrite <- app_assoc.
  - intros Hx Hlen. rewrite !(bool_decide_eq_true_2 (cursor_x c > 0)) by done.
    assert (say_character left (world (interrupted s))
            = Raises TypeError (world (interrupted s))) as ->.
    { unfold say_character.
      destruct left as [|ch [|ch' rest]]; [simpl in Hlen; lia|simpl in Hlen; lia|].
      by rewrite bool_decide_eq_false_2 by done. }
    cbn [fst snd]. rewrite bool_decide_eq_false_2 by done. eexists. by split.
Qed.
End ProcessInput.

(** ** The keyboard side at work *)

(** Stand-ins for what comes from outside, as far as the examples need it:
    a Linux desktop with [xclip], a [display] that returns, no plugin,
    [int] on decimal digits, and the decoding of ASCII. *)
Definition example_desktop : Desktop :=
  {| platform_system := "Linux"; XDG_SESSION_TYPE := None; can_run := λ _, true |}.

Definition example_int (val : str) : option Z :=
  match val with
  | [] => None
  | _ => foldl (λ acc c, acc ≫= (λ n, if bool_decide (48 ≤ c ≤ 57)%N
                                       then Some (10 * n + Z.of_N (c - 48)) else None))
               (Some 0) val
  end.

Definition example_decode (bytes : list N) : option str :=
  if forallb (λ c, c <? 128)%N bytes then Some bytes else None.

Definition example_decode_replace (bytes : list N) : str :=
  (λ c, if (c <? 128)%N then c else 65533%N) <$> bytes.

Definition example_input : float → Z → list N → Z → Session → reply :=
  process_input example_wcwidth example_desktop (λ _, true) (λ _ w, w)
    example_int example_decode example_decode_replace.

(** The session of [main] when its loop begins, on an 80 by 24 terminal
    with the default configuration and no plugin; the child is on the
    descriptor 3. *)
Definition first_session : Session :=
  {| world := startup default_config 80 24;
     key_handlers := [A_KeyHandler (KeyHandler.init keymap (Some 3))];
     synth := Synth.mk (Some 0%nat) None None None;
     numbers := {| speech_rate := None; speech_volume := None;
                   speech_voice_idx := None; speech_cursor_delay := None |};
     config_file := None; written := []; clipboard := [] |}.

(** The configuration menu: [ESC c], [r], the digits of 150 and Enter set
    the rate; [e] turns the echo of keys off; Enter leaves the menu. *)
Example config_menu_example :
  let typed := [ESC "c"; u "r"; u "1"; u "5"; u "0"; [13%N]; u "e"; [13%N]] in
  let s := session (process_inputs (λ key_time now bytes, example_input key_time now bytes 3)
                      ((λ bytes, (0%float, 0, bytes)) <$> typed) first_session) in
  filter (λ text, text ≠ u "x" ++ [10%N]) (sent (world s))
  = [u "sconfig" ++ [10%N]; u "sRate" ++ [10%N]; u "r150" ++ [10%N];
     u "sConfirmed" ++ [10%N]; u "scharacter echo off" ++ [10%N]; u "sexit" ++ [10%N]]
  ∧ Synth.rate (synth s) = Some 150
  ∧ key_echo (speech (world s)) = false
  ∧ (snd <$> config_file s) = Some (numbers s)
  ∧ length (key_handlers s) = 1%nat
  ∧ written s = [].
Proof. vm_compute. repeat split. Qed.

(** The copy menu: [ESC v] and [l] copy the line of the review cursor. *)
Example copy_menu_example :
  let typed := [ESC "v"; u "l"] in
  let s0 := with_world (λ _, hello_world) first_session in
  let s := session (process_inputs (λ key_time now bytes, example_input key_time now bytes 3)
                      ((λ bytes, (0%float, 0, bytes)) <$> typed) s0) in
  clipboard s = [(["xclip"; "-selection"; "clip"]%string, u "hello world  x")]
  ∧ length (key_handlers s) = 1%nat.
Proof. vm_compute. repeat split. Qed.

Lemma keymap_grounded : grounded (key_handlers first_session).
Proof.
  change (map_Forall (λ (_ : list N) b, b ≠ b_copy_line ∧ b ≠ b_copy_screen) keymap).
  intros k b H. unfold keymap in H. apply elem_of_list_to_map_2 in H.
  repeat (apply elem_of_cons in H as [[= _ ->]|H]; [done|]). by apply elem_of_nil in H.
Qed.

Lemma cursor_position_report_passes_witness :
  example_input 0%float 0 (ESC "[24;80R") 3 first_session
  = Done (set_written [(3, ESC "[24;80R")] first_session).
Proof.
  refine (cursor_position_report_passes example_wcwidth example_desktop (λ _, true)
            (λ _ w, w) example_int example_decode example_decode_replace
            0%float 0 (u "24") (u "80") [] 3 first_session _ _ _ _).
  - discriminate.
  - discriminate.
  - repeat constructor; vm_compute; discriminate.
  - repeat constructor; vm_compute; discriminate.
Defined.

Lemma unbound_key_reaches_child_witness :
  ∃ s', example_input 0%float 0 (u "a") 3 first_session = Done s'
    ∧ written s' = [(3, u "a")] ∧ lastkey (world s') = u "a".
Proof.
  destruct (unbound_key_reaches_child example_wcwidth example_desktop (λ _, true)
              (λ _ w, w) example_int example_decode example_decode_replace
              0%float 0 (u "a") 3 first_session (KeyHandler.init keymap (Some 3)) 3)
    as (s' & Hs' & Hw & _ & _ & _ & Hk & _).
  - reflexivity.
  - reflexivity.
  - vm_compute. reflexivity.
  - reflexivity.
  - exists s'. split; [exact Hs'|]. split; [exact Hw|exact Hk].
Defined.

Lemma arrow_keys_speak_once_witness :
  ∃ s', process_inputs (λ key_time now bytes, example_input key_time now bytes 3)
          [(0%float, 0, ESC "[A"); (0.25%float, 250000, ESC "[A");
           (0.5%float, 500000, ESC "[D")] first_session
        = Done s'
    ∧ State.delayed_functions (state (world s')) = [(520000, saychar_at_cursor)]
    ∧ written s' = [(3, ESC "[A"); (3, ESC "[A"); (3, ESC "[D")].
Proof.
  assert (∀ bytes b cb, keymap !! bytes = Some b → arrow_callback b = Some cb →
            keymap !! (bytes ++ bytes) = None →
            is_cursor_position_report bytes = false →
            arrow_key (KeyHandler.init keymap (Some 3)) bytes cb) as Harrow.
  { intros bytes b cb Hb Hcb Hd Hcpr. split; [done|]. split; [by exists b|done]. }
  destruct (arrow_keys_speak_once example_wcwidth example_desktop (λ _, true)
              (λ _ w, w) example_int example_decode example_decode_replace
              [(0%float, 0, ESC "[A"); (0.25%float, 250000, ESC "[A")] 0.5%float 500000 (ESC "[D")
              saychar_at_cursor 3 first_session (KeyHandler.init keymap (Some 3)) 3)
    as (s' & Hs' & Hd & _ & Hw & _).
  - repeat constructor; exists sayline_at_cursor;
      apply (Harrow _ b_arrow_up); vm_compute; reflexivity.
  - apply (Harrow _ b_arrow_left); vm_compute; reflexivity.
  - reflexivity.
  - reflexivity.
  - exists s'. split; [exact Hs'|]. split; [exact Hd|exact Hw].
Defined.

Lemma first_handler_stays_witness :
  grounded (key_handlers (session (example_input 0%float 0 (ESC "v") 3 first_session))).
Proof.
  exact (proj1 (first_handler_stays example_wcwidth example_desktop (λ _, true)
                  (λ _ w, w) example_int example_decode example_decode_replace
                  0%float 0 (ESC "v") 3 first_session keymap_grounded)).
Defined.

Lemma menu_keeps_keys_witness :
  written (session (example_input 0%float 0 (u "ls")
                      3 (push ConfigHandler.new first_session))) = [].
Proof.
  refine (menu_keeps_keys example_wcwidth example_desktop (λ _, true)
            (λ _ w, w) example_int example_decode example_decode_replace
            0%float 0 (u "ls") 3 (push ConfigHandler.new first_session)
            (key_handlers first_session) ConfigHandler.new _ _ _); reflexivity.
Defined.

Lemma buffer_collects_until_enter_witness :
  ∃ s', process_inputs (λ key_time now bytes, example_input key_time now bytes 3)
          [(0%float, 0, u "1"); (0%float, 0, u "50"); (0%float, 0, [13%N])]
          (push (ConfigHandler.new_buffer accept_rate) first_session)
        = Done s'
    ∧ Synth.rate (synth s') = Some 150
    ∧ key_handlers s' = key_handlers first_session.
Proof.
  destruct (buffer_collects_until_enter example_wcwidth example_desktop (λ _, true)
              (λ _ w, w) example_int example_decode example_decode_replace
              [(0%float, 0, u "1"); (0%float, 0, u "50")] [u "1"; u "50"] 0%float 0 [13%N] 3
              (push (ConfigHandler.new_buffer accept_rate) first_session)
              (key_handlers first_session) accept_rate [] (KeyHandler.init ∅ None))
    as (s1 & Hs1 & _).
  - repeat constructor; vm_compute; discriminate.
  - by left.
  - reflexivity.
  - eexists. split; [exact Hs1|]. split; reflexivity.
Defined.

Lemma backspace_key_witness :
  ∃ s', example_input 0%float 0 [127%N] 3 first_session = Done s'
    ∧ written s' = [(3, [127%N])]
    ∧ sent (world s') = [u "x" ++ [10%N]].
Proof.
  refine (proj1 (backspace_key example_wcwidth example_desktop (λ _, true)
                   (λ _ w, w) example_int example_decode example_decode_replace
                   0%float 0 [127%N] 3 first_session (KeyHandler.init keymap (Some 3)) 3
                   _ _ _ _ _) _).
  - reflexivity.
  - reflexivity.
  - vm_compute. reflexivity.
  - vm_compute. reflexivity.
  - reflexivity.
  - vm_compute. discriminate.
Defined.

(** * The schedule along the main loop *)

(** The pending calls and [tempsilence]. *)
Definition pending (w : World) : list (Z * callback) * bool :=
  (State.delayed_functions (state w), State.tempsilence (state w)).

Lemma pending_state w w' : state w' = state w → pending w' = pending w.
Proof. unfold pending. by intros ->. Qed.

Lemma while_pending (cond : World → bool) (body : World → World) n w :
  (∀ s, pending (body s) = pending s) →
  pending (while_ n cond body w) = pending w.
Proof.
  intros Hbody. apply (while_ind (λ s, pending s = pending w)); [|done].
  intros s Hs _. by rewrite Hbody.
Qed.

Lemma move_prevchar_pending w : pending (move_prevchar w) = pending w.
Proof. unfold move_prevchar. by repeat case_bool_decide. Qed.

Lemma move_nextchar_pending w : pending (move_nextchar w) = pending w.
Proof. unfold move_nextchar. by repeat case_bool_decide. Qed.

Lemma sayword_pending spell w : pending (sayword spell w) = pending w.
Proof.
  unfold sayword.
  set (w1 := while_ (Z.to_nat (revx w)) _ move_prevchar w).
  assert (pending w1 = pending w) as H1
    by apply while_pending, move_prevchar_pending.
  clearbody w1.
  destruct (bool_decide (revx w1 = 0) && bool_decide (get_char w1 = [SPACE]));
    [exact H1|].
  set (loop := while_ _ _ _ _).
  assert (pending loop.1.1 = pending w1) as Hloop.
  { subst loop.
    apply (while_ind (λ t : World * list N * bool, pending t.1.1 = pending w1)); [|done].
    intros [[s wd] br] Ht _. cbn [fst] in *.
    rewrite <- Ht, <- (move_nextchar_pending s).
    by destruct (bool_decide (get_char (move_nextchar s) = [SPACE])). }
  destruct loop as [[w2 word] broke]. cbn [fst] in Hloop.
  rewrite <- H1, <- Hloop. by destruct spell.
Qed.

Lemma prevword_pending w : pending (prevword w) = pending w.
Proof.
  unfold prevword. case_bool_decide; rewrite sayword_pending; [done|].
  by rewrite !while_pending by apply move_prevchar_pending.
Qed.

Lemma nextword_pending w : pending (nextword w) = pending w.
Proof.
  unfold nextword. cbv zeta.
  set (w1 := while_ _ _ move_nextchar w).
  set (w2 := while_ _ _ move_nextchar w1).
  assert (pending w2 = pending w) as H2.
  { subst w2 w1. by rewrite !while_pending by apply move_nextchar_pending. }
  clearbody w2. destruct (_ && _); by rewrite sayword_pending.
Qed.

Lemma skip_to_previous_char_pending w :
  pending (skip_to_previous_char w) = pending w.
Proof. unfold skip_to_previous_char. by apply while_pending. Qed.

Lemma saychar_pending y x phonetically w :
  pending (final (saychar y x phonetically w)) = pending w.
Proof. apply pending_state, saychar_frame. Qed.

Lemma say_character_pending ch w :
  pending (final (say_character ch w)) = pending w.
Proof. apply pending_state, say_character_frame. Qed.

Lemma prevchar_pending w : pending (final (prevchar w)) = pending w.
Proof.
  unfold prevchar. rewrite final_andthen_total, saychar_pending.
  rewrite skip_to_previous_char_pending. by case_bool_decide.
Qed.

Lemma nextchar_pending wcwidth w : pending (final (nextchar wcwidth w)) = pending w.
Proof.
  unfold nextchar. destruct (wcwidth _); [|done].
  rewrite saychar_pending. case_bool_decide; [|done].
  by rewrite skip_to_previous_char_pending.
Qed.

Lemma line_motions_pending w :
  pending (prevline w) = pending w ∧ pending (nextline w) = pending w
  ∧ pending (topOfScreen w) = pending w ∧ pending (bottomOfScreen w) = pending w.
Proof.
  unfold prevline, nextline, topOfScreen, bottomOfScreen.
  repeat split; try done; by case_bool_decide.
Qed.

Lemma call_pending f w : pending (final (call f w)) = pending w.
Proof.
  destruct f; cbn [call final].
  - unfold read_buffer_scheduled.
    by destruct (sb_frame (with_state (State.set_delaying_output false) w)) as (H & _);
      unfold pending; rewrite H.
  - done.
  - apply saychar_pending.
Qed.

Lemma call_each_pending fs w : pending (final (call_each fs w)) = pending w.
Proof.
  revert w. induction fs as [|f fs IH]; intros w; [done|].
  cbn [call_each]. unfold andthen.
  pose proof (call_pending f w) as Hf.
  destruct (call f w) as [w'|e w']; cbn [final] in *; [|done]. by rewrite IH.
Qed.

Lemma run_world c s : world (session (run c s)) = final (c (world s)).
Proof. unfold run. by destruct (c (world s)). Qed.

Lemma copy_text_world desktop super_display y1 x1 y2 x2 s s' :
  copy_text desktop super_display y1 x1 y2 x2 s = Some s' → world s' = world s.
Proof.
  unfold copy_text. destruct (super_display _); [|done].
  intros H%copy_to_clip_offers. by destruct H as (? & _).
Qed.

Lemma handle_clipboard_pending desktop super_display s :
  pending (world (handle_clipboard desktop super_display s)) = pending (world s).
Proof.
  unfold handle_clipboard. cbv zeta.
  destruct (State.copy_x _); [|done].
  destruct (State.copy_y _) as [cy|]; [|done]. cbn [mbind option_bind].
  destruct (copy_text _ _ _ _ _ _ _) eqn:H; [|done].
  apply copy_text_world in H. cbn. by rewrite H.
Qed.

Lemma accept_pending int on_accept buffer s :
  pending (world (ConfigHandler.accept int on_accept buffer s)) = pending (world s).
Proof.
  destruct on_accept; cbn [ConfigHandler.accept];
    unfold ConfigHandler.set_rate2, ConfigHandler.set_volume2,
      ConfigHandler.set_voice_idx2, ConfigHandler.set_delay2;
    by destruct (int buffer).
Qed.

(** What a key can leave of the schedule [l] and the flag [ts] that it
    finds: both as they are, or one more call, that of an arrow key, with
    [tempsilence] set. *)
Definition after_callable (l : list (Z * callback)) (ts : bool) (w : World) : Prop :=
  pending w = (l, ts) ∨ ∃ entry, pending w = (l ++ [entry], true).

Section Schedule.
Variable super : Pyte.
Variable super_resize : Z → Z → Screen → Screen.
Variable wcwidth : list N → option Z.
Variable desktop : Desktop.
Variable super_display : Screen → bool.
Variable plugin_handle : string → World → World.
Variable int : str → option Z.
Variable decode : list N → option str.
Variable decode_replace : list N → str.

(** The closure that [handle_plugin] returns reads the screen and speaks;
    it leaves the schedule and [tempsilence] alone. *)
Hypothesis plugin_speaks : ∀ name w, pending (plugin_handle name w) = pending w.

Abbreviation on_key := (invoke wcwidth desktop super_display plugin_handle).

Lemma invoke_pending now b s :
  after_callable (State.delayed_functions (state (world s)))
    (State.tempsilence (state (world s)))
    (world (session (on_key now b (Done s)).2)).
Proof.
  assert (∀ w, pending w = pending (world s) →
               after_callable (State.delayed_functions (state (world s)))
                 (State.tempsilence (state (world s))) w) as Hsame.
  { intros w Hw. by left. }
  pose proof (line_motions_pending (world s)) as (Hpl & Hnl & Htop & Hbot).
  destruct b; cbn [invoke snd session];
    first
      [ right; by eexists
      | apply Hsame; rewrite ?run_world;
        first
          [ done
          | apply prevword_pending | apply sayword_pending | apply nextword_pending
          | apply prevchar_pending | apply nextchar_pending | apply saychar_pending
          | apply handle_clipboard_pending | apply plugin_speaks
          | unfold startOfLine; by rewrite final_andthen_total, saychar_pending
          | unfold endOfLine; by rewrite final_andthen_total, saychar_pending
          | unfold handle_backspace; cbn [snd];
            case_bool_decide; [apply say_character_pending|done]
          | unfold handle_delete; cbn [snd]; apply say_character_pending
          | unfold CopyHandler.copy_line; cbn [snd session];
            destruct (copy_text _ _ _ _ _ _ _) eqn:H; [|done];
            apply copy_text_world in H; cbn; by rewrite H
          | unfold CopyHandler.copy_screen; cbn [snd session];
            destruct (copy_text _ _ _ _ _ _ _) eqn:H; [|done];
            apply copy_text_world in H; cbn; by rewrite H ] ].
Qed.

Lemma os_write_world fd data r : world (session (os_write fd data r)) = world (session r).
Proof. destruct r as [s|e s]; [|done]. by destruct fd. Qed.

Lemma process_pending (unknown : KeyHandler.t bound → list N → reply → option Z * reply)
    key_time now data h s :
  (∀ h s, pending (world (session (unknown h data (Done s)).2)) = pending (world s)) →
  after_callable (State.delayed_functions (state (world s)))
    (State.tempsilence (state (world s)))
    (world (session (KeyHandler.process (on_key now) os_write unknown
                       key_time data h (Done s)).2)).
Proof.
  intros Hunknown. unfold KeyHandler.process. cbv zeta.
  case_bool_decide as Hkey.
  - specialize (Hunknown (KeyHandler.set_last_key data
                            (KeyHandler.set_last_key_time key_time h)) s).
    destruct (unknown _ data (Done s)) as [res r]. by left.
  - destruct (_ && _).
    + destruct (KeyHandler.keymap _ !! (data ++ data)) as [double|]; [|by left].
      pose proof (invoke_pending now double s) as H.
      by destruct (on_key now double (Done s)) as [res r].
    + destruct (KeyHandler.keymap _ !! data) as [single|]; [|by left].
      pose proof (invoke_pending now single s) as H.
      destruct (on_key now single (Done s)) as [res r]. cbn [snd] in *.
      destruct (bool_decide (res = _)); [by rewrite os_write_world|done].
Qed.

Lemma handler_process_pending key_time now data top s :
  after_callable (State.delayed_functions (state (world s)))
    (State.tempsilence (state (world s)))
    (world (session (handler_process wcwidth desktop super_display plugin_handle int decode
                       key_time now data top s).2)).
Proof.
  destruct top as [h|h|h|on_accept buffer h]; cbn [handler_process].
  - pose proof (process_pending (KeyHandler.handle_unknown_key os_write)
                  key_time now data h s) as H.
    destruct (KeyHandler.process _ _ _ _ _ _ _) as [[h' res] r]. apply H.
    intros h0 s0. unfold KeyHandler.handle_unknown_key. cbn [snd].
    by rewrite os_write_world.
  - pose proof (process_pending ConfigHandler.handle_unknown_key key_time now data h s) as H.
    destruct (KeyHandler.process _ _ _ _ _ _ _) as [[h' res] r]. apply H.
    intros h0 s0. unfold ConfigHandler.handle_unknown_key. by destruct (_ || _).
  - pose proof (process_pending CopyHandler.handle_unknown_key key_time now data h s) as H.
    destruct (KeyHandler.process _ _ _ _ _ _ _) as [[h' res] r]. by apply H.
  - left. unfold BufferHandler.process. destruct (_ || _).
    + apply accept_pending.
    + by destruct (decode data).
Qed.

(** After a key nothing is scheduled, or the one call of an arrow key with
    [tempsilence] set. *)
Definition settled (w : World) : Prop :=
  pending w = ([], false) ∨ ∃ entry, pending w = ([entry], true).

Lemma process_input_pending key_time now bytes fd s :
  let s' := session (process_input wcwidth desktop super_display plugin_handle int decode
                       decode_replace key_time now bytes fd s) in
  pending (world s') = pending (world s) ∨ settled (world s').
Proof.
  cbv zeta. unfold process_input. destruct (is_cursor_position_report bytes); [by left|].
  right. fold (interrupted s).
  destruct (last (key_handlers (interrupted s))) as [top|]; [|by left].
  pose proof (handler_process_pending key_time now bytes top (interrupted s)) as H.
  destruct (handler_process _ _ _ _ _ _ _ _ _ _ _) as [[top' res] r].
  cbn [snd] in H. destruct r as [s1|e s1]; cbn [session] in *.
  - by destruct (bool_decide (res = _)).
  - done.
Qed.

(** ** The order of the deadlines *)

(** What [main] keeps true of the schedule at the time [t]: the deadlines
    stand in the order of the list; under [tempsilence] at most one call is
    pending; otherwise no deadline is more than 5 ms after [t]. *)
Definition schedule_inv (t : Z) (w : World) : Prop :=
  in_deadline_order (State.delayed_functions (state w))
  ∧ (State.tempsilence (state w) = true
     → (length (State.delayed_functions (state w)) ≤ 1)%nat)
  ∧ (State.tempsilence (state w) = false
     → Forall (λ p, p.1 ≤ t + 5000) (State.delayed_functions (state w))).

Lemma schedule_inv_pending t w w' :
  pending w' = pending w → schedule_inv t w → schedule_inv t w'.
Proof. unfold pending, schedule_inv. by intros [= -> ->]. Qed.

Lemma schedule_inv_later t t' w : t ≤ t' → schedule_inv t w → schedule_inv t' w.
Proof.
  intros Ht (Hord & Hone & Hle). split; [done|]. split; [done|].
  intros Hts. eapply Forall_impl; [by apply Hle|]. cbn beta. intros. lia.
Qed.

Lemma schedule_inv_settled t w : settled w → schedule_inv t w.
Proof.
  unfold settled, pending, schedule_inv.
  intros [[= -> ->]|[[d f] [= -> ->]]]; cbn; repeat split; try done; constructor.
Qed.

Lemma in_deadline_order_filter (P : Z * callback → Prop) `{!∀ x, Decision (P x)} l :
  in_deadline_order l → in_deadline_order (filter P l).
Proof.
  induction l as [|[d f] l IH]; [done|]. intros [Hd Hl].
  destruct (decide (P (d, f))) as [HP|HP].
  - rewrite filter_cons_True by done. split; [|by apply IH].
    apply Forall_forall. intros q [_ Hq]%list_elem_of_filter.
    rewrite Forall_forall in Hd. by apply Hd.
  - rewrite filter_cons_False by done. by apply IH.
Qed.

Lemma schedule_inv_filter t (P : Z * callback → Prop) `{!∀ x, Decision (P x)} w w' :
  pending w' = (filter P (State.delayed_functions (state w)), State.tempsilence (state w)) →
  schedule_inv t w → schedule_inv t w'.
Proof.
  unfold pending, schedule_inv. intros [= -> ->] (Hord & Hone & Hle).
  split; [by apply in_deadline_order_filter|]. split.
  - intros Hts. specialize (Hone Hts). etrans; [apply length_filter|done].
  - intros Hts. specialize (Hle Hts). apply Forall_forall.
    intros q [_ Hq]%list_elem_of_filter. rewrite Forall_forall in Hle. by apply Hle.
Qed.

Lemma in_deadline_order_snoc l d f :
  in_deadline_order l → Forall (λ p, p.1 ≤ d) l → in_deadline_order (l ++ [(d, f)]).
Proof.
  induction l as [|[t g] rest IH]; simpl.
  - intros _ _. split; [constructor | done].
  - intros [Hh Hr] Hle. inversion Hle as [|?? Ht Hle']; subst. split.
    + apply Forall_app. split; [done|]. constructor; [exact Ht | constructor].
    + by apply IH.
Qed.

(** One chunk of child output and the schedule. *)
Lemma child_output_pending now events w :
  let w' := final (child_output super now events w) in
  pending w' = pending w
  ∨ State.tempsilence (state w) = false
    ∧ pending w' = (State.delayed_functions (state w) ++ [(now + 5000, read_buffer_scheduled_cb)],
                    false).
Proof.
  cbv zeta. unfold child_output, andthen, total.
  destruct (feed_state super events w) as (w1 & -> & Hst & _).
  destruct Hst as (_ & _ & Hd & _ & Hts & _). cbn [final].
  unfold after_feed. cbv zeta.
  set (tracked := if _ && _ then set_revy _ (set_revx _ w1) else w1).
  assert (pending tracked = pending w) as Htr.
  { subst tracked. unfold pending. destruct (_ && _); cbn; by rewrite Hd, Hts. }
  clearbody tracked. injection Htr as Hd' Hts'.
  destruct (negb (State.silence (state tracked))); cbn [andb]; [|left; unfold pending; congruence].
  rewrite Hts'. destruct (State.tempsilence (state w)) eqn:Hw; cbn [negb];
    [left; unfold pending; congruence|].
  destruct (_ && _); [|left; unfold pending; congruence].
  right. split; [done|]. unfold schedule, pending. cbn. by rewrite Hd', Hts'.
Qed.

(** [run_scheduled] and the schedule, whether it returns or raises. *)
Lemma run_scheduled_pending now w :
  let w' := final (run_scheduled now w) in
  pending w' = pending w
  ∨ pending w' = (filter (λ p, now < p.1) (State.delayed_functions (state w)),
                  State.tempsilence (state w)).
Proof.
  cbv zeta. unfold run_scheduled. case_bool_decide; [by left|].
  rewrite run_due_call_each.
  pose proof (call_each_pending (due now (State.delayed_functions (state w))) w) as Hkeep.
  destruct (call_each _ w) as [w'|e w']; cbn [final] in *; [|by left].
  right. injection Hkeep as Hd Hts. unfold pending. cbn. rewrite Hd, Hts.
  by rewrite list_remove_due.
Qed.

Abbreviation reached :=
  (reachable super super_resize wcwidth desktop super_display plugin_handle int decode
     decode_replace).

Lemma reachable_schedule_inv t s : reached t s → schedule_inv t (world s).
Proof.
  induction 1 as [t s Hd Hts|t s rows cols _ IH|t s key_time now bytes fd _ IH Ht
                  |t s now events _ IH Ht|t s now _ IH Ht].
  - apply schedule_inv_settled. left. unfold pending. by rewrite Hd, Hts.
  - by eapply schedule_inv_pending; [|exact IH].
  - destruct (process_input_pending key_time now bytes fd s) as [Hsame|Hset].
    + eapply schedule_inv_pending; [exact Hsame|]. by eapply schedule_inv_later.
    + by apply schedule_inv_settled.
  - apply (schedule_inv_later t now) in IH; [|done].
    destruct (child_output_pending now events (world s)) as [Hsame|[Hts Hnew]].
    + by eapply schedule_inv_pending; [exact Hsame|].
    + destruct IH as (Hord & _ & Hle). specialize (Hle Hts).
      cbn [world with_world]. unfold schedule_inv.
      injection Hnew as -> ->. split; [by apply in_deadline_order_snoc|].
      split; [done|]. intros _. apply Forall_app. split; [done|].
      constructor; [cbn; lia|constructor].
  - apply (schedule_inv_later t now) in IH; [|done].
    destruct (run_scheduled_pending now (world s)) as [Hsame|Hrun].
    + by eapply schedule_inv_pending; [exact Hsame|].
    + by eapply schedule_inv_filter; [exact Hrun|].
Qed.

(** C2: in every state that [main] reaches, [time_until_next_delayed]
    returns [max(0, d - now)] for the earliest deadline [d] among the
    pending calls, and no bound when nothing is pending.  The function reads
    the deadline of the first pending call; that is the earliest one because
    the deadlines of a reachable schedule stand in the order of the list:
    [process_input] empties the schedule where it lowers [tempsilence], an
    arrow key schedules its one call and raises [tempsilence], under which
    [main] schedules no flush, and the flushes are scheduled 5 ms ahead of a
    clock that does not go back. *)
Theorem time_until_next_delayed_earliest (t : Z) (s : Session) (now : Z) :
  reached t s →
  time_until_next_delayed now (world s)
  = (λ d, Z.max 0 (d - now))
      <$> earliest_deadline (State.delayed_functions (state (world s))).
Proof.
  intros Hreach. destruct (reachable_schedule_inv t s Hreach) as (Hord & _).
  unfold time_until_next_delayed.
  destruct (State.delayed_functions (state (world s))) as [|[d f] rest]; [done|].
  destruct Hord as [Hd _]. by rewrite earliest_deadline_head.
Qed.
End Schedule.

(** The child writes [a] and, one millisecond later, [b]: two flushes are
    pending, and the wait is for the first. *)
Lemma time_until_next_delayed_earliest_witness :
  let s := with_world (λ w, final (child_output plain_terminal 1000 [Draw (u "b")] w))
             (with_world (λ w, final (child_output plain_terminal 0 [Draw (u "a")] w))
                first_session) in
  State.delayed_functions (state (world s))
  = [(5000, read_buffer_scheduled_cb); (6000, read_buffer_scheduled_cb)]
  ∧ time_until_next_delayed 2000 (world s) = Some 3000.
Proof.
  intros s. split; [vm_compute; reflexivity|].
  rewrite (time_until_next_delayed_earliest plain_terminal (λ _ _ sc, sc) example_wcwidth
             example_desktop (λ _, true) (λ _ w, w) example_int example_decode
             example_decode_replace (λ _ _, eq_refl) 1000 s 2000).
  - vm_compute. reflexivity.
  - subst s. apply reachable_child_output with (t := 0); [|lia].
    apply reachable_child_output with (t := 0); [|lia].
    apply reachable_start; reflexivity.
Defined.

(** An arrow key and, one millisecond later, output of the child: the call
    of the arrow key is the only one pending, since [main] schedules no
    flush under [tempsilence]. *)
Example arrow_then_output_example :
  let s1 := session (example_input 0%float 0 (ESC "[A") 3 first_session) in
  let s2 := with_world (λ w, final (child_output plain_terminal 1000 [Draw (u "$ ")] w)) s1 in
  State.delayed_functions (state (world s2)) = [(20000, sayline_at_cursor)]
  ∧ State.tempsilence (state (world s2)) = true
  ∧ time_until_next_delayed 1000 (world s2) = Some 19000.
Proof. vm_compute. repeat split. Qed.
